(** * contribx: the issue-claim protocol, its quota cache, the expiry sweep
      and the client reconciliation layer

    A shallow embedding of the data-access layer (the two snapshots of
    [firebaseService.ts], [src/unnamed/part_000] lines 1-274 and 275-745)
    and of the React context [src/src/contexts/AppContext.tsx].

    Asynchronous functions are written in a small free monad [Prog]: every
    [await], every read of the clock, of the random source, of the quota
    cache and every React state update is an event, so that one and the
    same program text can be run sequentially against a [World]
    (interpreter [run]) or interleaved with other attempts against a shared
    issue store (scheduler [exec]).

    The functions that create or delete documents and the first load of
    the application work on the whole store ([Backend]); they are written
    as state transformers ([Async]) that run the programs of the first
    part on its issues and teams. *)

From Stdlib Require Import ZArith QArith String Ascii List Lia.
From stdpp Require Import gmap strings list fin_maps.
Close Scope Q_scope.
Open Scope string_scope.
Open Scope Z_scope.

(* ===================================================================== *)
(** * JavaScript values *)
(* ===================================================================== *)

Module Js.

(** [!!s] for a string: the empty string is falsy. *)
Definition truthy_str (s : string) : bool := negb (String.eqb s "").

(** [!!v] for [string | null]. *)
Definition truthy_ostr (v : option string) : bool :=
  match v with Some s => truthy_str s | None => false end.

(** [!!v] for [number | null]: [null] and [0] are falsy. *)
Definition truthy_onum (v : option Z) : bool :=
  match v with Some z => negb (Z.eqb z 0) | None => false end.

(** [a === b] for [a : string | null], [b : string]. *)
Definition seq_ostr (a : option string) (b : string) : bool :=
  match a with Some s => String.eqb s b | None => false end.

(** [a || b] on strings. *)
Definition or_str (a b : string) : string := if truthy_str a then a else b.

(** [p] is a prefix of [s]. *)
Fixpoint startsWith (s p : string) : bool :=
  match p, s with
  | EmptyString, _ => true
  | String a p', String b s' => Ascii.eqb a b && startsWith s' p'
  | String _ _, EmptyString => false
  end.

(** [hay.includes(needle)]. *)
Fixpoint includes (hay needle : string) : bool :=
  startsWith hay needle ||
  match hay with
  | EmptyString => false
  | String _ rest => includes rest needle
  end.

(** ** Text

    A string is held in UTF-8.  A character is a well-formed sequence, a
    lead byte with the continuation bytes it announces; a byte that
    belongs to no such sequence is a character of its own and stands for
    the code point of its value (so that a string of bytes that is no
    UTF-8 reads as Latin-1). *)

(** The number of continuation bytes a lead byte announces. *)
Definition announced (c : ascii) : nat :=
  let n := N_of_ascii c in
  if (n <? 192)%N then 0
  else if (n <? 224)%N then 1
  else if (n <? 240)%N then 2
  else if (n <? 248)%N then 3
  else 0.

Definition payload (c : ascii) : N := N.land (N_of_ascii c) 63.

(** The code point of a character. *)
Definition code_point (ch : string) : N :=
  match ch with
  | String c0 EmptyString => N_of_ascii c0
  | String c0 (String c1 EmptyString) =>
      N.lor (N.shiftl (N.land (N_of_ascii c0) 31) 6) (payload c1)
  | String c0 (String c1 (String c2 EmptyString)) =>
      N.lor (N.shiftl (N.land (N_of_ascii c0) 15) 12)
            (N.lor (N.shiftl (payload c1) 6) (payload c2))
  | String c0 (String c1 (String c2 (String c3 EmptyString))) =>
      N.lor (N.shiftl (N.land (N_of_ascii c0) 7) 18)
            (N.lor (N.shiftl (payload c1) 12)
                   (N.lor (N.shiftl (payload c2) 6) (payload c3)))
  | _ => 0
  end.

(** The bytes of a code point. *)
Definition utf8 (n : N) : string :=
  let byte k := ascii_of_N k in
  let cont k := byte (N.lor 128 (N.land k 63)) in
  if (n <? 128)%N then String (byte n) EmptyString
  else if (n <? 2048)%N then
    String (byte (N.lor 192 (N.shiftr n 6))) (String (cont n) EmptyString)
  else if (n <? 65536)%N then
    String (byte (N.lor 224 (N.shiftr n 12)))
      (String (cont (N.shiftr n 6)) (String (cont n) EmptyString))
  else
    String (byte (N.lor 240 (N.shiftr n 18)))
      (String (cont (N.shiftr n 12))
         (String (cont (N.shiftr n 6)) (String (cont n) EmptyString))).

(** A sequence is well formed when it is the encoding of its code point
    (and not a longer form of a shorter one), and the code point is no
    surrogate and none beyond U+10FFFF. *)
Definition well_formed (ch : string) : bool :=
  let n := code_point ch in
  String.eqb (utf8 n) ch
  && negb ((0xD800 <=? n)%N && (n <=? 0xDFFF)%N)
  && (n <=? 0x10FFFF)%N.

(** The characters of a string, each with its bytes. *)
Fixpoint chars (s : string) : list string :=
  match s with
  | EmptyString => []
  | String c0 r0 =>
      match announced c0, r0 with
      | 1%nat, String c1 r1 =>
          if well_formed (String c0 (String c1 EmptyString))
          then String c0 (String c1 EmptyString) :: chars r1
          else String c0 EmptyString :: chars r0
      | 2%nat, String c1 (String c2 r2) =>
          if well_formed (String c0 (String c1 (String c2 EmptyString)))
          then String c0 (String c1 (String c2 EmptyString)) :: chars r2
          else String c0 EmptyString :: chars r0
      | 3%nat, String c1 (String c2 (String c3 r3)) =>
          if well_formed (String c0 (String c1 (String c2 (String c3 EmptyString))))
          then String c0 (String c1 (String c2 (String c3 EmptyString))) :: chars r3
          else String c0 EmptyString :: chars r0
      | _, _ => String c0 EmptyString :: chars r0
      end
  end.

Definition lower_ascii (c : ascii) : ascii :=
  let n := nat_of_ascii c in
  if (65 <=? n)%nat && (n <=? 90)%nat then ascii_of_nat (n + 32) else c.

(** The lower case of a character.  Beyond ASCII the two characters whose
    lower case holds an ASCII letter are mapped, KELVIN SIGN (to [k]) and
    LATIN CAPITAL LETTER I WITH DOT ABOVE (to [i] and COMBINING DOT
    ABOVE); the other letters beyond ASCII are left as they are, and no
    lower case of theirs holds an ASCII character. *)
Definition lower_char (ch : string) : string :=
  match ch with
  | String c EmptyString => String (lower_ascii c) EmptyString
  | _ =>
      if (code_point ch =? 0x212A)%N then "k"
      else if (code_point ch =? 0x130)%N then "i" ++ utf8 0x307%N
      else ch
  end.

(** [s.toLowerCase()]. *)
Definition toLowerCase (s : string) : string :=
  String.concat "" (List.map lower_char (chars s)).

(** The characters [String.prototype.trim] strips, WhiteSpace and
    LineTerminator of ECMAScript: TAB, LF, VT, FF, CR, SPACE, NO-BREAK
    SPACE, OGHAM SPACE MARK, EN QUAD to HAIR SPACE, LINE SEPARATOR,
    PARAGRAPH SEPARATOR, NARROW NO-BREAK SPACE, MEDIUM MATHEMATICAL SPACE,
    IDEOGRAPHIC SPACE and ZERO WIDTH NO-BREAK SPACE. *)
Definition white_space : list N :=
  [0x9; 0xA; 0xB; 0xC; 0xD; 0x20; 0xA0; 0x1680;
   0x2000; 0x2001; 0x2002; 0x2003; 0x2004; 0x2005; 0x2006; 0x2007;
   0x2008; 0x2009; 0x200A; 0x2028; 0x2029; 0x202F; 0x205F; 0x3000;
   0xFEFF]%N.

Definition is_ws (ch : string) : bool :=
  existsb (N.eqb (code_point ch)) white_space.

(** The list without the white space it starts with. *)
Fixpoint drop_ws (l : list string) : list string :=
  match l with
  | [] => []
  | ch :: r => if is_ws ch then drop_ws r else l
  end.

(** [s.trim()]. *)
Definition trim (s : string) : string :=
  String.concat "" (rev (drop_ws (rev (drop_ws (chars s))))).

(** ** Numbers and what stands in their place *)

(** A value met where the code expects a number: a number, or a value
    that is none.  [NotNum] stands for a function or object found on the
    prototype chain, for a text that holds the text of one (what [+]
    makes of it), and for [NaN]. *)
Inductive Value : Type :=
| Num (z : Z)
| NotNum.

(** [a + b]: a sum of numbers; with a function, an object or a text the
    operands are joined as texts, and [NaN + n] is [NaN]. *)
Definition add (a b : Value) : Value :=
  match a, b with
  | Num x, Num y => Num (x + y)
  | _, _ => NotNum
  end.

(** [a - b]: what is no number converts to [NaN]. *)
Definition sub (a b : Value) : Value :=
  match a, b with
  | Num x, Num y => Num (x - y)
  | _, _ => NotNum
  end.

(** [Math.max(a, b)]: [NaN] as soon as an argument converts to it. *)
Definition max (a b : Value) : Value :=
  match a, b with
  | Num x, Num y => Num (Z.max x y)
  | _, _ => NotNum
  end.

(** [a >= b] for a number [a]: false when [b] converts to [NaN]. *)
Definition ge (a : Z) (b : Value) : bool :=
  match b with
  | Num y => y <=? a
  | NotNum => false
  end.

(** The names every object inherits from [Object.prototype]: under each
    of them a property access finds a function ([__proto__]: the
    prototype object) unless the object has a property of its own of that
    name. *)
Definition prototype_keys : list string :=
  ["constructor"; "hasOwnProperty"; "isPrototypeOf"; "propertyIsEnumerable";
   "toLocaleString"; "toString"; "valueOf"; "__proto__";
   "__defineGetter__"; "__defineSetter__"; "__lookupGetter__"; "__lookupSetter__"].

(** What [obj[key]] finds on an object literal [obj] whose own properties
    are numbers. *)
Inductive Property : Type :=
| Own (v : Z)
| Inherited
| Missing.

Fixpoint own_property (own : list (string * Z)) (k : string) : option Z :=
  match own with
  | [] => None
  | (k', v) :: rest => if String.eqb k' k then Some v else own_property rest k
  end.

(** [obj[key]]; the key [undefined] (the first element of an empty array)
    names the property ["undefined"]. *)
Definition get (own : list (string * Z)) (key : option string) : Property :=
  let k := match key with Some k => k | None => "undefined" end in
  match own_property own k with
  | Some v => Own v
  | None => if existsb (String.eqb k) prototype_keys then Inherited else Missing
  end.

(** [p || d] for a property [p] and a number [d]: [0] and [undefined] are
    falsy, a function or an object is truthy. *)
Definition or_num (p : Property) (d : Z) : Value :=
  match p with
  | Own v => if Z.eqb v 0 then Num d else Num v
  | Inherited => NotNum
  | Missing => Num d
  end.

(** An [Error] object: its [message] and, for store errors, its [code]. *)
Record Error := mkError { message : string; code : option string }.

Definition new_Error (msg : string) : Error :=
  {| message := msg; code := None |}.

(** A [let] binding of a block: it exists from the start of the block but
    stays uninitialised until its declaration has been executed. *)
Inductive Binding (A : Type) : Type :=
| Uninitialized
| Initialized (v : A).
Arguments Uninitialized {A}.
Arguments Initialized {A} v.

(** The message of the [ReferenceError] raised by an access to a binding
    in its temporal dead zone (wording of V8). *)
Definition tdz_message (x : string) : string :=
  "Cannot access '" ++ x ++ "' before initialization".

(** The message of the [ReferenceError] raised by a name that resolves to
    no binding at all. *)
Definition unresolved_message (x : string) : string :=
  x ++ " is not defined".

End Js.

(** A number is a value. *)
Coercion Js.Num : Z >-> Js.Value.

(* ===================================================================== *)
(** * Data model *)
(* ===================================================================== *)

Inductive Status : Type := open | occupied | closed.

Inductive PrStatus : Type := pending | approved | merged | rejected.

Definition Status_eqb (a b : Status) : bool :=
  match a, b with
  | open, open | occupied, occupied | closed, closed => true
  | _, _ => false
  end.

(** The text a status takes inside a template literal. *)
Definition Status_to_string (s : Status) : string :=
  match s with
  | open => "open"
  | occupied => "occupied"
  | closed => "closed"
  end.

(** Modelled from the spec: the type [Issue] of [@/types], which is not
    among the sources; the fields are those the spec lists (section 3) and
    the code reads or writes.  The same record stands for a document of the
    [issues] collection and for an element of the client's list. *)
Record Issue : Type := mkIssue {
  issue_id : string;
  title : string;
  tags : list string;
  status : Status;
  assignedTo : option string;
  occupiedAt : option Z;
  closedAt : option Z;
  prUrl : option string;
  prStatus : option PrStatus;
  lastUpdated : option Z
}.

(** Modelled from the spec: the type [Team] of [@/types]: name (also the
    document key), points, active flag.  The points are a number by that
    type; a document holds what was last written to it. *)
Record Team : Type := mkTeam {
  name : string;
  points : Js.Value;
  active : bool
}.

(** [Partial<Issue>] as far as the code uses it: an absent field is [None],
    a field set to [null] is [Some None]. *)
Record IssueUpdates : Type := mkIssueUpdates {
  u_status : option Status;
  u_assignedTo : option (option string);
  u_occupiedAt : option (option Z);
  u_closedAt : option (option Z);
  u_prUrl : option string;
  u_prStatus : option PrStatus;
  u_lastUpdated : option Z
}.

(** [Partial<Team>]. *)
Record TeamUpdates : Type := mkTeamUpdates {
  u_points : option Js.Value;
  u_active : option bool
}.

Definition or_else {A} (o : option A) (d : A) : A :=
  match o with Some a => a | None => d end.

(** What [updateDoc] does to the fields of an issue document. *)
Definition apply_updates (u : IssueUpdates) (d : Issue) : Issue :=
  {| issue_id := issue_id d;
     title := title d;
     tags := tags d;
     status := or_else (u_status u) (status d);
     assignedTo := or_else (u_assignedTo u) (assignedTo d);
     occupiedAt := or_else (u_occupiedAt u) (occupiedAt d);
     closedAt := or_else (u_closedAt u) (closedAt d);
     prUrl := match u_prUrl u with Some s => Some s | None => prUrl d end;
     prStatus := match u_prStatus u with Some s => Some s | None => prStatus d end;
     lastUpdated := match u_lastUpdated u with Some t => Some t | None => lastUpdated d end |}.

Definition apply_team_updates (u : TeamUpdates) (t : Team) : Team :=
  {| name := name t;
     points := or_else (u_points u) (points t);
     active := or_else (u_active u) (active t) |}.

(** The result object [{ success, error? }]. *)
Record Result : Type := mkResult { success : bool; error : option string }.

Definition ok : Result := {| success := true; error := None |}.
Definition failure (msg : string) : Result :=
  {| success := false; error := Some msg |}.

(** An entry of [teamIssueCountCache]. *)
Record CacheEntry : Type := mkCacheEntry { count : Z; timestamp : Z }.

(** The query [where('assignedTo','==',t), where('status','==',s), limit(n)]. *)
Record Query : Type := mkQuery {
  q_assignedTo : string;
  q_status : Status;
  q_limit : option nat
}.

Definition matches (q : Query) (d : Issue) : bool :=
  Js.seq_ostr (assignedTo d) (q_assignedTo q) && Status_eqb (status d) (q_status q).

(* ===================================================================== *)
(** * Programs: events, exceptions, completions *)
(* ===================================================================== *)

(** The settlement of an awaited store call: rejected with an error, or
    fulfilled with a value. *)
Definition Reply (X : Type) : Type := (Js.Error + X)%type.

(** The body of a Firestore transaction on one issue document: given the
    clock and the document read by [transaction.get], it throws or queues
    one [transaction.update] and returns a value. *)
Definition TxBody : Type := Z -> option Issue -> Js.Error + (IssueUpdates * Result).

(** Everything an asynchronous function asks of its environment.  The index
    is the type of the answer. *)
Inductive Eff : Type -> Type :=
| DateNow : Eff Z                                      (* Date.now() *)
| MathRandom : Eff Q                                   (* Math.random() *)
| NavigatorOnLine : Eff bool                           (* window.navigator.onLine *)
| SetTimeout (ms : Z) : Eff unit                       (* await new Promise(r => setTimeout(r, ms)) *)
| CacheGet (team : string) : Eff (option CacheEntry)   (* teamIssueCountCache.get *)
| CacheSet (team : string) (e : CacheEntry) : Eff unit (* teamIssueCountCache.set *)
| CacheDelete (team : string) : Eff unit               (* teamIssueCountCache.delete *)
| CacheEntries : Eff (list (string * CacheEntry))      (* teamIssueCountCache.entries() *)
| GetDoc (issueId : string) : Eff (Reply (option Issue))
| GetDocs (q : Query) : Eff (Reply (list Issue))
| UpdateIssueDoc (issueId : string) (u : IssueUpdates) : Eff (Reply unit)
| UpdateTeamDoc (team : string) (u : TeamUpdates) : Eff (Reply unit)
| RunTransaction (issueId : string) (body : TxBody) : Eff (Reply Result)
| SetIssues (f : list Issue -> list Issue) : Eff unit. (* setIssues of useState *)

(** A program: it returns, throws, or raises an event and goes on with the
    answer. *)
Inductive Prog (A : Type) : Type :=
| Ret (a : A)
| Throw (e : Js.Error)
| Vis {X : Type} (e : Eff X) (k : X -> Prog A).
Arguments Ret {A} a.
Arguments Throw {A} e.
Arguments Vis {A X} e k.

Fixpoint bind {A B} (p : Prog A) (f : A -> Prog B) : Prog B :=
  match p with
  | Ret a => f a
  | Throw e => Throw e
  | Vis e k => Vis e (fun x => bind (k x) f)
  end.

(** [try { p } catch (error) { h error }]. *)
Fixpoint try_catch {A} (p : Prog A) (h : Js.Error -> Prog A) : Prog A :=
  match p with
  | Ret a => Ret a
  | Throw e => h e
  | Vis e k => Vis e (fun x => try_catch (k x) h)
  end.

Notation "x <- p ;; q" := (bind p (fun x => q))
  (at level 100, p at next level, right associativity).

(** An event whose answer is used as it comes. *)
Definition perform {X} (e : Eff X) : Prog X := Vis e Ret.

(** [await] of a store call: a rejection is thrown at the await. *)
Definition await {X} (e : Eff (Reply X)) : Prog X :=
  Vis e (fun r => match r with inl err => Throw err | inr x => Ret x end).

(** How a statement completes. *)
Inductive Completion (R : Type) : Type :=
| Normal
| Continue
| Return (r : R).
Arguments Normal {R}.
Arguments Continue {R}.
Arguments Return {R} r.

Definition Stmt (R : Type) : Type := Prog (Completion R).

Definition skip {R} : Stmt R := Ret Normal.
Definition return_ {R} (r : R) : Stmt R := Ret (Return r).
Definition continue_ {R} : Stmt R := Ret Continue.

(** [s1; s2]: the second statement runs only when the first completes
    normally. *)
Definition seq {R} (s1 s2 : Stmt R) : Stmt R :=
  c <- s1 ;;
  match c with
  | Normal => s2
  | Continue => Ret Continue
  | Return r => Ret (Return r)
  end.

Notation "s1 ;;; s2" := (seq s1 s2) (at level 100, right associativity).

(** An expression statement. *)
Definition exec_ {R X} (p : Prog X) : Stmt R := _ <- p ;; Ret Normal.

(** [if (c) s]. *)
Definition when {R} (c : bool) (s : Stmt R) : Stmt R := if c then s else skip.

(** One round of a loop: [Continue] ends the round, not the loop. *)
Definition round {R} (body rest : Stmt R) : Stmt R :=
  c <- body ;;
  match c with
  | Normal | Continue => rest
  | Return r => Ret (Return r)
  end.

(** [for (let i = from; i < to; i++) body i], with one unit of fuel per
    round; [Z.to_nat (to - from)] rounds exhaust the range. *)
Fixpoint for_lt {R} (fuel : nat) (from to : Z) (body : Z -> Stmt R) : Stmt R :=
  match fuel with
  | O => skip
  | S fuel' =>
      if from <? to
      then round (body from) (for_lt fuel' (from + 1) to body)
      else skip
  end.

(** The call of a function whose body is [s]: falling off the end gives
    [undefined] ([None]). *)
Definition call {R} (s : Stmt R) : Prog (option R) :=
  c <- s ;;
  match c with
  | Return r => Ret (Some r)
  | Normal | Continue => Ret None
  end.

(* ===================================================================== *)
(** * The world a program runs in *)
(* ===================================================================== *)

(** What the network does to the next store call: the time it takes,
    whether it fails, and a snapshot the issue subscription may deliver to
    [setIssues] while the call is in flight. *)
Record Net : Type := mkNet {
  delay : N;
  fault : option Js.Error;
  feed : option (list Issue)
}.

Definition quiet : Net := {| delay := 0; fault := None; feed := None |}.

(** The store calls and timer waits a run has performed, oldest first. *)
Inductive Event : Type :=
| EvGetDoc (issueId : string)
| EvGetDocs (q : Query)
| EvUpdateIssue (issueId : string) (written : bool)
| EvUpdateTeam (team : string) (written : bool)
| EvTransaction (issueId : string) (committed : bool)
| EvTimeout (ms : Z).

Record World : Type := mkWorld {
  issuesDb : gmap string Issue;                 (* collection 'issues' *)
  teamsDb : gmap string Team;                   (* collection 'teams' *)
  teamIssueCountCache : gmap string CacheEntry; (* module-level Map *)
  clock : Z;                                    (* milliseconds *)
  random : Q;                                   (* the next Math.random() *)
  onLine : bool;
  net : list Net;                               (* upcoming store calls *)
  issues_state : list Issue;                    (* React state [issues] *)
  log : list Event
}.

Definition with_issuesDb (db : gmap string Issue) (w : World) : World :=
  mkWorld db (teamsDb w) (teamIssueCountCache w) (clock w) (random w)
          (onLine w) (net w) (issues_state w) (log w).

Definition with_teamsDb (db : gmap string Team) (w : World) : World :=
  mkWorld (issuesDb w) db (teamIssueCountCache w) (clock w) (random w)
          (onLine w) (net w) (issues_state w) (log w).

Definition with_cache (c : gmap string CacheEntry) (w : World) : World :=
  mkWorld (issuesDb w) (teamsDb w) c (clock w) (random w)
          (onLine w) (net w) (issues_state w) (log w).

Definition with_clock (t : Z) (w : World) : World :=
  mkWorld (issuesDb w) (teamsDb w) (teamIssueCountCache w) t (random w)
          (onLine w) (net w) (issues_state w) (log w).

Definition with_net (n : list Net) (w : World) : World :=
  mkWorld (issuesDb w) (teamsDb w) (teamIssueCountCache w) (clock w) (random w)
          (onLine w) n (issues_state w) (log w).

Definition with_issues_state (l : list Issue) (w : World) : World :=
  mkWorld (issuesDb w) (teamsDb w) (teamIssueCountCache w) (clock w) (random w)
          (onLine w) (net w) l (log w).

Definition logged (ev : Event) (w : World) : World :=
  mkWorld (issuesDb w) (teamsDb w) (teamIssueCountCache w) (clock w) (random w)
          (onLine w) (net w) (issues_state w) (log w ++ [ev]).

(** A store call goes out: the next entry of [net] is consumed, its delay
    passes and its feed, if any, reaches [setIssues]. *)
Definition arrive (w : World) : Net * World :=
  match net w with
  | [] => (quiet, w)
  | n :: rest =>
      let w1 := with_clock (clock w + Z.of_N (delay n)) (with_net rest w) in
      (n, match feed n with
          | Some l => with_issues_state l w1
          | None => w1
          end)
  end.

(** The documents a query returns. *)
Definition query_docs (q : Query) (db : gmap string Issue) : list Issue :=
  let found := (map_to_list (filter (fun kv => matches q kv.2 = true) db)).*2 in
  match q_limit q with
  | Some n => take n found
  | None => found
  end.

(** The error of [updateDoc] on a document that does not exist. *)
Definition not_found : Js.Error :=
  {| Js.message := "No document to update"; Js.code := Some "not-found" |}.

Definition handle {X} (e : Eff X) (w : World) : X * World :=
  match e in Eff X return X * World with
  | DateNow => (clock w, w)
  | MathRandom => (random w, w)
  | NavigatorOnLine => (onLine w, w)
  | SetTimeout ms =>
      (tt, logged (EvTimeout ms) (with_clock (clock w + Z.max 0 ms) w))
  | CacheGet team => (teamIssueCountCache w !! team, w)
  | CacheSet team e => (tt, with_cache (<[team := e]> (teamIssueCountCache w)) w)
  | CacheDelete team => (tt, with_cache (delete team (teamIssueCountCache w)) w)
  | CacheEntries => (map_to_list (teamIssueCountCache w), w)
  | GetDoc issueId =>
      let '(n, w1) := arrive w in
      let w2 := logged (EvGetDoc issueId) w1 in
      match fault n with
      | Some err => (inl err, w2)
      | None => (inr (issuesDb w2 !! issueId), w2)
      end
  | GetDocs q =>
      let '(n, w1) := arrive w in
      let w2 := logged (EvGetDocs q) w1 in
      match fault n with
      | Some err => (inl err, w2)
      | None => (inr (query_docs q (issuesDb w2)), w2)
      end
  | UpdateIssueDoc issueId u =>
      let '(n, w1) := arrive w in
      match fault n, issuesDb w1 !! issueId with
      | Some err, _ => (inl err, logged (EvUpdateIssue issueId false) w1)
      | None, None => (inl not_found, logged (EvUpdateIssue issueId false) w1)
      | None, Some d =>
          (inr tt, logged (EvUpdateIssue issueId true)
                     (with_issuesDb (<[issueId := apply_updates u d]> (issuesDb w1)) w1))
      end
  | UpdateTeamDoc team u =>
      let '(n, w1) := arrive w in
      match fault n, teamsDb w1 !! team with
      | Some err, _ => (inl err, logged (EvUpdateTeam team false) w1)
      | None, None => (inl not_found, logged (EvUpdateTeam team false) w1)
      | None, Some t =>
          (inr tt, logged (EvUpdateTeam team true)
                     (with_teamsDb (<[team := apply_team_updates u t]> (teamsDb w1)) w1))
      end
  | RunTransaction issueId body =>
      let '(n, w1) := arrive w in
      match fault n with
      | Some err => (inl err, logged (EvTransaction issueId false) w1)
      | None =>
          match body (clock w1) (issuesDb w1 !! issueId), issuesDb w1 !! issueId with
          | inl err, _ => (inl err, logged (EvTransaction issueId false) w1)
          | inr _, None => (inl not_found, logged (EvTransaction issueId false) w1)
          | inr (u, r), Some d =>
              (inr r, logged (EvTransaction issueId true)
                        (with_issuesDb (<[issueId := apply_updates u d]> (issuesDb w1)) w1))
          end
      end
  | SetIssues f => (tt, with_issues_state (f (issues_state w)) w)
  end.

(** How a run ends. *)
Inductive Outcome (A : Type) : Type :=
| Done (a : A)
| Raised (e : Js.Error).
Arguments Done {A} a.
Arguments Raised {A} e.

(** The sequential interpreter: one program, alone with its world. *)
Fixpoint run {A} (p : Prog A) (w : World) : Outcome A * World :=
  match p with
  | Ret a => (Done a, w)
  | Throw e => (Raised e, w)
  | Vis e k => let '(x, w') := handle e w in run (k x) w'
  end.

(* ===================================================================== *)
(** * The data-access layer ([firebaseService.ts]) *)
(* ===================================================================== *)

(** A [ReferenceError]. *)
Definition reference_error (msg : string) : Js.Error := Js.new_Error msg.

(** [x = v] for a [let] binding [x] of an enclosing block. *)
Definition assign {A} (x : string) (b : Js.Binding A) (v : A) : Prog (Js.Binding A) :=
  match b with
  | Js.Uninitialized => Throw (reference_error (Js.tdz_message x))
  | Js.Initialized _ => Ret (Js.Initialized v)
  end.

(** The value of a [let] binding [x] of an enclosing block. *)
Definition read {A} (x : string) (b : Js.Binding A) : Prog A :=
  match b with
  | Js.Uninitialized => Throw (reference_error (Js.tdz_message x))
  | Js.Initialized v => Ret v
  end.

(** The value of a name that no scope declares. *)
Definition unresolved {A} (x : string) : Prog A :=
  Throw (reference_error (Js.unresolved_message x)).

(** [for (const x of l) body x]. *)
Fixpoint for_of {R X} (l : list X) (body : X -> Stmt R) : Stmt R :=
  match l with
  | [] => skip
  | x :: rest => round (body x) (for_of rest body)
  end.

Definition msg_quota : string :=
  "Your team has already occupied 3 issues. Please close an issue before occupying a new one.".

Definition msg_already (s : Status) : string :=
  ("This issue is already " ++ Status_to_string s ++ ". Please choose another issue.")%string.

Definition msg_self : string := "Your team is already assigned to this issue.".

(** [value ? Timestamp.fromMillis(value) : null]; the store keeps the
    milliseconds, which [subscribeToIssues] hands back through [toMillis]. *)
Definition to_timestamp (v : option Z) : option Z :=
  if Js.truthy_onum v then v else None.

(** [updateTeam] (part_000, lines 53-56 and 328-331). *)
Definition updateTeam (teamName : string) (updates : TeamUpdates) : Prog unit :=
  await (UpdateTeamDoc teamName updates).

(** [updateIssue] (part_000, lines 161-174 and 457-470). *)
Definition updateIssue (issueId : string) (updates : IssueUpdates) : Prog unit :=
  let updateData :=
    {| u_status := u_status updates;
       u_assignedTo := u_assignedTo updates;
       u_occupiedAt := to_timestamp <$> u_occupiedAt updates;
       u_closedAt := to_timestamp <$> u_closedAt updates;
       u_prUrl := u_prUrl updates;
       u_prStatus := u_prStatus updates;
       u_lastUpdated := u_lastUpdated updates |} in
  await (UpdateIssueDoc issueId updateData).

(** The first snapshot of the service (part_000, lines 1-274): no cache,
    no retry. *)
Module PlainService.

(** The function passed to [runTransaction] (lines 235-263). *)
Definition transaction_body (teamName : string) : TxBody :=
  fun now issueDoc =>
    match issueDoc with
    | None => inl (Js.new_Error "Issue not found")
    | Some issueData =>
        if negb (Status_eqb (status issueData) open)
        then inl (Js.new_Error (msg_already (status issueData)))
        else inr ({| u_status := Some occupied;
                     u_assignedTo := Some (Some teamName);
                     u_occupiedAt := Some (Some now);
                     u_closedAt := None; u_prUrl := None; u_prStatus := None;
                     u_lastUpdated := None |}, ok)
    end.

(** [occupyIssueTransaction] (lines 207-274); the [console] calls and the
    clock reads that only feed them are left out. *)
Definition occupyIssueTransaction (issueId teamName : string) : Prog (option Result) :=
  call (
    try_catch (
      teamIssuesSnapshot <- await (GetDocs {| q_assignedTo := teamName;
                                              q_status := occupied;
                                              q_limit := None |}) ;;
      when (3 <=? Z.of_nat (length teamIssuesSnapshot))
        (return_ (failure msg_quota)) ;;;
      result <- await (RunTransaction issueId (transaction_body teamName)) ;;
      return_ result)
    (fun error =>
       return_ (failure (Js.or_str (Js.message error)
                           "Failed to occupy issue. Please try again.")))).

End PlainService.

(** The second snapshot of the service (part_000, lines 275-745): quota
    cache and retry loop. *)
Module CachedService.

Definition CACHE_TTL : Z := 5000.

(** The function passed to [runTransaction] (lines 583-607). *)
Definition transaction_body (teamName : string) : TxBody :=
  fun now latestDoc =>
    match latestDoc with
    | None => inl (Js.new_Error "Issue no longer exists")
    | Some currentData =>
        if negb (Status_eqb (status currentData) open)
        then inl (Js.new_Error (msg_already (status currentData)))
        else if Js.seq_ostr (assignedTo currentData) teamName
        then inl (Js.new_Error msg_self)
        else inr ({| u_status := Some occupied;
                     u_assignedTo := Some (Some teamName);
                     u_occupiedAt := Some (Some now);
                     u_closedAt := None; u_prUrl := None; u_prStatus := None;
                     u_lastUpdated := Some now |}, ok)
    end.

Definition team_query (teamName : string) : Query :=
  {| q_assignedTo := teamName; q_status := occupied; q_limit := Some 3%nat |}.

(** [cachedCount && (currentTime - cachedCount.timestamp) < CACHE_TTL]. *)
Definition fresh (cachedCount : option CacheEntry) (currentTime : Z) : bool :=
  match cachedCount with
  | Some c => currentTime - timestamp c <? CACHE_TTL
  | None => false
  end.

(** [!cachedCount || (currentTime - cachedCount.timestamp) >= CACHE_TTL]. *)
Definition stale (cachedCount : option CacheEntry) (currentTime : Z) : bool :=
  match cachedCount with
  | Some c => CACHE_TTL <=? currentTime - timestamp c
  | None => true
  end.

(** [lastError?.message || fallback]. *)
Definition message_or (lastError : option Js.Error) (fallback : string) : string :=
  match lastError with
  | Some err => Js.or_str (Js.message err) fallback
  | None => fallback
  end.

(** The [try] block of one round of the retry loop (lines 556-618). *)
Definition attempt_try (issueId teamName : string) (cachedCount : option CacheEntry)
    (currentTime : Z) : Stmt Result :=
  when (stale cachedCount currentTime) (
    snapshot <- await (GetDocs (team_query teamName)) ;;
    when (3 <=? Z.of_nat (length snapshot)) (return_ (failure msg_quota)) ;;;
    exec_ (perform (CacheSet teamName {| count := Z.of_nat (length snapshot);
                                         timestamp := currentTime |}))) ;;;
  result <- await (RunTransaction issueId (transaction_body teamName)) ;;
  updatedCache <- perform (CacheGet teamName) ;;
  match updatedCache with
  | Some c => exec_ (perform (CacheSet teamName {| count := count c + 1;
                                                   timestamp := currentTime |}))
  | None => skip
  end ;;;
  return_ result.

(** The [catch] block of one round (lines 620-635).  [lastError] is the
    [let] of line 650: it belongs to the enclosing [try] block, and its
    declaration comes after the loop.  [i] is declared nowhere. *)
Definition attempt_catch (maxRetries : Z) (lastError : Js.Binding (option Js.Error))
    (error : Js.Error) : Stmt Result :=
  _ <- assign "lastError" lastError (Some error) ;;
  when (Js.includes (Js.message error) "already")
    (return_ (failure (Js.message error))) ;;;
  i <- unresolved "i" ;;
  when (i <? maxRetries - 1) (
    exec_ (perform (SetTimeout (Z.min (1000 * (i + 1)) 3000))) ;;;
    continue_).

(** The outer [catch] block (lines 705-734). *)
Definition outer_catch (error : Js.Error) : Stmt Result :=
  if Js.seq_ostr (Js.code error) "permission-denied"
  then return_ (failure "You do not have permission to occupy this issue.")
  else if Js.seq_ostr (Js.code error) "failed-precondition"
  then return_ (failure "The issue status has changed. Please refresh and try again.")
  else if Js.seq_ostr (Js.code error) "unavailable"
          || Js.seq_ostr (Js.code error) "deadline-exceeded"
  then return_ (failure "The service is temporarily unavailable. Please try again in a moment.")
  else return_ (failure (Js.or_str (Js.message error)
                           "Failed to occupy issue. Please try again.")).

(** The statements after the [try]/[catch] (lines 736-744). *)
Definition evict_expired : Stmt Result :=
  draw <- perform MathRandom ;;
  when (negb (Qle_bool (1 # 10) draw)) (
    now <- perform DateNow ;;
    entries <- perform CacheEntries ;;
    for_of entries (fun '(team, data) =>
      when (CACHE_TTL <? now - timestamp data)
        (exec_ (perform (CacheDelete team))))).

(** The second retry loop (lines 653-698), which follows the [return] of
    line 639 in the same block and is never reached; [attempt] counts
    from 1 and [lastError] is initialised here. *)
Fixpoint sibling_loop (fuel : nat) (issueId teamName : string) (maxRetries : Z)
    (attempt : Z) (lastError : option Js.Error) : Stmt Result :=
  match fuel with
  | O => return_ (failure (message_or lastError
                   "Failed to occupy issue after multiple attempts. Please try again."))
  | S fuel' =>
      if attempt <? maxRetries then
        let attempt := attempt + 1 in
        r <- try_catch
               (result <- await (RunTransaction issueId (transaction_body teamName)) ;;
                Ret (inr result))
               (fun error => Ret (inl error)) ;;
        match r with
        | inr result => return_ result
        | inl error =>
            when (Js.includes (Js.message error) "already")
              (return_ (failure (Js.message error))) ;;;
            when (attempt <? maxRetries)
              (exec_ (perform (SetTimeout (Z.min (1000 * attempt) 3000)))) ;;;
            sibling_loop fuel' issueId teamName maxRetries attempt (Some error)
        end
      else return_ (failure (message_or lastError
                     "Failed to occupy issue after multiple attempts. Please try again."))
  end.

(** The body of the outer [try] (lines 524-704). *)
Definition try_block (issueId teamName : string) (maxRetries : Z) : Stmt Result :=
  let lastError : Js.Binding (option Js.Error) := Js.Uninitialized in
  when (negb (Js.truthy_str issueId) || negb (Js.truthy_str teamName))
    (return_ (failure "Issue ID and team name are required")) ;;;
  issueDoc <- await (GetDoc issueId) ;;
  match issueDoc with
  | None => return_ (failure "Issue not found")
  | Some issueData =>
      when (negb (Status_eqb (status issueData) open))
        (return_ (failure (msg_already (status issueData)))) ;;;
      currentTime <- perform DateNow ;;
      cachedCount <- perform (CacheGet teamName) ;;
      when (fresh cachedCount currentTime &&
            match cachedCount with Some c => 3 <=? count c | None => false end)
        (return_ (failure msg_quota)) ;;;
      for_lt (Z.to_nat maxRetries) 0 maxRetries (fun attempt =>
        try_catch (attempt_try issueId teamName cachedCount currentTime)
                  (attempt_catch maxRetries lastError)) ;;;
      e <- read "lastError" lastError ;;
      return_ (failure (message_or e
                 "Failed to occupy issue after multiple attempts. Please try again.")) ;;;
      (* lines 644-704, after the return *)
      teamIssuesQuery <- unresolved (A := Query) "teamIssuesQuery" ;;
      teamIssuesSnapshot <- await (GetDocs teamIssuesQuery) ;;
      when (3 <=? Z.of_nat (length teamIssuesSnapshot)) (return_ (failure msg_quota)) ;;;
      sibling_loop (Z.to_nat maxRetries + 1) issueId teamName maxRetries 0 None
  end.

(** [occupyIssueTransaction] (lines 515-745). *)
Definition occupyIssueTransaction (issueId teamName : string) (maxRetries : Z)
    : Prog (option Result) :=
  call (try_catch (try_block issueId teamName maxRetries) outer_catch ;;;
        evict_expired).

(** The default of the third parameter. *)
Definition default_maxRetries : Z := 3.

End CachedService.

(* ===================================================================== *)
(** * The React context ([AppContext.tsx]) *)
(* ===================================================================== *)

(** A promise that is started and not awaited: its effects happen, its
    rejection reaches nobody. *)
Definition fire_and_forget {X} (p : Prog X) : Prog unit :=
  try_catch (_ <- p ;; Ret tt) (fun _ => Ret tt).

(** [l.find(pred)]. *)
Definition find_issue (issueId : string) (issues : list Issue) : option Issue :=
  List.find (fun i => String.eqb (issue_id i) issueId) issues.

Definition find_team (teamName : option string) (teams : list Team) : option Team :=
  List.find (fun t => Js.seq_ostr teamName (name t)) teams.

Module AppContext.

(** [timeouts[tag]] (lines 188-192, 197): the tag is whatever text the
    issue holds first, the cast of line 196 checks nothing. *)
Definition timeouts (tag : option string) : Js.Property :=
  Js.get [("easy", 20 * 60 * 1000); ("medium", 40 * 60 * 1000);
          ("hard", 60 * 60 * 1000)] tag.

(** [timeouts.medium] (line 197). *)
Definition timeouts_medium : Z := 40 * 60 * 1000.

(** [penalties[tag]] (lines 202-203). *)
Definition penalties (tag : option string) : Js.Property :=
  Js.get [("easy", 5); ("medium", 10); ("hard", 15)] tag.

(** [pointsMap[tag]] (lines 431-433). *)
Definition pointsMap (tag : option string) : Js.Property :=
  Js.get [("easy", 10); ("medium", 20); ("hard", 30)] tag.

(** The fields written when an overdue issue is released (lines 214-219). *)
Definition reset_updates : IssueUpdates :=
  {| u_status := Some open; u_assignedTo := Some None;
     u_occupiedAt := Some None; u_closedAt := Some None;
     u_prUrl := None; u_prStatus := None; u_lastUpdated := None |}.

(** The body of the loop of [checkExpiredIssues] (lines 195-221); the
    toast is left out. *)
Definition check_issue (now : Z) (teams : list Team) (issue : Issue) : Stmt unit :=
  when (Status_eqb (status issue) occupied
        && Js.truthy_onum (occupiedAt issue)
        && Js.truthy_ostr (assignedTo issue)) (
    let tag := head (tags issue) in
    let timeLimit := Js.or_num (timeouts tag) timeouts_medium in
    let elapsed := now - or_else (occupiedAt issue) 0 in
    when (Js.ge elapsed timeLimit) (
      let penalty := Js.or_num (penalties tag) 0 in
      let team := find_team (assignedTo issue) teams in
      match team with
      | Some team =>
          let newPoints := Js.max 0 (Js.sub (points team) penalty) in
          exec_ (updateTeam (name team) {| u_points := Some newPoints; u_active := None |})
      | None => skip
      end ;;;
      exec_ (updateIssue (issue_id issue) reset_updates))).

(** [checkExpiredIssues] (lines 186-223), over the [issues] and [teams]
    the effect closed over. *)
Definition checkExpiredIssues (issues : list Issue) (teams : list Team) : Prog (option unit) :=
  call (
    now <- perform DateNow ;;
    for_of issues (check_issue now teams)).

(** [closeIssue] (lines 404-417); the update is started, not awaited. *)
Definition closeIssue (issueId prUrl : string) : Prog (option Result) :=
  call (
    when (negb (Js.truthy_str prUrl) || negb (Js.truthy_str (Js.trim prUrl)))
      (return_ (failure "PR URL is required")) ;;;
    now <- perform DateNow ;;
    exec_ (fire_and_forget (updateIssue issueId
      {| u_status := Some closed; u_assignedTo := None; u_occupiedAt := None;
         u_closedAt := Some (Some now); u_prUrl := Some (Js.trim prUrl);
         u_prStatus := Some pending; u_lastUpdated := None |})) ;;;
    return_ ok).

(** [moveIssue] (lines 419-422). *)
Definition moveIssue (issueId : string) (st : Status) : Prog (option unit) :=
  call (exec_ (updateIssue issueId
    {| u_status := Some st; u_assignedTo := None; u_occupiedAt := None;
       u_closedAt := None; u_prUrl := None; u_prStatus := None;
       u_lastUpdated := None |})).

(** [assignIssue] (lines 456-459). *)
Definition assignIssue (issueId : string) (teamName : option string) : Prog (option unit) :=
  call (exec_ (updateIssue issueId
    {| u_status := None; u_assignedTo := Some teamName; u_occupiedAt := None;
       u_closedAt := None; u_prUrl := None; u_prStatus := None;
       u_lastUpdated := None |})).

(** The award of lines 429-440: the points of the first tag go to the team
    the issue is assigned to. *)
Definition award_merged (issues : list Issue) (teams : list Team) (issueId : string)
    : Stmt unit :=
  match find_issue issueId issues with
  | Some issue =>
      when (Js.truthy_ostr (assignedTo issue)) (
        let tag := head (tags issue) in
        let pts := Js.or_num (pointsMap tag) 0 in
        match find_team (assignedTo issue) teams with
        | Some team =>
            exec_ (updateTeam (name team)
                     {| u_points := Some (Js.add (points team) pts); u_active := None |})
        | None => skip
        end)
  | None => skip
  end.

(** [updatePrStatus] (lines 424-446), over the [issues] and [teams] of
    the render that created it; the toasts are left out. *)
Definition updatePrStatus (issues : list Issue) (teams : list Team)
    (issueId : string) (st : PrStatus) : Prog (option unit) :=
  call (
    exec_ (updateIssue issueId
      {| u_status := None; u_assignedTo := None; u_occupiedAt := None;
         u_closedAt := None; u_prUrl := None; u_prStatus := Some st;
         u_lastUpdated := None |}) ;;;
    match st with
    | merged => award_merged issues teams issueId
    | _ => skip
    end).

Section OccupyIssue.

(** The [occupyIssueTransaction] the context imports, with its default
    arguments filled in. *)
Variable occupyIssueTransaction : string -> string -> Prog (option Result).

Definition TIMEOUT_MS : Z := 10000.
Definition MAX_RETRIES : Z := 1.

Definition transientIndicators : list string :=
  ["timed out"; "network"; "transport errored"; "could not reach";
   "err_internet_disconnected"; "err_network_changed"; "quic"].

Definition type_error (msg : string) : Js.Error := Js.new_Error msg.

(** The promise [wrapped] (lines 349-367): the transaction against a
    timer of [TIMEOUT_MS].  The timer wins when the transaction has not
    settled within that time on the world's clock; the transaction is
    not cancelled, so here it has run to its end by the time the client
    goes on. *)
Definition wrapped (issueId teamName : string) : Prog (option Result) :=
  t0 <- perform DateNow ;;
  settled <- try_catch (occupyIssueTransaction issueId teamName)
               (fun err => Ret (Some (failure (Js.or_str (Js.message err)
                                                "Transaction failed")))) ;;
  t1 <- perform DateNow ;;
  if TIMEOUT_MS <=? t1 - t0
  then Ret (Some (failure "Transaction timed out. Please try again."))
  else Ret settled.

(** [attemptTransaction] (lines 344-389); [attempt] is the counter the
    closure shares with its caller. *)
Fixpoint attemptTransaction (fuel : nat) (issueId teamName : string) (attempt : Z)
    : Prog Result :=
  match fuel with
  | O => Ret (failure "Transaction failed after retries. Please check your connection and try again.")
  | S fuel' =>
      if attempt <=? MAX_RETRIES then
        let attempt := attempt + 1 in
        res <- wrapped issueId teamName ;;
        match res with
        | None => Throw (type_error "Cannot read properties of undefined (reading 'success')")
        | Some res =>
            if success res then Ret res else
            let errMsg := Js.toLowerCase (or_else (error res) "") in
            let isTransient := existsb (fun ind => Js.includes errMsg ind) transientIndicators in
            if negb isTransient then Ret res else
            _ <- (if attempt <=? MAX_RETRIES
                  then perform (SetTimeout (500 * attempt))
                  else Ret tt) ;;
            attemptTransaction fuel' issueId teamName attempt
        end
      else Ret (failure "Transaction failed after retries. Please check your connection and try again.")
  end.

(** The optimistic mutation of line 328. *)
Definition speculate (issueId teamName : string) (now : Z) (prev : list Issue) : list Issue :=
  List.map (fun i =>
    if String.eqb (issue_id i) issueId
    then {| issue_id := issue_id i; title := title i; tags := tags i;
            status := occupied; assignedTo := Some teamName;
            occupiedAt := Some now; closedAt := closedAt i;
            prUrl := prUrl i; prStatus := prStatus i;
            lastUpdated := lastUpdated i |}
    else i) prev.

(** The number of local issues the team holds (line 318). *)
Definition teamOccupiedCount (teamName : string) (issues : list Issue) : nat :=
  length (List.filter (fun i => Js.seq_ostr (assignedTo i) teamName
                                && Status_eqb (status i) occupied) issues).

(** [occupyIssue] (lines 290-402), over the [currentTeam] and [issues]
    of the render that created it. *)
Definition occupyIssue (currentTeam : option Team) (issues : list Issue)
    (issueId : string) : Prog (option Result) :=
  call (
    match currentTeam with
    | None => return_ (failure "You must be logged in to occupy an issue.")
    | Some currentTeam =>
        online <- perform NavigatorOnLine ;;
        when (negb online) (return_ (failure "No internet connection")) ;;;
        match find_issue issueId issues with
        | None => return_ (failure "Issue not found.")
        | Some issue =>
            when (negb (Status_eqb (status issue) open))
              (return_ (failure (msg_already (status issue)))) ;;;
            when (3 <=? teamOccupiedCount (name currentTeam) issues)%nat
              (return_ (failure msg_quota)) ;;;
            let previousIssues := issues in
            now <- perform DateNow ;;
            exec_ (perform (SetIssues (speculate issueId (name currentTeam) now))) ;;;
            result <- attemptTransaction 3 issueId (name currentTeam) 0 ;;
            when (negb (success result))
              (exec_ (perform (SetIssues (fun _ => previousIssues)))) ;;;
            return_ result
        end
    end).

End OccupyIssue.

End AppContext.

(* ===================================================================== *)
(** * Definitions used by the statements *)
(* ===================================================================== *)

(** Empty, or white space only. *)
Definition only_whitespace (s : string) : bool := forallb Js.is_ws (Js.chars s).

(** The tag is the name of a member of [Object.prototype]. *)
Definition names_inherited (tag : option string) : bool :=
  match tag with
  | Some t => existsb (String.eqb t) Js.prototype_keys
  | None => false
  end.

(** The document [closeIssue] leaves behind. *)
Definition closed_with (now : Z) (url : string) (d : Issue) : Issue :=
  {| issue_id := issue_id d; title := title d; tags := tags d;
     status := closed; assignedTo := assignedTo d; occupiedAt := occupiedAt d;
     closedAt := Some now; prUrl := Some url; prStatus := Some pending;
     lastUpdated := lastUpdated d |}.

(** Sample data for the examples. *)
Definition sample_issue (i tag : string) (st : Status) (holder : option string)
    (since : option Z) : Issue :=
  {| issue_id := i; title := i; tags := [tag]; status := st; assignedTo := holder;
     occupiedAt := since; closedAt := None; prUrl := None; prStatus := None;
     lastUpdated := None |}.

Definition sample_world (issues : list Issue) (teams : list Team) (now : Z) : World :=
  {| issuesDb := list_to_map (List.map (fun i => (issue_id i, i)) issues);
     teamsDb := list_to_map (List.map (fun t => (name t, t)) teams);
     teamIssueCountCache := ∅;
     clock := now; random := (1 # 20)%Q; onLine := true; net := [];
     issues_state := issues; log := [] |}.

(** An issue document with its [prStatus] replaced and nothing else. *)
Definition with_prStatus (st : PrStatus) (d : Issue) : Issue :=
  {| issue_id := issue_id d; title := title d; tags := tags d;
     status := status d; assignedTo := assignedTo d; occupiedAt := occupiedAt d;
     closedAt := closedAt d; prUrl := prUrl d; prStatus := Some st;
     lastUpdated := lastUpdated d |}.

(** The policy table (spec, section 4.3) as far as the sweep follows it:
    first tag, time limit in milliseconds, penalty in points.  A missing
    tag and a tag that names nothing, neither a row of the table nor a
    member of [Object.prototype], get the limit of [medium] and no
    penalty. *)
Inductive policy : option string -> Z -> Z -> Prop :=
| policy_easy : policy (Some "easy") (20 * 60 * 1000) 5
| policy_medium : policy (Some "medium") (40 * 60 * 1000) 10
| policy_hard : policy (Some "hard") (60 * 60 * 1000) 15
| policy_other tag :
    tag <> Some "easy" -> tag <> Some "medium" -> tag <> Some "hard" ->
    names_inherited tag = false ->
    policy tag (40 * 60 * 1000) 0.

(** An issue document released by the sweep. *)
Definition released (d : Issue) : Issue :=
  {| issue_id := issue_id d; title := title d; tags := tags d;
     status := open; assignedTo := None; occupiedAt := None; closedAt := None;
     prUrl := prUrl d; prStatus := prStatus d; lastUpdated := lastUpdated d |}.

(** A team document with its points replaced. *)
Definition with_points (p : Js.Value) (t : Team) : Team :=
  {| name := name t; points := p; active := active t |}.

(** The two guards of the sweep (lines 195 and 200) taken together.  An
    issue whose first tag names a member of [Object.prototype] passes the
    second at no time: its limit is no number. *)
Definition overdue (now : Z) (issue : Issue) : bool :=
  Status_eqb (status issue) occupied
  && Js.truthy_onum (occupiedAt issue)
  && Js.truthy_ostr (assignedTo issue)
  && Js.ge (now - or_else (occupiedAt issue) 0)
           (Js.or_num (AppContext.timeouts (head (tags issue)))
                      AppContext.timeouts_medium).

(** What one round of the sweep does to the two collections when every
    write succeeds. *)
Definition sweep_step (now : Z) (teams : list Team)
    (dbs : gmap string Issue * gmap string Team) (issue : Issue)
    : gmap string Issue * gmap string Team :=
  if overdue now issue then
    (alter released (issue_id issue) dbs.1,
     match find_team (assignedTo issue) teams with
     | Some team =>
         alter (with_points
                  (Js.max 0 (Js.sub (points team)
                     (Js.or_num (AppContext.penalties (head (tags issue))) 0))))
               (name team) dbs.2
     | None => dbs.2
     end)
  else dbs.

(** The team document a round of the sweep writes, if any. *)
Definition penalised (now : Z) (teams : list Team) (issue : Issue) : option string :=
  if overdue now issue
  then name <$> find_team (assignedTo issue) teams
  else None.

(** The award table (spec, section 8) as far as the merge follows it:
    first tag and the points a merge is worth; a missing tag and a tag
    that names nothing, neither a row of the table nor a member of
    [Object.prototype], are worth nothing. *)
Inductive award : option string -> Z -> Prop :=
| award_easy : award (Some "easy") 10
| award_medium : award (Some "medium") 20
| award_hard : award (Some "hard") 30
| award_other tag :
    tag <> Some "easy" -> tag <> Some "medium" -> tag <> Some "hard" ->
    names_inherited tag = false ->
    award tag 0.

(** What the subscriptions hand to [setTeams] and [setIssues]: the
    documents of the collection ([subscribeToTeams], [subscribeToIssues]). *)
Definition teams_snapshot (w : World) : list Team := (map_to_list (teamsDb w)).*2.
Definition issues_snapshot (w : World) : list Issue := (map_to_list (issuesDb w)).*2.

(** A closed easy issue of TeamBravo awaiting review, and its world. *)
Definition review_world : World :=
  sample_world
    [{| issue_id := "I1"; title := "I1"; tags := ["easy"]; status := closed;
        assignedTo := Some "TeamBravo"; occupiedAt := Some 1000;
        closedAt := Some 2000; prUrl := Some "https://x/pull/7";
        prStatus := Some pending; lastUpdated := None |}]
    [mkTeam "TeamBravo" 0 true] 5000.

(** [updatePrStatus] called from a render that has seen the store. *)
Definition review_merged (w : World) : World :=
  (run (AppContext.updatePrStatus (issues_snapshot w) (teams_snapshot w) "I1" merged) w).2.

(** A client whose list still shows I1 open while the store has it
    occupied by TeamDelta. *)
Definition stale_list : list Issue := [sample_issue "I1" "easy" open None None].

Definition stale_client_world : World :=
  with_issues_state stale_list
    (sample_world [sample_issue "I1" "easy" occupied (Some "TeamDelta") (Some 1000)]
                  [mkTeam "TeamBravo" 0 true; mkTeam "TeamDelta" 0 true] 5000).

(* ===================================================================== *)
(** * Properties of program trees *)
(* ===================================================================== *)

(** Every event the program can raise, whatever the answers, satisfies [P]. *)
Fixpoint all_events {A} (P : forall X, Eff X -> Prop) (p : Prog A) : Prop :=
  match p with
  | Ret _ | Throw _ => True
  | Vis e k => P _ e /\ forall x, all_events P (k x)
  end.

(** Whatever the answers, the program ends by returning a value that
    satisfies [Q]; it never ends by throwing. *)
Fixpoint always_returns {A} (Q : A -> Prop) (p : Prog A) : Prop :=
  match p with
  | Ret a => Q a
  | Throw _ => False
  | Vis e k => forall x, always_returns Q (k x)
  end.

(** Whatever the answers, the program raises at most [n] events selected
    by [sel]. *)
Fixpoint at_most {A} (sel : forall X, Eff X -> bool) (n : nat) (p : Prog A) : Prop :=
  match p with
  | Ret _ | Throw _ => True
  | Vis e k =>
      if sel _ e
      then match n with
           | O => False
           | S n' => forall x, at_most sel n' (k x)
           end
      else forall x, at_most sel n (k x)
  end.

Definition is_transaction {X} (e : Eff X) : bool :=
  match e with RunTransaction _ _ => true | _ => false end.

Definition is_timer {X} (e : Eff X) : bool :=
  match e with SetTimeout _ => true | _ => false end.

(** The events of the eviction block: the random draw, the enumeration of
    the cache and the deletion of an entry. *)
Definition is_eviction {X} (e : Eff X) : bool :=
  match e with
  | MathRandom | CacheEntries | CacheDelete _ => true
  | _ => false
  end.

(** The event writes the cache entry of a team other than [team]. *)
Definition touches_other_entry (team : string) {X} (e : Eff X) : bool :=
  match e with
  | CacheSet t _ | CacheDelete t => negb (String.eqb t team)
  | _ => false
  end.

(** The transactions and the timer waits a log records. *)
Definition transactions_in (l : list Event) : nat :=
  length (List.filter (fun ev => match ev with EvTransaction _ _ => true | _ => false end) l).

Definition timeouts_in (l : list Event) : list Z :=
  omap (fun ev => match ev with EvTimeout ms => Some ms | _ => None end) l.

(** A transport failure of the store. *)
Definition network_error : Js.Error :=
  {| Js.message := "Failed to get document because the client is offline.";
     Js.code := Some "unavailable" |}.

Definition failing : Net := {| delay := 0; fault := Some network_error; feed := None |}.

(** I1 is open, TeamBravo holds nothing, the cache is empty; the two reads
    of the claim get through and the transaction meets a transport
    failure. *)
Definition transient_world : World :=
  with_net [quiet; quiet; failing; failing; failing]
    (sample_world [sample_issue "I1" "easy" open None None]
                  [mkTeam "TeamBravo" 0 true] 100000).

(** The same world with an entry of TeamDelta in the quota cache that is
    100 seconds old; the next random draw is 0.05. *)
Definition expired_cache_world : World :=
  with_cache {[ "TeamDelta" := {| count := 1; timestamp := 0 |} ]}
    (sample_world [sample_issue "I1" "easy" open None None]
                  [mkTeam "TeamBravo" 0 true] 100000).

(** I1 is occupied by TeamBravo. *)
Definition held_world : World :=
  sample_world [sample_issue "I1" "easy" occupied (Some "TeamBravo") (Some 1000)]
               [mkTeam "TeamBravo" 0 true] 5000.

(** The number of issues the store holds as occupied by a team. *)
Definition occupied_count (teamName : string) (db : gmap string Issue) : nat :=
  size (filter (fun kv => matches (CachedService.team_query teamName) kv.2 = true) db).

(** An issue document claimed at [now] ([lastUpdated] is written by the
    second snapshot only). *)
Definition claimed (teamName : string) (now : Z) (d : Issue) : Issue :=
  {| issue_id := issue_id d; title := title d; tags := tags d;
     status := occupied; assignedTo := Some teamName; occupiedAt := Some now;
     closedAt := closedAt d; prUrl := prUrl d; prStatus := prStatus d;
     lastUpdated := Some now |}.

(** Four open issues.  TeamBravo claims I0; within the next second an
    administrator, from another browser, assigns I1 and I2 to TeamBravo and
    moves them to [occupied].  TeamBravo's browser still has its cache
    entry of one second ago. *)
Definition quota_gap_start : World :=
  sample_world [sample_issue "I0" "easy" open None None;
                sample_issue "I1" "easy" open None None;
                sample_issue "I2" "easy" open None None;
                sample_issue "I3" "easy" open None None]
               [mkTeam "TeamBravo" 0 true] 100000.

Definition quota_gap_world : World :=
  let w1 := (run (CachedService.occupyIssueTransaction "I0" "TeamBravo"
                    CachedService.default_maxRetries) quota_gap_start).2 in
  let w2 := (run (_ <- AppContext.assignIssue "I1" (Some "TeamBravo") ;;
                  _ <- AppContext.moveIssue "I1" occupied ;;
                  _ <- AppContext.assignIssue "I2" (Some "TeamBravo") ;;
                  AppContext.moveIssue "I2" occupied) w1).2 in
  with_clock (clock w2 + 1000) w2.

(** TeamBravo holds I1, I2 and I3; I4 is open; the cache is empty. *)
Definition full_quota_issues : list Issue :=
  [sample_issue "I1" "easy" occupied (Some "TeamBravo") (Some 1000);
   sample_issue "I2" "medium" occupied (Some "TeamBravo") (Some 2000);
   sample_issue "I3" "hard" occupied (Some "TeamBravo") (Some 3000);
   sample_issue "I4" "easy" open None None].

Definition full_quota_world : World :=
  sample_world full_quota_issues [mkTeam "TeamBravo" 0 true] 100000.

(* ===================================================================== *)
(** * Concurrent claim attempts *)
(* ===================================================================== *)

(** One call in flight: the browser it runs in and what is left of it. *)
Record Thread : Type := mkThread {
  local : World;
  prog : Prog (option Result)
}.

(** The store all browsers share, and the calls in flight. *)
Record Config : Type := mkConfig {
  store : gmap string Issue;
  ledger : gmap string Team;
  threads : list Thread
}.

(** The call [i] goes on to its next event.  The event sees the shared
    store; a transaction is one event, so it reads and writes its document
    with no other event in between, which is what the store's transactions
    provide (spec, section 5). *)
Definition step_thread (cfg : Config) (i : nat) : Config :=
  match threads cfg !! i with
  | Some t =>
      match prog t with
      | Vis e k =>
          let '(x, w') :=
            handle e (with_teamsDb (ledger cfg) (with_issuesDb (store cfg) (local t))) in
          {| store := issuesDb w';
             ledger := teamsDb w';
             threads := <[i := {| local := w'; prog := k x |}]> (threads cfg) |}
      | _ => cfg
      end
  | None => cfg
  end.

(** A schedule: which call moves next. *)
Definition exec (sched : list nat) (cfg : Config) : Config :=
  foldl step_thread cfg sched.

(** The log entry of a committed transaction on [issueId]. *)
Definition is_commit (issueId : string) (ev : Event) : bool :=
  match ev with
  | EvTransaction i true => String.eqb i issueId
  | _ => false
  end.

(** How often a log shows a transaction on [issueId] commit. *)
Definition commits_of (issueId : string) (l : list Event) : nat :=
  length (List.filter (is_commit issueId) l).

(** A transaction body that commits only on a document it finds [open],
    and then makes it [occupied] and returns a success. *)
Definition claim_body (body : TxBody) : Prop :=
  forall now doc u r,
    body now doc = inr (u, r) ->
    (exists d, doc = Some d /\ status d = open) /\
    u_status u = Some occupied /\ success r = true.
Arguments claim_body : simpl never.

(** What a claim attempt may ask for: no plain document update, and
    transactions on [issueId] with a claim body only.  [K x c'] is what is
    required of the rest, given the answer [x] and whether a transaction of
    this attempt has committed. *)
Definition claim_event (issueId : string) {X} (e : Eff X) (c : bool)
    (K : X -> bool -> Prop) : Prop :=
  match e in Eff X return (X -> bool -> Prop) -> Prop with
  | RunTransaction issueId' body =>
      fun K => issueId' = issueId /\ claim_body body /\
               (forall err, K (inl err) c) /\
               (forall r, success r = true -> K (inr r) true)
  | UpdateIssueDoc _ _ => fun _ => False
  | UpdateTeamDoc _ _ => fun _ => False
  | DateNow => fun K => forall x, K x c
  | MathRandom => fun K => forall x, K x c
  | NavigatorOnLine => fun K => forall x, K x c
  | SetTimeout _ => fun K => forall x, K x c
  | CacheGet _ => fun K => forall x, K x c
  | CacheSet _ _ => fun K => forall x, K x c
  | CacheDelete _ => fun K => forall x, K x c
  | CacheEntries => fun K => forall x, K x c
  | GetDoc _ => fun K => forall x, K x c
  | GetDocs _ => fun K => forall x, K x c
  | SetIssues _ => fun K => forall x, K x c
  end K.

(** A claim attempt on [issueId] with at most [n] events to go: it never
    throws, and it returns a result whose [success] tells whether one of
    its transactions has committed. *)
Fixpoint claim_prog (issueId : string) (n : nat) (c : bool) (p : Prog (option Result))
    {struct p} : Prop :=
  match p with
  | Ret r => exists res, r = Some res /\ success res = c
  | Throw _ => False
  | Vis e k =>
      match n with
      | O => False
      | S n' => claim_event issueId e c (fun x c' => claim_prog issueId n' c' (k x))
      end
  end.

(** The longest path through either service has eight events. *)
Definition claim_depth : nat := 8.

(** A call of [occupyIssueTransaction] on [issueId] that has not begun. *)
Definition fresh_attempt (issueId : string) (t : Thread) : Prop :=
  commits_of issueId (log (local t)) = 0%nat /\
  exists teamName,
    prog t = PlainService.occupyIssueTransaction issueId teamName \/
    exists maxRetries,
      prog t = CachedService.occupyIssueTransaction issueId teamName maxRetries.

(** The attempt has committed a transaction on [issueId]. *)
Definition committed (issueId : string) (t : Thread) : Prop :=
  (0 < commits_of issueId (log (local t)))%nat.

(** Three browsers race for I1: TeamBravo and TeamCharlie through the
    cached service, TeamDelta through the plain one. *)
Definition race_config : Config :=
  let w := sample_world [sample_issue "I1" "easy" open None None]
             [mkTeam "TeamBravo" 0 true; mkTeam "TeamCharlie" 0 true;
              mkTeam "TeamDelta" 0 true] 100000 in
  {| store := issuesDb w;
     ledger := teamsDb w;
     threads :=
       [ {| local := w;
            prog := CachedService.occupyIssueTransaction "I1" "TeamBravo" 3 |};
         {| local := w;
            prog := CachedService.occupyIssueTransaction "I1" "TeamCharlie" 3 |};
         {| local := w;
            prog := PlainService.occupyIssueTransaction "I1" "TeamDelta" |} ] |}.

(** All three pass their reads before any of them reaches its
    transaction. *)
Definition race_schedule : list nat :=
  [0; 1; 2; 0; 1; 0; 1; 0; 1; 0; 1; 0; 1; 2; 0; 0; 1; 1]%nat.

(** How often a schedule has picked the call [i]. *)
Definition picked (sched : list nat) (i : nat) : nat := count_occ Nat.eq_dec sched i.

(** What holds of every configuration a schedule reaches from [cfg0] when
    all calls are claim attempts on [issueId]. *)
Record race_inv (issueId : string) (cfg0 : Config) (sched : list nat) (cfg : Config)
    : Prop := {
  inv_prog : forall i t,
    threads cfg !! i = Some t ->
    claim_prog issueId (claim_depth - picked sched i)
      (0 <? commits_of issueId (log (local t)))%nat (prog t);
  inv_unique : forall i j ti tj,
    threads cfg !! i = Some ti -> threads cfg !! j = Some tj ->
    committed issueId ti -> committed issueId tj -> i = j;
  inv_once : forall i t,
    threads cfg !! i = Some t -> (commits_of issueId (log (local t)) <= 1)%nat;
  inv_before :
    (forall i t, threads cfg !! i = Some t ->
                 commits_of issueId (log (local t)) = 0%nat) ->
    store cfg !! issueId = store cfg0 !! issueId;
  inv_after : forall i t,
    threads cfg !! i = Some t -> committed issueId t ->
    status <$> store cfg0 !! issueId = Some open /\
    status <$> store cfg !! issueId = Some occupied
}.

(* ===================================================================== *)
(** * The React context: sessions *)
(* ===================================================================== *)

(** The React state of the provider besides the lists: [currentTeam] and
    [isAdmin].  A function that calls [setCurrentTeam] or [setIsAdmin]
    returns the state it leaves. *)
Record Session : Type := mkSession {
  currentTeam : option Team;
  isAdmin : bool
}.

(* ===================================================================== *)
(** * Documents created and deleted: the rest of [firebaseService.ts] *)
(* ===================================================================== *)

(** Modelled from the spec: the type [Repository] of [@/types], which is
    not among the sources and which the spec (section 1) leaves to the
    surrounding application; the fields are those the code reads or
    writes: [name] and [url] (AppContext.tsx, lines 56-60) and the
    optional [id] (line 279). *)
Record Repository : Type := mkRepository {
  repo_id : option string;
  repo_name : string;
  url : string
}.

(** The store with its third collection, and the ids [doc(collection(..))]
    generates for new documents. *)
Record Backend : Type := mkBackend {
  world : World;
  repositoriesDb : gmap string Repository;   (* collection 'repositories' *)
  auto_id : nat -> string;                   (* the n-th generated id *)
  generated : nat                            (* ids generated so far *)
}.

Definition with_world (w : World) (b : Backend) : Backend :=
  mkBackend w (repositoriesDb b) (auto_id b) (generated b).

Definition with_repositoriesDb (db : gmap string Repository) (b : Backend) : Backend :=
  mkBackend (world b) db (auto_id b) (generated b).

(** An asynchronous function over the whole store: it ends by returning or
    by throwing, and leaves a store. *)
Definition Async (A : Type) : Type := Backend -> Outcome A * Backend.

Definition aret {A} (a : A) : Async A := fun b => (Done a, b).

Definition athrow {A} (e : Js.Error) : Async A := fun b => (Raised e, b).

Definition abind {A B} (m : Async A) (f : A -> Async B) : Async B :=
  fun b =>
    match m b with
    | (Done a, b') => f a b'
    | (Raised e, b') => (Raised e, b')
    end.

(** [try { m } catch (error) { h error }]. *)
Definition acatch {A} (m : Async A) (h : Js.Error -> Async A) : Async A :=
  fun b =>
    match m b with
    | (Done a, b') => (Done a, b')
    | (Raised e, b') => h e b'
    end.

Notation "x <~ m ;; k" := (abind m (fun x => k))
  (at level 100, m at next level, right associativity).

(** A program of the first part, run on the issues and teams of the
    store. *)
Definition lift {A} (p : Prog A) : Async A :=
  fun b => let '(o, w') := run p (world b) in (o, with_world w' b).

(** [for (const x of l) await body x]. *)
Fixpoint afor {X} (l : list X) (body : X -> Async unit) : Async unit :=
  match l with
  | [] => aret tt
  | x :: rest => _ <~ body x ;; afor rest body
  end.

(** An awaited store call that reads or writes whole documents
    ([getDocs] on a collection, [setDoc], [deleteDoc], [batch.commit]):
    the request goes out as in [handle]; a transport fault rejects it,
    otherwise the store does [f].  The [log] keeps to the calls [handle]
    answers. *)
Definition store_call {A} (f : Backend -> A * Backend) : Async A :=
  fun b =>
    let '(n, w1) := arrive (world b) in
    let b1 := with_world w1 b in
    match fault n with
    | Some err => (Raised err, b1)
    | None => let '(a, b2) := f b1 in (Done a, b2)
    end.

(** [doc(collection(db, ..))]: a reference with a generated id. *)
Definition new_doc_id : Async string :=
  fun b => (Done (auto_id b (generated b)),
            mkBackend (world b) (repositoriesDb b) (auto_id b) (S (generated b))).

Definition set_teams (f : gmap string Team -> gmap string Team) (b : Backend) : Backend :=
  with_world (with_teamsDb (f (teamsDb (world b))) (world b)) b.

Definition set_issues (f : gmap string Issue -> gmap string Issue) (b : Backend) : Backend :=
  with_world (with_issuesDb (f (issuesDb (world b))) (world b)) b.

Module Service.

(** [getAllTeams] (part_000, lines 28-38 and 303-313). *)
Definition getAllTeams : Async (list Team) :=
  acatch (store_call (fun b => ((map_to_list (teamsDb (world b))).*2, b)))
         (fun error => athrow error).

(** [createTeam] (lines 48-51 and 323-326). *)
Definition createTeam (team : Team) : Async unit :=
  store_call (fun b => (tt, set_teams (insert (name team) team) b)).

(** [initializeTeams] (lines 58-73 and 333-348): one batch; with
    [merge: true] a document that exists keeps the fields the data does
    not name, and the data names all three fields of a team. *)
Definition initializeTeams (teamNames : list string) : Async unit :=
  acatch
    (store_call (fun b =>
       (tt, set_teams (fun db =>
              foldl (fun db name =>
                       <[name := {| name := name; points := 0; active := false |}]> db)
                    db teamNames) b)))
    (fun error => athrow error).

(** [getAllRepositories] (lines 77-84 and 352-359): [id: doc.id] comes
    first in the object literal, so an [id] field of the document
    replaces it. *)
Definition getAllRepositories : Async (list Repository) :=
  store_call (fun b =>
    (List.map (fun kr : string * Repository =>
                 {| repo_id := Some (or_else (repo_id kr.2) kr.1);
                    repo_name := repo_name kr.2; url := url kr.2 |})
              (map_to_list (repositoriesDb b)), b)).

(** [createRepository] (lines 97-100 and 372-375). *)
Definition createRepository (repo : Repository) : Async unit :=
  repoDoc <~ new_doc_id ;;
  store_call (fun b =>
    (tt, with_repositoriesDb (<[repoDoc := repo]> (repositoriesDb b)) b)).

(** [deleteRepository] (lines 102-105 and 377-380). *)
Definition deleteRepository (repoId : string) : Async unit :=
  store_call (fun b =>
    (tt, with_repositoriesDb (delete repoId (repositoriesDb b)) b)).

(** [initializeRepositories] (lines 107-121 and 382-396): the references
    are made while the batch is filled, the batch is committed at once. *)
Fixpoint batch_repositories (repos : list Repository) : Async (list (string * Repository)) :=
  match repos with
  | [] => aret []
  | repo :: rest =>
      repoDoc <~ new_doc_id ;;
      batch <~ batch_repositories rest ;;
      aret ((repoDoc, repo) :: batch)
  end.

Definition initializeRepositories (repos : list Repository) : Async unit :=
  acatch
    (batch <~ batch_repositories repos ;;
     store_call (fun b =>
       (tt, with_repositoriesDb
              (foldl (fun db kr => <[kr.1 := kr.2]> db) (repositoriesDb b) batch) b)))
    (fun error => athrow error).

(** [createIssue] (lines 151-159 and 447-455).  The argument has no id;
    the id of the document is its key, which is what a subscriber reads
    as the [id] of the issue (line 420). *)
Definition createIssue (issue : Issue) : Async string :=
  issueDoc <~ new_doc_id ;;
  _ <~ store_call (fun b =>
         (tt, set_issues (insert issueDoc
                {| issue_id := issueDoc; title := title issue; tags := tags issue;
                   status := status issue; assignedTo := assignedTo issue;
                   occupiedAt := to_timestamp (occupiedAt issue);
                   closedAt := to_timestamp (closedAt issue);
                   prUrl := prUrl issue; prStatus := prStatus issue;
                   lastUpdated := lastUpdated issue |}) b)) ;;
  aret issueDoc.

(** [deleteIssue] (lines 176-179 and 472-475). *)
Definition deleteIssue (issueId : string) : Async unit :=
  store_call (fun b => (tt, set_issues (delete issueId) b)).

End Service.

(* ===================================================================== *)
(** * The React context: sessions, administration, first load *)
(* ===================================================================== *)

(** The functions of the provider component [AppProvider] that
    [AppContext] leaves out. *)
Module AppProvider.

(** [ALLOWED_TEAMS] (AppContext.tsx, line 46). *)
Definition ALLOWED_TEAMS : list string :=
  ["123"; "TeamBravo"; "TeamCharlie"; "TeamDelta"].

(** [TEAM_PASSWORDS[teamName]] (lines 49-54) for a name the object has as
    an own key; it is read only after [ALLOWED_TEAMS.includes(teamName)]. *)
Definition TEAM_PASSWORDS (teamName : string) : option string :=
  if String.eqb teamName "123" then Some "123"
  else if String.eqb teamName "TeamBravo" then Some "bravo123"
  else if String.eqb teamName "TeamCharlie" then Some "charlie123"
  else if String.eqb teamName "TeamDelta" then Some "delta123"
  else None.

(** [l.includes(s)] on an array of strings. *)
Definition array_includes (l : list string) (s : string) : bool :=
  existsb (String.eqb s) l.

(** [loginTeam] (lines 229-251), over the [teams] of the render that
    created it; the update of the team document is started, not awaited. *)
Definition loginTeam (teams : list Team) (teamName password : string) (s : Session)
    : Prog (Result * Session) :=
  if negb (array_includes ALLOWED_TEAMS teamName)
  then Ret (failure "Team not recognized. Contact admin.", s)
  else if negb (Js.seq_ostr (TEAM_PASSWORDS teamName) password)
  then Ret (failure "Invalid password. Please check your team password.", s)
  else
    let isActive := existsb (fun t => String.eqb (name t) teamName && active t) teams in
    if isActive
    then Ret (failure "This team is already active. Only one active session allowed.", s)
    else
      match List.find (fun t => String.eqb (name t) teamName) teams with
      | Some team =>
          _ <- fire_and_forget
                 (updateTeam teamName {| u_points := None; u_active := Some true |}) ;;
          Ret (ok, {| currentTeam := Some team; isAdmin := isAdmin s |})
      | None => Ret (failure "Team not found.", s)
      end.

(** [logoutTeam] (lines 253-258). *)
Definition logoutTeam (s : Session) : Prog Session :=
  match currentTeam s with
  | Some team =>
      _ <- updateTeam (name team) {| u_points := None; u_active := Some false |} ;;
      Ret {| currentTeam := None; isAdmin := isAdmin s |}
  | None => Ret s
  end.

(** [loginAdmin] (lines 260-266). *)
Definition loginAdmin (username password : string) (s : Session) : bool * Session :=
  if String.eqb username "dvadmin" && String.eqb password "2025"
  then (true, {| currentTeam := currentTeam s; isAdmin := true |})
  else (false, s).

(** [logoutAdmin] (lines 268-270). *)
Definition logoutAdmin (s : Session) : Session :=
  {| currentTeam := currentTeam s; isAdmin := false |}.

(** [awardPoints] (lines 448-454), over the [teams] of the render that
    created it; the toast is left out. *)
Definition awardPoints (teams : list Team) (teamName : string) (pts : Z)
    : Prog (option unit) :=
  call (
    match List.find (fun t => String.eqb (name t) teamName) teams with
    | Some team =>
        exec_ (updateTeam teamName
                 {| u_points := Some (Js.add (points team) pts); u_active := None |})
    | None => skip
    end).

(** [INITIAL_REPOSITORIES] (AppContext.tsx, lines 56-60). *)
Definition INITIAL_REPOSITORIES : list Repository :=
  [ {| repo_id := None; repo_name := "awesome-repo";
       url := "https://github.com/example/awesome-repo" |};
    {| repo_id := None; repo_name := "ui-kit";
       url := "https://github.com/example/ui-kit" |};
    {| repo_id := None; repo_name := "lib-helpers";
       url := "https://github.com/example/lib-helpers" |} ].

(** [initializeData] (lines 72-102); the value is what [isInitialized]
    holds afterwards.  The [catch] logs and shows a toast. *)
Definition initializeData : Async bool :=
  acatch
    (existingTeams <~ Service.getAllTeams ;;
     _ <~ (if (length existingTeams =? 0)%nat
           then Service.initializeTeams ALLOWED_TEAMS
           else afor existingTeams (fun team =>
                  if active team
                  then lift (updateTeam (name team)
                               {| u_points := None; u_active := Some false |})
                  else aret tt)) ;;
     existingRepos <~ Service.getAllRepositories ;;
     _ <~ (if (length existingRepos =? 0)%nat
           then Service.initializeRepositories INITIAL_REPOSITORIES
           else aret tt) ;;
     aret true)
    (fun error => aret false).

(** [addRepository] (lines 272-275). *)
Definition addRepository (repo : Repository) : Async unit :=
  Service.createRepository repo.

(** [deleteRepository] (lines 277-283), over the [repositories] of the
    render that created it. *)
Definition deleteRepository (repositories : list Repository) (name : string) : Async unit :=
  match List.find (fun r => String.eqb (repo_name r) name) repositories with
  | Some repo =>
      if Js.truthy_ostr (repo_id repo)
      then Service.deleteRepository (or_else (repo_id repo) "")
      else aret tt
  | None => aret tt
  end.

(** [addIssue] (lines 285-288). *)
Definition addIssue (issue : Issue) : Async unit :=
  _ <~ Service.createIssue
         {| issue_id := issue_id issue; title := title issue; tags := tags issue;
            status := open; assignedTo := None;
            occupiedAt := occupiedAt issue; closedAt := closedAt issue;
            prUrl := prUrl issue; prStatus := prStatus issue;
            lastUpdated := lastUpdated issue |} ;;
  aret tt.

(** [deleteIssue] (lines 461-464). *)
Definition deleteIssue (issueId : string) : Async unit :=
  Service.deleteIssue issueId.

End AppProvider.

(* ===================================================================== *)
(** * Definitions used by the statements on the rest of the code *)
(* ===================================================================== *)

(** [isTransient] (AppContext.tsx, lines 371-373), of a result. *)
Definition transient (res : Result) : bool :=
  existsb (fun ind => Js.includes (Js.toLowerCase (or_else (error res) "")) ind)
          AppContext.transientIndicators.

(** The result of line 388. *)
Definition retries_exhausted : Result :=
  failure "Transaction failed after retries. Please check your connection and try again.".

(** An issue document claimed at [now] through the first snapshot, which
    leaves [lastUpdated] alone. *)
Definition claimed_plain (teamName : string) (now : Z) (d : Issue) : Issue :=
  {| issue_id := issue_id d; title := title d; tags := tags d;
     status := occupied; assignedTo := Some teamName; occupiedAt := Some now;
     closedAt := closedAt d; prUrl := prUrl d; prStatus := prStatus d;
     lastUpdated := lastUpdated d |}.

(** The transactions a log shows as rejected. *)
Definition rejections_in (l : list Event) : nat :=
  length (List.filter (fun ev => match ev with EvTransaction _ false => true | _ => false end) l).

(** What is required of the continuation of an event for [after_rejection]:
    [F] of the rest once a transaction has been rejected, [K] otherwise. *)
Definition rejection_event {X} (e : Eff X) (F K : X -> Prop) : Prop :=
  match e in Eff X return (X -> Prop) -> (X -> Prop) -> Prop with
  | RunTransaction _ _ =>
      fun F K => (forall err, F (inl err)) /\ (forall r, K (inr r))
  | _ => fun _ K => forall x, K x
  end F K.

(** Whatever the answers: once a transaction of the program has been
    rejected, the program ends by returning a value that satisfies [Q]. *)
Fixpoint after_rejection {A} (Q : A -> Prop) (p : Prog A) : Prop :=
  match p with
  | Ret _ | Throw _ => True
  | Vis e k =>
      rejection_event e (fun x => always_returns Q (k x))
                        (fun x => after_rejection Q (k x))
  end.

(** An issue document with its [assignedTo] replaced and nothing else. *)
Definition assigned_to (holder : option string) (d : Issue) : Issue :=
  {| issue_id := issue_id d; title := title d; tags := tags d;
     status := status d; assignedTo := holder; occupiedAt := occupiedAt d;
     closedAt := closedAt d; prUrl := prUrl d; prStatus := prStatus d;
     lastUpdated := lastUpdated d |}.

(** The points a round of the sweep writes to the team document [n], if
    it writes that document. *)
Definition round_penalty (now : Z) (teams : list Team) (n : string) (issue : Issue)
    : option Js.Value :=
  if overdue now issue then
    match find_team (assignedTo issue) teams with
    | Some team =>
        if String.eqb (name team) n
        then Some (Js.max 0 (Js.sub (points team)
                     (Js.or_num (AppContext.penalties (head (tags issue))) 0)))
        else None
    | None => None
    end
  else None.

(** The points the last such round of a pass writes. *)
Definition last_penalty (now : Z) (teams : list Team) (n : string) (issues : list Issue)
    : option Js.Value :=
  foldl (fun acc issue =>
           match round_penalty now teams n issue with
           | Some p => Some p
           | None => acc
           end) None issues.

(** An issue document with its [lastUpdated] replaced and nothing else. *)
Definition stamped (now : Z) (d : Issue) : Issue :=
  {| issue_id := issue_id d; title := title d; tags := tags d;
     status := status d; assignedTo := assignedTo d; occupiedAt := occupiedAt d;
     closedAt := closedAt d; prUrl := prUrl d; prStatus := prStatus d;
     lastUpdated := Some now |}.

(** A team document with its [active] flag replaced and nothing else. *)
Definition with_active (a : bool) (t : Team) : Team :=
  {| name := name t; points := points t; active := a |}.

(** Every team document is kept under the name it holds, which is how
    [createTeam] and [initializeTeams] file it. *)
Definition filed_by_name (db : gmap string Team) : Prop :=
  forall k t, db !! k = Some t -> name t = k.

(** The team documents [initializeTeams] writes. *)
Definition initial_teams (teamNames : list string) (db : gmap string Team) : gmap string Team :=
  foldl (fun db name => <[name := {| name := name; points := 0; active := false |}]> db)
        db teamNames.

(** The document [addIssue] stores under the generated id. *)
Definition added (newId : string) (issue : Issue) : Issue :=
  {| issue_id := newId; title := title issue; tags := tags issue;
     status := open; assignedTo := None;
     occupiedAt := to_timestamp (occupiedAt issue);
     closedAt := to_timestamp (closedAt issue);
     prUrl := prUrl issue; prStatus := prStatus issue;
     lastUpdated := lastUpdated issue |}.

(** What a time field of an issue document can hold in the store, and
    what a field of a delivered issue can hold: [null], a number, or a
    [Timestamp] (given by its milliseconds). *)
Inductive TimeField : Type :=
| TNull
| TNumber (ms : Z)
| TTimestamp (ms : Z).

(** [v ? Timestamp.fromMillis(v) : null] ([createIssue], lines 155-156
    and 451-452; [updateIssue], lines 167, 170 and 463, 466). *)
Definition stored_time (v : option Z) : TimeField :=
  if Js.truthy_onum v then TTimestamp (or_else v 0) else TNull.

(** [data.f?.toMillis?.() || data.f] ([subscribeToIssues], lines 143-144
    and 423-424):
    [null] and a number have no [toMillis]; a [Timestamp] has, and
    [toMillis()] gives back the milliseconds it was made from. *)
Definition delivered_time (f : TimeField) : TimeField :=
  match f with
  | TNull => TNull
  | TNumber ms => TNumber ms
  | TTimestamp ms => if Z.eqb ms 0 then TTimestamp ms else TNumber ms
  end.

(** [number | null] as a field of a delivered issue. *)
Definition time_of (v : option Z) : TimeField :=
  match v with Some ms => TNumber ms | None => TNull end.

(** I1 is open, TeamBravo and TeamDelta hold nothing, the cache is empty
    and the store answers at once. *)
Definition open_issue_world : World :=
  sample_world [sample_issue "I1" "easy" open None None]
               [mkTeam "TeamBravo" 0 true; mkTeam "TeamDelta" 0 true] 100000.

(** A store that answers the next call with the code [unavailable]. *)
Definition unavailable_world : World := with_net [failing] open_issue_world.

(** A transport failure whose message names the network. *)
Definition network_lost : Js.Error :=
  {| Js.message := "A network error has occurred."; Js.code := None |}.

(** The first call of the plain service fails on the network, the calls
    after it get through. *)
Definition flaky_world : World :=
  with_net [{| delay := 0; fault := Some network_lost; feed := None |}] open_issue_world.

(** TeamBravo's cache entry is two seconds old. *)
Definition cached_world (n : Z) : World :=
  with_cache {[ "TeamBravo" := {| count := n; timestamp := 98000 |} ]} open_issue_world.

(** An easy and a hard issue of TeamBravo, both overdue, and a closed
    issue of TeamDelta, an hour after they were taken. *)
Definition overdue_issues : list Issue :=
  [sample_issue "I1" "easy" occupied (Some "TeamBravo") (Some 1000);
   sample_issue "I2" "hard" occupied (Some "TeamBravo") (Some 1000);
   sample_issue "I3" "easy" closed (Some "TeamDelta") (Some 1000)].

Definition overdue_teams : list Team :=
  [mkTeam "TeamBravo" 40 true; mkTeam "TeamDelta" 8 true].

Definition overdue_world : World :=
  sample_world overdue_issues overdue_teams (1000 + 60 * 60 * 1000).

(** The same with a fourth issue, held by TeamDelta as long, whose first
    tag is [toString]. *)
Definition prototype_issues : list Issue :=
  (overdue_issues
   ++ [sample_issue "I4" "toString" occupied (Some "TeamDelta") (Some 1000)])%list.

Definition prototype_world : World :=
  sample_world prototype_issues overdue_teams (1000 + 60 * 60 * 1000).

(** The teams of the contest, TeamBravo with a session left open; no
    repository yet; generated ids are [R0], [R1], ... *)
Definition sample_backend : Backend :=
  {| world := sample_world [sample_issue "I1" "easy" occupied (Some "TeamBravo") (Some 1000)]
                [mkTeam "TeamBravo" 30 true; mkTeam "TeamDelta" 10 false] 100000;
     repositoriesDb := ∅;
     auto_id := fun n => String "R" (String (ascii_of_nat (48 + n)) EmptyString);
     generated := 0 |}.

(** TeamBravo is logged out, TeamDelta has a session. *)
Definition lobby_teams : list Team :=
  [mkTeam "TeamBravo" 30 false; mkTeam "TeamDelta" 10 true].

Definition lobby_world : World := sample_world [] lobby_teams 100000.

Definition nobody : Session := {| currentTeam := None; isAdmin := false |}.

(* ===================================================================== *)
(** * Basic facts *)
(* ===================================================================== *)

Lemma Status_eqb_eq a b : Status_eqb a b = true <-> a = b.
Proof. destruct a, b; simpl; split; intros H; try reflexivity; discriminate H. Qed.

Example includes_already :
  Js.includes "This issue is already occupied. Please choose another issue." "already" = true.
Proof. reflexivity. Qed.

Example trim_spaces : Js.trim "  https://x/pr/1 " = "https://x/pr/1".
Proof. reflexivity. Qed.

Example trim_no_break_space :
  Js.trim (Js.utf8 0xA0 ++ "https://x/pr/1" ++ Js.utf8 0x2028 ++ Js.utf8 0xFEFF)
  = "https://x/pr/1".
Proof. vm_compute. reflexivity. Qed.

(** A byte 160 outside any UTF-8 sequence is NO-BREAK SPACE as well. *)
Example trim_latin1 : Js.trim (String (ascii_of_N 160) "x") = "x".
Proof. vm_compute. reflexivity. Qed.

(** SAMARITAN LETTER ALAF (U+0800) and E WITH ACUTE are letters, whatever
    their bytes are. *)
Example trim_letters :
  Js.trim (" " ++ Js.utf8 0x800 ++ Js.utf8 0xE9 ++ " ") = Js.utf8 0x800 ++ Js.utf8 0xE9.
Proof. vm_compute. reflexivity. Qed.

Example lower_kelvin : Js.toLowerCase ("NETWOR" ++ Js.utf8 0x212A) = "network".
Proof. vm_compute. reflexivity. Qed.

(** A longer form of SPACE (C0 A0) and a surrogate (ED A0 80) are no
    characters: their bytes are read one by one, the byte 160 among them
    as NO-BREAK SPACE. *)
Example chars_ill_formed :
  Js.chars (String (ascii_of_N 192) (String (ascii_of_N 160) "x"))
  = [String (ascii_of_N 192) ""; String (ascii_of_N 160) ""; "x"] /\
  List.length (Js.chars (String (ascii_of_N 237) (String (ascii_of_N 160)
                           (String (ascii_of_N 128) "")))) = 3%nat /\
  Js.chars (Js.utf8 0x1F600 ++ "a" ++ Js.utf8 0x20AC) = [Js.utf8 0x1F600; "a"; Js.utf8 0x20AC].
Proof. vm_compute. repeat split. Qed.

Example trim_blank : Js.trim "   " = "".
Proof. reflexivity. Qed.

Example lower_mixed : Js.toLowerCase "Transaction Timed Out" = "transaction timed out".
Proof. reflexivity. Qed.

(* ===================================================================== *)
(** * Running programs: equations of the interpreter *)
(* ===================================================================== *)

Lemma run_bind {A B} (p : Prog A) (f : A -> Prog B) (w : World) :
  run (bind p f) w =
  match run p w with
  | (Done a, w') => run (f a) w'
  | (Raised e, w') => (Raised e, w')
  end.
Proof.
  revert w. induction p as [a|e|X e k IH]; intros w; simpl; try reflexivity.
  destruct (handle e w) as [x w']. apply IH.
Qed.

Lemma run_try_catch {A} (p : Prog A) (h : Js.Error -> Prog A) (w : World) :
  run (try_catch p h) w =
  match run p w with
  | (Done a, w') => (Done a, w')
  | (Raised e, w') => run (h e) w'
  end.
Proof.
  revert w. induction p as [a|e|X e k IH]; intros w; simpl; try reflexivity.
  destruct (handle e w) as [x w']. apply IH.
Qed.

Lemma run_seq {R} (s1 s2 : Stmt R) (w : World) :
  run (s1 ;;; s2) w =
  match run s1 w with
  | (Done Normal, w') => run s2 w'
  | (Done Continue, w') => (Done Continue, w')
  | (Done (Return r), w') => (Done (Return r), w')
  | (Raised e, w') => (Raised e, w')
  end.
Proof.
  unfold seq. rewrite run_bind.
  destruct (run s1 w) as [[[| |r]|e] w']; reflexivity.
Qed.

Lemma run_round {R} (body rest : Stmt R) (w : World) :
  run (round body rest) w =
  match run body w with
  | (Done Normal, w') | (Done Continue, w') => run rest w'
  | (Done (Return r), w') => (Done (Return r), w')
  | (Raised e, w') => (Raised e, w')
  end.
Proof.
  unfold round. rewrite run_bind.
  destruct (run body w) as [[[| |r]|e] w']; reflexivity.
Qed.

Lemma run_call {R} (s : Stmt R) (w : World) :
  run (call s) w =
  match run s w with
  | (Done (Return r), w') => (Done (Some r), w')
  | (Done _, w') => (Done None, w')
  | (Raised e, w') => (Raised e, w')
  end.
Proof.
  unfold call. rewrite run_bind.
  destruct (run s w) as [[[| |r]|e] w']; reflexivity.
Qed.

Lemma run_exec_ {R X} (p : Prog X) (w : World) :
  run (exec_ (R := R) p) w =
  match run p w with
  | (Done _, w') => (Done Normal, w')
  | (Raised e, w') => (Raised e, w')
  end.
Proof.
  unfold exec_. rewrite run_bind.
  destruct (run p w) as [[x|e] w']; reflexivity.
Qed.

(** ** What a store call leaves alone *)

Lemma issuesDb_arrive w : issuesDb (arrive w).2 = issuesDb w.
Proof. unfold arrive. destruct (net w) as [|n rest]; [reflexivity|]. destruct (feed n); reflexivity. Qed.

Lemma teamsDb_arrive w : teamsDb (arrive w).2 = teamsDb w.
Proof. unfold arrive. destruct (net w) as [|n rest]; [reflexivity|]. destruct (feed n); reflexivity. Qed.

Lemma cache_arrive w : teamIssueCountCache (arrive w).2 = teamIssueCountCache w.
Proof. unfold arrive. destruct (net w) as [|n rest]; [reflexivity|]. destruct (feed n); reflexivity. Qed.

Lemma log_arrive w : log (arrive w).2 = log w.
Proof. unfold arrive. destruct (net w) as [|n rest]; [reflexivity|]. destruct (feed n); reflexivity. Qed.

Lemma arrive_offline w : net w = [] -> arrive w = (quiet, w).
Proof. intros H. unfold arrive. rewrite H. reflexivity. Qed.

(** The settled result of [updateIssue]. *)
Lemma run_updateIssue_written w issueId u d :
  issuesDb w !! issueId = Some d ->
  fault (arrive w).1 = None ->
  run (updateIssue issueId u) w =
  (Done tt,
   logged (EvUpdateIssue issueId true)
     (with_issuesDb
        (<[issueId := apply_updates
             {| u_status := u_status u; u_assignedTo := u_assignedTo u;
                u_occupiedAt := to_timestamp <$> u_occupiedAt u;
                u_closedAt := to_timestamp <$> u_closedAt u;
                u_prUrl := u_prUrl u; u_prStatus := u_prStatus u;
                u_lastUpdated := u_lastUpdated u |} d]> (issuesDb (arrive w).2))
        (arrive w).2)).
Proof.
  intros Hd Hf. unfold updateIssue, await. cbn [run handle].
  destruct (arrive w) as [n w1] eqn:Ha. cbn [fst snd] in *.
  assert (Hdb : issuesDb w1 = issuesDb w) by (pose proof (issuesDb_arrive w) as H; rewrite Ha in H; exact H).
  rewrite Hf, Hdb, Hd. reflexivity.
Qed.

Lemma run_updateTeam_written w teamName u t :
  teamsDb w !! teamName = Some t ->
  fault (arrive w).1 = None ->
  run (updateTeam teamName u) w =
  (Done tt,
   logged (EvUpdateTeam teamName true)
     (with_teamsDb (<[teamName := apply_team_updates u t]> (teamsDb (arrive w).2))
        (arrive w).2)).
Proof.
  intros Hd Hf. unfold updateTeam, await. cbn [run handle].
  destruct (arrive w) as [n w1] eqn:Ha. cbn [fst snd] in *.
  assert (Hdb : teamsDb w1 = teamsDb w) by (pose proof (teamsDb_arrive w) as H; rewrite Ha in H; exact H).
  rewrite Hf, Hdb, Hd. reflexivity.
Qed.

(** Whatever happens to [updateIssue], the teams are not written, and the
    issues change at most at [issueId]. *)
Lemma run_updateIssue_frame w issueId u :
  let w' := (run (updateIssue issueId u) w).2 in
  teamsDb w' = teamsDb w /\
  teamIssueCountCache w' = teamIssueCountCache w /\
  (issuesDb w' = issuesDb w \/
   exists d, issuesDb w !! issueId = Some d /\ fault (arrive w).1 = None).
Proof.
  unfold updateIssue, await. cbn [run handle].
  pose proof (issuesDb_arrive w) as Hi. pose proof (teamsDb_arrive w) as Ht.
  pose proof (cache_arrive w) as Hc.
  destruct (arrive w) as [n w1]. cbn [fst snd] in *.
  destruct (fault n) as [err|]; [cbn; auto|].
  rewrite Hi. destruct (issuesDb w !! issueId) as [d|] eqn:Hd; cbn; [|auto].
  repeat split; auto. right. exists d. auto.
Qed.

(* ===================================================================== *)
(** * Closing an issue *)
(* ===================================================================== *)

(** The first character of a string, and the rest of it. *)
Lemma chars_step c0 r0 :
  exists ch rest,
    Js.chars (String c0 r0) = ch :: Js.chars rest /\ ch <> "" /\
    String c0 r0 = ch ++ rest /\ (String.length rest <= String.length r0)%nat.
Proof.
  cbn [Js.chars].
  destruct (Js.announced c0) as [|[|[|[|n]]]];
    try (exists (String c0 ""), r0; repeat split; [discriminate|lia]).
  - destruct r0 as [|c1 r1];
      [exists (String c0 ""), ""; repeat split; [discriminate|lia]|].
    destruct (Js.well_formed _).
    + exists (String c0 (String c1 "")), r1. repeat split; [discriminate|cbn; lia].
    + exists (String c0 ""), (String c1 r1). repeat split; [discriminate|lia].
  - destruct r0 as [|c1 [|c2 r2]];
      try (eexists (String c0 ""), _; repeat split; [discriminate|lia]).
    destruct (Js.well_formed _).
    + exists (String c0 (String c1 (String c2 ""))), r2.
      repeat split; [discriminate|cbn; lia].
    + eexists (String c0 ""), _. repeat split; [discriminate|lia].
  - destruct r0 as [|c1 [|c2 [|c3 r3]]];
      try (eexists (String c0 ""), _; repeat split; [discriminate|lia]).
    destruct (Js.well_formed _).
    + exists (String c0 (String c1 (String c2 (String c3 "")))), r3.
      repeat split; [discriminate|cbn; lia].
    + eexists (String c0 ""), _. repeat split; [discriminate|lia].
Qed.

(** Induction over a string, character by character. *)
Lemma chars_ind (P : string -> Prop) :
  P "" ->
  (forall ch rest, ch <> "" -> Js.chars (ch ++ rest) = ch :: Js.chars rest ->
                   P rest -> P (ch ++ rest)) ->
  forall s, P s.
Proof.
  intros H0 Hstep s.
  assert (H : forall n s, (String.length s <= n)%nat -> P s).
  { clear s. induction n as [|n IH]; intros [|c0 r0] Hn; cbn in Hn; try exact H0; [lia|].
    destruct (chars_step c0 r0) as (ch & rest & Hc & Hne & Hs & Hl).
    rewrite Hs in *. apply Hstep; [exact Hne|exact Hc|]. apply IH. lia. }
  exact (H (String.length s) s (le_n _)).
Qed.

(** The characters of a string are its bytes, in order. *)
Lemma concat_chars s : String.concat "" (Js.chars s) = s.
Proof.
  induction s as [|ch rest Hne Hc IH] using chars_ind; [reflexivity|].
  rewrite Hc. cbn [String.concat].
  destruct (Js.chars rest) as [|ch' l] eqn:Hr.
  - cbn in IH. subst rest. clear. induction ch as [|c ch IH]; [reflexivity|].
    change (String c ch = String c (ch ++ "")). f_equal. exact IH.
  - rewrite IH. reflexivity.
Qed.

Lemma chars_nonempty s : Forall (fun ch => ch <> "") (Js.chars s).
Proof.
  induction s as [|ch rest Hne Hc IH] using chars_ind; [constructor|].
  rewrite Hc. constructor; assumption.
Qed.

Lemma concat_empty_iff l :
  Forall (fun ch => ch <> "") l -> String.concat "" l = "" <-> l = [].
Proof.
  intros Hl. split; [|intros ->; reflexivity].
  destruct Hl as [|ch l Hne Hl]; [reflexivity|].
  cbn [String.concat]. destruct l; [intros ->; contradiction|].
  destruct ch; [contradiction|discriminate].
Qed.

Lemma drop_ws_nil_iff l : Js.drop_ws l = [] <-> forallb Js.is_ws l = true.
Proof.
  induction l as [|ch l IH]; [cbn; tauto|].
  cbn [Js.drop_ws forallb]. destruct (Js.is_ws ch); cbn [andb]; [exact IH|].
  split; discriminate.
Qed.

Lemma drop_ws_sublist l : exists pre, l = (pre ++ Js.drop_ws l)%list.
Proof.
  induction l as [|ch l [pre IH]]; [exists []; reflexivity|].
  cbn [Js.drop_ws]. destruct (Js.is_ws ch).
  - exists (ch :: pre). cbn. f_equal. exact IH.
  - exists []. reflexivity.
Qed.

(** What is left of a list that does not start with white space does not
    start with it either, from whichever end it is cut. *)
Lemma drop_ws_rev_nonempty ch l :
  Js.is_ws ch = false -> Js.drop_ws (rev (ch :: l)) <> [].
Proof.
  intros Hch H. apply drop_ws_nil_iff in H.
  rewrite forallb_forall in H. specialize (H ch).
  rewrite H in Hch; [discriminate|]. apply in_rev. rewrite rev_involutive. left. reflexivity.
Qed.

Lemma trim_empty_iff s : Js.trim s = "" <-> only_whitespace s = true.
Proof.
  unfold Js.trim, only_whitespace.
  pose proof (chars_nonempty s) as Hne.
  destruct (drop_ws_sublist (Js.chars s)) as [pre Hpre].
  assert (Hne1 : Forall (fun ch => ch <> "") (Js.drop_ws (Js.chars s))).
  { rewrite Hpre in Hne. apply Forall_app in Hne. apply Hne. }
  destruct (drop_ws_sublist (rev (Js.drop_ws (Js.chars s)))) as [pre2 Hpre2].
  assert (Hne2 : Forall (fun ch => ch <> "")
                   (rev (Js.drop_ws (rev (Js.drop_ws (Js.chars s)))))).
  { apply Forall_rev. apply Forall_rev in Hne1. rewrite Hpre2 in Hne1.
    apply Forall_app in Hne1. apply Hne1. }
  rewrite (concat_empty_iff _ Hne2), <- drop_ws_nil_iff.
  split.
  - intros H. apply (f_equal (@rev string)) in H. rewrite rev_involutive in H. cbn in H.
    destruct (Js.drop_ws (Js.chars s)) as [|ch l] eqn:Hd; [reflexivity|].
    exfalso. revert H. apply drop_ws_rev_nonempty.
    clear -Hd. induction (Js.chars s) as [|c0 l0 IH]; [discriminate|].
    cbn [Js.drop_ws] in Hd. destruct (Js.is_ws c0) eqn:Hc0; [exact (IH Hd)|].
    injection Hd as -> _. exact Hc0.
  - intros ->. reflexivity.
Qed.

(** A string that neither starts nor ends with white space is its own
    trimmed form. *)
Lemma trim_fixed s :
  Js.drop_ws (Js.chars s) = Js.chars s ->
  Js.drop_ws (rev (Js.chars s)) = rev (Js.chars s) ->
  Js.trim s = s.
Proof.
  intros H1 H2. unfold Js.trim. rewrite H1, H2, rev_involutive. apply concat_chars.
Qed.

(** Each of the white-space characters of ECMAScript alone is a blank
    text, in its UTF-8 bytes. *)
Lemma white_space_is_blank :
  Forall (fun n => only_whitespace (Js.utf8 n) = true /\ Js.trim (Js.utf8 n) = "")
         Js.white_space.
Proof.
  repeat constructor.
Qed.

(** [!prUrl || !prUrl.trim()] holds exactly for a blank [prUrl]. *)
Lemma blank_guard prUrl :
  negb (Js.truthy_str prUrl) || negb (Js.truthy_str (Js.trim prUrl)) = only_whitespace prUrl.
Proof.
  unfold Js.truthy_str. rewrite !negb_involutive.
  destruct (only_whitespace prUrl) eqn:Hb.
  - apply trim_empty_iff in Hb. rewrite Hb. cbn. apply orb_true_r.
  - destruct (String.eqb prUrl "") eqn:He.
    + apply String.eqb_eq in He. subst prUrl. discriminate Hb.
    + destruct (String.eqb (Js.trim prUrl) "") eqn:Ht; [|reflexivity].
      apply String.eqb_eq in Ht. apply trim_empty_iff in Ht. congruence.
Qed.

(** C9.  [closeIssue issueId prUrl] with a [prUrl] that is empty or holds
    nothing but the white space [trim] strips returns [{success:false, error:'PR URL is required'}] and leaves
    the whole world as it was; otherwise it returns [{success:true}] and,
    on an existing document reached by the store call, writes status
    [closed], [closedAt] the current time, the trimmed [prUrl] and
    [prStatus] [pending], and nothing else. *)
Theorem closeIssue_requires_pr_url (w : World) (issueId prUrl : string) :
  (only_whitespace prUrl = true ->
   run (AppContext.closeIssue issueId prUrl) w
   = (Done (Some (failure "PR URL is required")), w)) /\
  (only_whitespace prUrl = false ->
   (run (AppContext.closeIssue issueId prUrl) w).1 = Done (Some ok) /\
   forall d, issuesDb w !! issueId = Some d ->
             fault (arrive w).1 = None ->
             clock w <> 0 ->
     let w' := (run (AppContext.closeIssue issueId prUrl) w).2 in
     issuesDb w' = <[issueId := closed_with (clock w) (Js.trim prUrl) d]> (issuesDb w) /\
     teamsDb w' = teamsDb w).
Proof.
  unfold AppContext.closeIssue. rewrite run_call, run_seq, blank_guard.
  split; intros Hb; rewrite Hb; cbn [when].
  - reflexivity.
  - cbn [skip run]. rewrite run_bind. cbn [perform run handle].
    rewrite run_seq, run_exec_. unfold fire_and_forget.
    rewrite run_try_catch, run_bind.
    split.
    + destruct (run (updateIssue _ _) w) as [[[]|e] w1]; reflexivity.
    + intros d Hd Hf Hc.
      rewrite (run_updateIssue_written w issueId _ d Hd Hf).
      cbn. rewrite issuesDb_arrive, teamsDb_arrive. split; [|reflexivity].
      f_equal. unfold closed_with, apply_updates, to_timestamp. cbn.
      destruct (Z.eqb_spec (clock w) 0) as [E|E]; [contradiction|]. reflexivity.
Qed.

Lemma closeIssue_requires_pr_url_witness :
  let w := sample_world [sample_issue "I1" "easy" occupied (Some "TeamBravo") (Some 1000)]
                        [mkTeam "TeamBravo" 0 true] 5000 in
  run (AppContext.closeIssue "I1" "   ") w
  = (Done (Some (failure "PR URL is required")), w) /\
  run (AppContext.closeIssue "I1" (Js.utf8 0xA0 ++ Js.utf8 0x3000)) w
  = (Done (Some (failure "PR URL is required")), w) /\
  (run (AppContext.closeIssue "I1" " https://x/pull/7 ") w).1 = Done (Some ok) /\
  issuesDb (run (AppContext.closeIssue "I1" " https://x/pull/7 ") w).2 !! "I1"
  = Some (closed_with 5000 "https://x/pull/7"
            (sample_issue "I1" "easy" occupied (Some "TeamBravo") (Some 1000))).
Proof.
  intros w.
  pose proof (closeIssue_requires_pr_url w "I1" "   ") as [H1 _].
  pose proof (closeIssue_requires_pr_url w "I1" (Js.utf8 0xA0 ++ Js.utf8 0x3000)) as [H0 _].
  pose proof (closeIssue_requires_pr_url w "I1" " https://x/pull/7 ") as [_ H2].
  split; [exact (H1 eq_refl)|].
  split; [exact (H0 eq_refl)|].
  destruct (H2 eq_refl) as [Hr Hw]. split; [exact Hr|].
  destruct (Hw (sample_issue "I1" "easy" occupied (Some "TeamBravo") (Some 1000))
              eq_refl eq_refl ltac:(discriminate)) as [Hdb _].
  rewrite Hdb. apply lookup_insert_eq.
Defined.

(* ===================================================================== *)
(** * Reviewing a pull request: approval and rejection *)
(* ===================================================================== *)

Lemma run_updateIssue_failed w issueId u :
  issuesDb w !! issueId = None \/ fault (arrive w).1 <> None ->
  exists e w', run (updateIssue issueId u) w = (Raised e, w') /\
               issuesDb w' = issuesDb w /\ teamsDb w' = teamsDb w.
Proof.
  intros H. unfold updateIssue, await. cbn [run handle].
  pose proof (issuesDb_arrive w) as Hi. pose proof (teamsDb_arrive w) as Ht.
  destruct (arrive w) as [n w1]. cbn [fst snd] in *.
  destruct (fault n) as [err|] eqn:Hf.
  - exists err. eexists. split; [reflexivity|]. cbn. auto.
  - destruct H as [H|H]; [|congruence].
    rewrite Hi, H. exists not_found. eexists. split; [reflexivity|]. cbn. auto.
Qed.

Lemma apply_prStatus_update st d :
  apply_updates
    {| u_status := None; u_assignedTo := None;
       u_occupiedAt := to_timestamp <$> None; u_closedAt := to_timestamp <$> None;
       u_prUrl := None; u_prStatus := Some st; u_lastUpdated := None |} d
  = with_prStatus st d.
Proof. reflexivity. Qed.

(** C10.  [updatePrStatus] with [approved] or [rejected] never writes a
    team document, and changes the issue store at most by replacing the
    [prStatus] of the issue it names (and does so whenever that document
    exists and the store call gets through). *)
Theorem updatePrStatus_approved_rejected_frame
    (w : World) (issues : list Issue) (teams : list Team) (issueId : string)
    (st : PrStatus) :
  st = approved \/ st = rejected ->
  let w' := (run (AppContext.updatePrStatus issues teams issueId st) w).2 in
  teamsDb w' = teamsDb w /\
  (issuesDb w' = issuesDb w \/
   exists d, issuesDb w !! issueId = Some d /\
             issuesDb w' = <[issueId := with_prStatus st d]> (issuesDb w)) /\
  (forall d, issuesDb w !! issueId = Some d -> fault (arrive w).1 = None ->
             issuesDb w' = <[issueId := with_prStatus st d]> (issuesDb w)).
Proof.
  intros Hst. unfold AppContext.updatePrStatus.
  rewrite run_call, run_seq, run_exec_.
  destruct (issuesDb w !! issueId) as [d|] eqn:Hd;
    [destruct (fault (arrive w).1) as [err|] eqn:Hf|].
  - destruct (run_updateIssue_failed w issueId
                {| u_status := None; u_assignedTo := None; u_occupiedAt := None;
                   u_closedAt := None; u_prUrl := None; u_prStatus := Some st;
                   u_lastUpdated := None |}) as (e & w1 & Hr & Hi & Ht).
    { right. rewrite Hf. discriminate. }
    rewrite Hr. cbn. repeat split; auto. intros ? _ ?. discriminate.
  - rewrite (run_updateIssue_written w issueId _ d Hd Hf).
    cbn [u_status u_assignedTo u_occupiedAt u_closedAt u_prUrl u_prStatus u_lastUpdated].
    rewrite apply_prStatus_update, issuesDb_arrive.
    assert (Hskip : forall w0 : World,
               run (match st with
                    | merged => AppContext.award_merged issues teams issueId
                    | _ => skip
                    end) w0 = (Done Normal, w0)).
    { intros w0. destruct Hst; subst st; reflexivity. }
    rewrite Hskip. cbn. rewrite teamsDb_arrive.
    repeat split; eauto. intros d' Hd' _. congruence.
  - destruct (run_updateIssue_failed w issueId
                {| u_status := None; u_assignedTo := None; u_occupiedAt := None;
                   u_closedAt := None; u_prUrl := None; u_prStatus := Some st;
                   u_lastUpdated := None |}) as (e & w1 & Hr & Hi & Ht).
    { left. exact Hd. }
    rewrite Hr. cbn. repeat split; auto. intros ? ?. discriminate.
Qed.

Lemma updatePrStatus_approved_rejected_frame_witness :
  let d := sample_issue "I1" "easy" closed (Some "TeamBravo") (Some 1000) in
  let w := sample_world [d] [mkTeam "TeamBravo" 7 true] 5000 in
  let w' := (run (AppContext.updatePrStatus [d] [mkTeam "TeamBravo" 7 true] "I1" rejected) w).2 in
  teamsDb w' = teamsDb w /\ issuesDb w' !! "I1" = Some (with_prStatus rejected d).
Proof.
  intros d w w'.
  destruct (updatePrStatus_approved_rejected_frame w [d] [mkTeam "TeamBravo" 7 true]
              "I1" rejected (or_intror eq_refl)) as (Ht & _ & Hw).
  split; [exact Ht|].
  unfold w'. rewrite (Hw d eq_refl eq_refl). apply lookup_insert_eq.
Defined.

(* ===================================================================== *)
(** * The expiry sweep *)
(* ===================================================================== *)

(** A tag that names nothing finds nothing, whatever the rows of the
    table are called, as long as it is none of them. *)
Lemma get_missing (a b c : Z) (tag : option string) :
  tag <> Some "easy" -> tag <> Some "medium" -> tag <> Some "hard" ->
  names_inherited tag = false ->
  Js.get [("easy", a); ("medium", b); ("hard", c)] tag = Js.Missing.
Proof.
  intros He Hm Hh Hi. destruct tag as [t|]; [|reflexivity].
  unfold Js.get. cbn [Js.own_property].
  destruct (String.eqb_spec "easy" t); [subst; congruence|].
  destruct (String.eqb_spec "medium" t); [subst; congruence|].
  destruct (String.eqb_spec "hard" t); [subst; congruence|].
  cbn [names_inherited] in Hi. rewrite Hi. reflexivity.
Qed.

(** A tag that names a member of [Object.prototype] finds that member. *)
Lemma get_inherited (a b c : Z) (tag : option string) :
  names_inherited tag = true ->
  Js.get [("easy", a); ("medium", b); ("hard", c)] tag = Js.Inherited.
Proof.
  intros Hi. destruct tag as [t|]; [|discriminate].
  unfold Js.get. cbn [Js.own_property].
  destruct (String.eqb_spec "easy" t); [subst; discriminate|].
  destruct (String.eqb_spec "medium" t); [subst; discriminate|].
  destruct (String.eqb_spec "hard" t); [subst; discriminate|].
  cbn [names_inherited] in Hi. rewrite Hi. reflexivity.
Qed.

Example tables_by_tag :
  AppContext.timeouts (Some "hard") = Js.Own (60 * 60 * 1000) /\
  AppContext.timeouts (Some "urgent") = Js.Missing /\
  AppContext.timeouts None = Js.Missing /\
  AppContext.timeouts (Some "constructor") = Js.Inherited /\
  AppContext.penalties (Some "__proto__") = Js.Inherited /\
  AppContext.pointsMap (Some "toString") = Js.Inherited.
Proof. vm_compute. repeat split. Qed.

Lemma policy_tables tag limit penalty :
  policy tag limit penalty ->
  Js.or_num (AppContext.timeouts tag) AppContext.timeouts_medium = Js.Num limit /\
  Js.or_num (AppContext.penalties tag) 0 = Js.Num penalty.
Proof.
  intros [| | |t He Hm Hh Hi]; try (split; reflexivity).
  unfold AppContext.timeouts, AppContext.penalties.
  rewrite !get_missing by assumption. split; reflexivity.
Qed.

(** An issue whose first tag names a member of [Object.prototype] is
    never overdue: its time limit is no number. *)
Lemma inherited_never_overdue now issue :
  names_inherited (head (tags issue)) = true -> overdue now issue = false.
Proof.
  intros Hi. unfold overdue, AppContext.timeouts.
  rewrite get_inherited by exact Hi. cbn [Js.or_num Js.ge]. apply andb_false_r.
Qed.

Lemma run_updateIssue_offline w issueId u d :
  net w = [] ->
  issuesDb w !! issueId = Some d ->
  run (updateIssue issueId u) w =
  (Done tt,
   logged (EvUpdateIssue issueId true)
     (with_issuesDb
        (<[issueId := apply_updates
             {| u_status := u_status u; u_assignedTo := u_assignedTo u;
                u_occupiedAt := to_timestamp <$> u_occupiedAt u;
                u_closedAt := to_timestamp <$> u_closedAt u;
                u_prUrl := u_prUrl u; u_prStatus := u_prStatus u;
                u_lastUpdated := u_lastUpdated u |} d]> (issuesDb w)) w)).
Proof.
  intros Hn Hd. rewrite (run_updateIssue_written w issueId u d Hd).
  - rewrite (arrive_offline w Hn). reflexivity.
  - rewrite (arrive_offline w Hn). reflexivity.
Qed.

Lemma run_updateTeam_offline w teamName u t :
  net w = [] ->
  teamsDb w !! teamName = Some t ->
  run (updateTeam teamName u) w =
  (Done tt,
   logged (EvUpdateTeam teamName true)
     (with_teamsDb (<[teamName := apply_team_updates u t]> (teamsDb w)) w)).
Proof.
  intros Hn Hd. rewrite (run_updateTeam_written w teamName u t Hd).
  - rewrite (arrive_offline w Hn). reflexivity.
  - rewrite (arrive_offline w Hn). reflexivity.
Qed.

Lemma find_team_elem (holder : option string) (teams : list Team) (team : Team) :
  find_team holder teams = Some team -> team ∈ teams /\ holder = Some (name team).
Proof.
  unfold find_team. intros H. apply List.find_some in H as [Hin Heq].
  split; [apply list_elem_of_In; exact Hin|].
  destruct holder as [h|]; [|discriminate]. cbn in Heq.
  apply String.eqb_eq in Heq. congruence.
Qed.

Lemma alter_existing {A} (f : A -> A) (k : string) (m : gmap string A) (x : A) :
  m !! k = Some x -> alter f k m = <[k := f x]> m.
Proof.
  intros H. apply map_eq. intros j. rewrite lookup_alter, lookup_insert.
  destruct (decide (k = j)) as [->|]; [rewrite H|]; reflexivity.
Qed.

(** One round of the sweep, on a store that holds every document it
    touches and answers every call. *)
Lemma run_check_issue (now : Z) (teams : list Team) (issue : Issue) (w : World) :
  net w = [] ->
  is_Some (issuesDb w !! issue_id issue) ->
  (forall t, t ∈ teams -> is_Some (teamsDb w !! name t)) ->
  exists w', run (AppContext.check_issue now teams issue) w = (Done Normal, w') /\
             (issuesDb w', teamsDb w') = sweep_step now teams (issuesDb w, teamsDb w) issue /\
             net w' = [] /\ clock w' = clock w.
Proof.
  intros Hn [d Hd] Hteams. unfold AppContext.check_issue, sweep_step, overdue.
  destruct (Status_eqb (status issue) occupied && Js.truthy_onum (occupiedAt issue)
            && Js.truthy_ostr (assignedTo issue)); cbn [when andb];
    [|exists w; auto].
  destruct (Js.ge (now - or_else (occupiedAt issue) 0)
              (Js.or_num (AppContext.timeouts (head (tags issue)))
                         AppContext.timeouts_medium)); cbn [when];
    [|exists w; auto].
  rewrite run_seq. cbn [fst snd].
  destruct (find_team (assignedTo issue) teams) as [team|] eqn:Hfind.
  - destruct (find_team_elem _ _ _ Hfind) as [Hin _].
    destruct (Hteams team Hin) as [td Htd].
    rewrite run_exec_, (run_updateTeam_offline w _ _ td Hn Htd).
    rewrite run_exec_.
    erewrite run_updateIssue_offline by (cbn; eauto).
    eexists. split; [reflexivity|]. cbn.
    rewrite (alter_existing _ _ _ _ Hd), (alter_existing _ _ _ _ Htd).
    auto.
  - cbn [skip run]. rewrite run_exec_.
    erewrite run_updateIssue_offline by eauto.
    eexists. split; [reflexivity|]. cbn.
    rewrite (alter_existing _ _ _ _ Hd). auto.
Qed.

Lemma sweep_step_dom now teams dbs issue k :
  is_Some ((sweep_step now teams dbs issue).1 !! k) <-> is_Some (dbs.1 !! k).
Proof.
  unfold sweep_step. destruct (overdue now issue); [|reflexivity]. cbn.
  rewrite lookup_alter. destruct (decide (issue_id issue = k)) as [<-|]; [|reflexivity].
  apply fmap_is_Some.
Qed.

Lemma sweep_step_team_dom now teams dbs issue k :
  is_Some ((sweep_step now teams dbs issue).2 !! k) <-> is_Some (dbs.2 !! k).
Proof.
  unfold sweep_step. destruct (overdue now issue); [|reflexivity]. cbn.
  destruct (find_team (assignedTo issue) teams) as [team|]; [|reflexivity].
  rewrite lookup_alter. destruct (decide (name team = k)) as [<-|]; [|reflexivity].
  apply fmap_is_Some.
Qed.

(** The whole loop. *)
Lemma run_sweep_loop (now : Z) (teams : list Team) (issues : list Issue) (w : World) :
  net w = [] ->
  (forall i, i ∈ issues -> is_Some (issuesDb w !! issue_id i)) ->
  (forall t, t ∈ teams -> is_Some (teamsDb w !! name t)) ->
  exists w', run (for_of issues (AppContext.check_issue now teams)) w = (Done Normal, w') /\
             (issuesDb w', teamsDb w')
             = foldl (sweep_step now teams) (issuesDb w, teamsDb w) issues /\
             net w' = [] /\ clock w' = clock w.
Proof.
  revert w. induction issues as [|issue rest IH]; intros w Hn Hi Ht.
  - exists w. auto.
  - cbn [for_of foldl]. rewrite run_round.
    destruct (run_check_issue now teams issue w Hn) as (w1 & Hr & Hdb & Hn1 & Hc1); auto.
    { apply Hi. left. }
    rewrite Hr.
    destruct (IH w1) as (w2 & Hr2 & Hdb2 & Hn2 & Hc2); auto.
    + intros i Hin. apply (f_equal fst) in Hdb. cbn [fst] in Hdb. rewrite Hdb.
      apply sweep_step_dom. apply Hi. right. exact Hin.
    + intros t Hin. apply (f_equal snd) in Hdb. cbn [snd] in Hdb. rewrite Hdb.
      apply sweep_step_team_dom. apply Ht. exact Hin.
    + exists w2. rewrite Hr2, Hdb2, Hdb. repeat split; congruence.
Qed.

(** The issue documents after a pass: released where some round found the
    issue overdue, untouched elsewhere. *)
Lemma sweep_issue_released now teams issues dbs k :
  (foldl (sweep_step now teams) dbs issues).1 !! k =
  if existsb (fun j => overdue now j && String.eqb (issue_id j) k) issues
  then released <$> dbs.1 !! k
  else dbs.1 !! k.
Proof.
  revert dbs. induction issues as [|issue rest IH]; intros dbs; [reflexivity|].
  cbn [foldl existsb]. rewrite IH. unfold sweep_step.
  destruct (overdue now issue) eqn:Ho; cbn [andb orb fst]; [|reflexivity].
  rewrite lookup_alter.
  destruct (String.eqb_spec (issue_id issue) k) as [E|E]; cbn [orb].
  - rewrite decide_True by exact E. subst k.
    destruct (existsb _ rest); destruct (dbs.1 !! issue_id issue); reflexivity.
  - rewrite decide_False by exact E. reflexivity.
Qed.

(** The team documents after a pass: untouched where no round wrote. *)
Lemma sweep_team_untouched now teams issues dbs n :
  (forall j, j ∈ issues -> penalised now teams j <> Some n) ->
  (foldl (sweep_step now teams) dbs issues).2 !! n = dbs.2 !! n.
Proof.
  revert dbs. induction issues as [|issue rest IH]; intros dbs H; [reflexivity|].
  cbn [foldl]. rewrite IH by (intros j Hj; apply H; right; exact Hj).
  pose proof (H issue ltac:(left)) as Hi. unfold penalised in Hi. unfold sweep_step.
  destruct (overdue now issue); [|reflexivity]. cbn [snd].
  destruct (find_team (assignedTo issue) teams) as [team|]; [|reflexivity].
  rewrite lookup_alter_ne; [reflexivity|]. cbn in Hi. congruence.
Qed.

(** A pass changes nothing but the points of a team document. *)
Lemma sweep_team_points_only now teams issues dbs n td :
  dbs.2 !! n = Some td ->
  exists q, (foldl (sweep_step now teams) dbs issues).2 !! n = Some (with_points q td).
Proof.
  revert dbs td. induction issues as [|issue rest IH]; intros dbs td H.
  - exists (points td). cbn [foldl]. rewrite H. destruct td; reflexivity.
  - cbn [foldl]. unfold sweep_step at 2.
    destruct (overdue now issue); [|apply IH; exact H].
    destruct (find_team (assignedTo issue) teams) as [team|]; [|apply IH; exact H].
    destruct (decide (name team = n)) as [E|E].
    + edestruct (IH (alter released (issue_id issue) dbs.1,
                     alter (with_points
                              (Js.max 0 (Js.sub (points team)
                                 (Js.or_num (AppContext.penalties (head (tags issue))) 0))))
                       (name team) dbs.2)) as [q Hq].
      { cbn [snd]. rewrite E, lookup_alter_eq, H. reflexivity. }
      exists q. rewrite Hq. reflexivity.
    + apply IH. cbn [snd]. rewrite lookup_alter_ne by exact E. exact H.
Qed.

Lemma foldl_sweep_app now teams dbs pre post :
  foldl (sweep_step now teams) dbs (pre ++ post)
  = foldl (sweep_step now teams) (foldl (sweep_step now teams) dbs pre) post.
Proof. apply foldl_app. Qed.

Lemma overdue_iff now issue since holder limit penalty :
  status issue = occupied ->
  occupiedAt issue = Some since -> since <> 0 ->
  assignedTo issue = Some holder -> holder <> "" ->
  policy (head (tags issue)) limit penalty ->
  overdue now issue = (limit <=? now - since).
Proof.
  intros Hs Ho Hz Ha Hh Hp. unfold overdue.
  destruct (policy_tables _ _ _ Hp) as [-> _].
  rewrite Hs, Ho, Ha. cbn.
  destruct (Z.eqb_spec since 0); [contradiction|].
  unfold Js.truthy_str. destruct (String.eqb_spec holder ""); [contradiction|].
  reflexivity.
Qed.

(** X30.  An occupied issue with a non-zero [occupiedAt] and a non-empty
    [assignedTo], swept at a time [now] with [now - occupiedAt >= timeLimit]
    of its first tag (easy 20 minutes, medium 40, hard 60; 40 for a missing
    tag and for a tag that names neither a row of the table nor a member
    of [Object.prototype]): the pass writes [max(0, points - penalty)] to
    the assigned team's points (penalty 5, 10, 15, and 0 for the other
    tags), [points] being those of the team in the list the sweep closed
    over, and resets the issue to [open] with [assignedTo], [occupiedAt]
    and [closedAt] cleared.  The issue document ends the pass released;
    the team document ends it with these points when no later round of
    the same pass writes that team again.  An issue held for less than
    its limit keeps its document.  The store holds the documents the pass
    touches and answers its calls. *)
Theorem expiry_sweep_releases_and_penalises
    (w : World) (teams : list Team) (pre post : list Issue) (issue d : Issue)
    (team td : Team) (holder : string) (since limit penalty : Z) :
  status issue = occupied ->
  occupiedAt issue = Some since -> since <> 0 ->
  assignedTo issue = Some holder -> holder <> "" ->
  policy (head (tags issue)) limit penalty ->
  find_team (Some holder) teams = Some team ->
  net w = [] ->
  (forall i, i ∈ (pre ++ issue :: post)%list -> is_Some (issuesDb w !! issue_id i)) ->
  (forall t, t ∈ teams -> is_Some (teamsDb w !! name t)) ->
  issuesDb w !! issue_id issue = Some d ->
  teamsDb w !! name team = Some td ->
  let w' := (run (AppContext.checkExpiredIssues (pre ++ issue :: post)%list teams) w).2 in
  (limit <= clock w - since ->
   issuesDb w' !! issue_id issue = Some (released d) /\
   ((forall j, j ∈ post -> penalised (clock w) teams j <> Some (name team)) ->
    teamsDb w' !! name team
    = Some (with_points (Js.max 0 (Js.sub (points team) penalty)) td))) /\
  (clock w - since < limit ->
   (forall j, j ∈ (pre ++ post)%list -> overdue (clock w) j = true ->
              issue_id j <> issue_id issue) ->
   issuesDb w' !! issue_id issue = Some d).
Proof.
  intros Hs Ho Hz Ha Hh Hp Hfind Hn Hdocs Hteams Hd Htd.
  unfold AppContext.checkExpiredIssues. rewrite run_call, run_bind.
  cbn [perform run handle].
  destruct (run_sweep_loop (clock w) teams (pre ++ issue :: post)%list w Hn Hdocs Hteams)
    as (w1 & Hr & Hdb & _ & _).
  rewrite Hr. cbn [snd].
  pose proof (f_equal fst Hdb) as Hi. pose proof (f_equal snd Hdb) as Ht.
  cbn [fst snd] in Hi, Ht. clear Hdb Hr.
  pose proof (overdue_iff (clock w) issue since holder limit penalty Hs Ho Hz Ha Hh Hp) as Hov.
  split.
  - intros Hlate. apply Z.leb_le in Hlate. rewrite Hlate in Hov. split.
    + rewrite Hi, sweep_issue_released. cbn [fst].
      replace (existsb _ (pre ++ issue :: post)%list) with true; [rewrite Hd; reflexivity|].
      symmetry. apply existsb_exists. exists issue. split.
      * apply in_or_app. right. left. reflexivity.
      * rewrite Hov, String.eqb_refl. reflexivity.
    + intros Hpost. rewrite Ht, foldl_sweep_app. cbn [foldl].
      rewrite sweep_team_untouched by exact Hpost.
      destruct (sweep_team_points_only (clock w) teams pre (issuesDb w, teamsDb w)
                  (name team) td Htd) as [q Hq].
      unfold sweep_step at 1. rewrite Hov, Ha, Hfind. cbn [snd].
      rewrite lookup_alter_eq, Hq. cbn.
      destruct (policy_tables _ _ _ Hp) as [_ ->]. reflexivity.
  - intros Hearly Hothers. apply Z.leb_gt in Hearly. rewrite Hearly in Hov.
    rewrite Hi, sweep_issue_released. cbn [fst].
    destruct (existsb _ (pre ++ issue :: post)%list) eqn:He; [|exact Hd].
    apply existsb_exists in He as (j & Hin & Hj).
    apply andb_prop in Hj as [Hj1 Hj2]. apply String.eqb_eq in Hj2.
    apply in_app_or in Hin as [Hin|[<-|Hin]].
    + exfalso. apply (Hothers j); auto. apply list_elem_of_In, in_or_app. auto.
    + congruence.
    + exfalso. apply (Hothers j); auto. apply list_elem_of_In, in_or_app. auto.
Qed.

Lemma expiry_sweep_releases_and_penalises_witness :
  let hard := sample_issue "I1" "hard" occupied (Some "TeamBravo") (Some 1000) in
  let easy := sample_issue "I2" "easy" occupied (Some "TeamDelta") (Some 3000000) in
  let teams := [mkTeam "TeamBravo" 3 true; mkTeam "TeamDelta" 8 true] in
  let w := sample_world [hard; easy] teams (1000 + 60 * 60 * 1000) in
  let w' := (run (AppContext.checkExpiredIssues [hard; easy] teams) w).2 in
  issuesDb w' !! "I1" = Some (released hard) /\
  teamsDb w' !! "TeamBravo" = Some (mkTeam "TeamBravo" 0 true) /\
  issuesDb w' !! "I2" = Some easy.
Proof.
  intros hard easy teams w w'.
  destruct (expiry_sweep_releases_and_penalises w teams [] [easy] hard hard
              (mkTeam "TeamBravo" 3 true) (mkTeam "TeamBravo" 3 true) "TeamBravo"
              1000 (60 * 60 * 1000) 15) as [Hlate _];
    try reflexivity; try discriminate; try apply policy_hard.
  { intros i Hi. apply list_elem_of_In in Hi.
    destruct Hi as [<-|[<-|[]]]; eexists; reflexivity. }
  { intros t Ht. apply list_elem_of_In in Ht.
    destruct Ht as [<-|[<-|[]]]; eexists; reflexivity. }
  destruct (expiry_sweep_releases_and_penalises w teams [hard] [] easy easy
              (mkTeam "TeamDelta" 8 true) (mkTeam "TeamDelta" 8 true) "TeamDelta"
              3000000 (20 * 60 * 1000) 5) as [_ Hearly];
    try reflexivity; try discriminate; try apply policy_easy.
  { intros i Hi. apply list_elem_of_In in Hi.
    destruct Hi as [<-|[<-|[]]]; eexists; reflexivity. }
  { intros t Ht. apply list_elem_of_In in Ht.
    destruct Ht as [<-|[<-|[]]]; eexists; reflexivity. }
  destruct (Hlate ltac:(vm_compute; discriminate)) as [H1 H2].
  split; [exact H1|]. split.
  - apply H2. intros j Hj. apply list_elem_of_In in Hj.
    destruct Hj as [<-|[]]. vm_compute. discriminate.
  - apply Hearly; [reflexivity|].
    intros j Hj _. apply list_elem_of_In in Hj.
    destruct Hj as [<-|[]]. discriminate.
Defined.

(** The round of an issue whose first tag names a member of
    [Object.prototype] does nothing, however long the issue has been held:
    [timeouts[tag]] is that member, a function or an object and so truthy,
    the default of line 197 is not taken, and [elapsed >= timeLimit] is
    false of a limit that is no number. *)
Lemma prototype_tag_round_does_nothing now teams issue w :
  names_inherited (head (tags issue)) = true ->
  run (AppContext.check_issue now teams issue) w = (Done Normal, w).
Proof.
  intros Hi. unfold AppContext.check_issue, AppContext.timeouts.
  rewrite get_inherited by exact Hi. cbn [Js.or_num Js.ge when].
  destruct (Status_eqb (status issue) occupied && Js.truthy_onum (occupiedAt issue)
            && Js.truthy_ostr (assignedTo issue)); reflexivity.
Qed.

(** A pass goes by such an issue as if the list did not have it. *)
Lemma prototype_tag_is_skipped (w : World) (teams : list Team)
    (pre post : list Issue) (issue : Issue) :
  names_inherited (head (tags issue)) = true ->
  run (AppContext.checkExpiredIssues (pre ++ issue :: post)%list teams) w
  = run (AppContext.checkExpiredIssues (pre ++ post)%list teams) w.
Proof.
  intros Hi. unfold AppContext.checkExpiredIssues. rewrite !run_call, !run_bind.
  cbn [perform run handle].
  assert (H : forall w0, run (for_of (pre ++ issue :: post)%list
                                (AppContext.check_issue (clock w) teams)) w0
                         = run (for_of (pre ++ post)%list
                                  (AppContext.check_issue (clock w) teams)) w0).
  { induction pre as [|i pre IH]; intros w0; cbn [app for_of]; rewrite !run_round.
    - rewrite (prototype_tag_round_does_nothing _ _ _ _ Hi).
      destruct post; [reflexivity|]. cbn [for_of]. rewrite run_round. reflexivity.
    - destruct (run (AppContext.check_issue (clock w) teams i) w0) as [[[| |r]|e] w1];
        try reflexivity; apply IH. }
  rewrite H. reflexivity.
Qed.

(** C5 at its failing input.  TeamBravo has held I1, whose first tag is
    [constructor], for an hour.  The tag is no row of the table, and the
    limit the claim gives it, that of [medium], has passed; but
    [timeouts['constructor']] is the function every object inherits under
    that name, and the pass ends without a single store call: the issue
    stays occupied and no points are deducted. *)
Theorem prototype_tag_is_never_released :
  let issue := sample_issue "I1" "constructor" occupied (Some "TeamBravo") (Some 1000) in
  let teams := [mkTeam "TeamBravo" 40 true] in
  let w := sample_world [issue] teams (1000 + 60 * 60 * 1000) in
  AppContext.timeouts (head (tags issue)) = Js.Inherited /\
  AppContext.timeouts_medium <= clock w - 1000 /\
  run (AppContext.checkExpiredIssues [issue] teams) w = (Done None, w).
Proof. vm_compute. repeat split. discriminate. Qed.

(* ===================================================================== *)
(** * Reviewing a pull request: the merge award *)
(* ===================================================================== *)

Lemma award_table tag value :
  award tag value -> Js.or_num (AppContext.pointsMap tag) 0 = Js.Num value.
Proof.
  intros [| | |t He Hm Hh Hi]; try reflexivity.
  unfold AppContext.pointsMap. rewrite get_missing by assumption. reflexivity.
Qed.

(** C6, as the code has it.  Setting [prStatus] to [merged] on an issue of
    the client's list with a non-null (non-empty) [assignedTo] whose team is
    in the client's team list marks the issue [merged] and sets the team's
    points to the listed points plus the value of the first tag (easy 10,
    medium 20, hard 30; 0 for a missing tag and for a tag that names
    neither a row of the table nor a member of [Object.prototype]),
    whatever the [prStatus] of the issue was: there is no guard against a
    repeated [merged]. *)
Theorem merged_awards_tag_points
    (w : World) (issues : list Issue) (teams : list Team) (issueId holder : string)
    (issue d : Issue) (team td : Team) (value : Z) :
  find_issue issueId issues = Some issue ->
  assignedTo issue = Some holder -> holder <> "" ->
  find_team (Some holder) teams = Some team ->
  award (head (tags issue)) value ->
  net w = [] ->
  issuesDb w !! issueId = Some d ->
  teamsDb w !! name team = Some td ->
  let w' := (run (AppContext.updatePrStatus issues teams issueId merged) w).2 in
  issuesDb w' !! issueId = Some (with_prStatus merged d) /\
  teamsDb w' !! name team = Some (with_points (Js.add (points team) value) td).
Proof.
  intros Hi Ha Hh Hfind Haw Hn Hd Htd.
  unfold AppContext.updatePrStatus. rewrite run_call, run_seq, run_exec_.
  erewrite run_updateIssue_offline by eauto.
  cbn [u_status u_assignedTo u_occupiedAt u_closedAt u_prUrl u_prStatus u_lastUpdated].
  rewrite apply_prStatus_update.
  unfold AppContext.award_merged. rewrite Hi, Ha. cbn [Js.truthy_ostr].
  unfold Js.truthy_str. destruct (String.eqb_spec holder ""); [contradiction|].
  cbn [negb when]. rewrite Hfind, run_exec_.
  erewrite run_updateTeam_offline by (cbn; eauto).
  cbn. rewrite !lookup_insert_eq, (award_table _ _ Haw). auto.
Qed.

Lemma merged_awards_tag_points_witness :
  issuesDb (review_merged review_world) !! "I1"
  = with_prStatus merged <$> issuesDb review_world !! "I1" /\
  teamsDb (review_merged review_world) !! "TeamBravo" = Some (mkTeam "TeamBravo" 10 true).
Proof.
  pose (d := {| issue_id := "I1"; title := "I1"; tags := ["easy"]; status := closed;
                assignedTo := Some "TeamBravo"; occupiedAt := Some 1000;
                closedAt := Some 2000; prUrl := Some "https://x/pull/7";
                prStatus := Some pending; lastUpdated := None |}).
  assert (H1 : find_issue "I1" (issues_snapshot review_world) = Some d)
    by (vm_compute; reflexivity).
  assert (H2 : find_team (Some "TeamBravo") (teams_snapshot review_world)
               = Some (mkTeam "TeamBravo" 0 true)) by (vm_compute; reflexivity).
  assert (H3 : issuesDb review_world !! "I1" = Some d) by (vm_compute; reflexivity).
  assert (H4 : teamsDb review_world !! "TeamBravo" = Some (mkTeam "TeamBravo" 0 true))
    by (vm_compute; reflexivity).
  assert (H5 : ("TeamBravo" : string) <> "") by discriminate.
  destruct (merged_awards_tag_points review_world
              (issues_snapshot review_world) (teams_snapshot review_world)
              "I1" "TeamBravo" d d (mkTeam "TeamBravo" 0 true) (mkTeam "TeamBravo" 0 true)
              10 H1 eq_refl H5 H2 award_easy eq_refl H3 H4) as [G1 G2].
  split; [rewrite H3; exact G1|exact G2].
Defined.

(** C6, as the spec has it, fails: after a first [merged] the issue is
    [merged] and TeamBravo has its 10 points; once the client has seen that,
    a second [merged] on the same issue gives 10 more. *)
Lemma merged_again_awards_again :
  let w1 := review_merged review_world in
  let w2 := review_merged w1 in
  prStatus <$> issuesDb w1 !! "I1" = Some (Some merged) /\
  points <$> teamsDb w1 !! "TeamBravo" = Some (Js.Num 10) /\
  points <$> teamsDb w2 !! "TeamBravo" = Some (Js.Num 20) /\
  teamsDb w2 !! "TeamBravo" <> teamsDb w1 !! "TeamBravo".
Proof. vm_compute. repeat split; discriminate. Qed.

(** A first tag that names a member of [Object.prototype]:
    [pointsMap[tag]] is that member, [team.points + points] joins the two
    as texts, and the team document is left with points that are no
    number. *)
Lemma merged_prototype_tag_spoils_points
    (w : World) (issues : list Issue) (teams : list Team) (issueId holder : string)
    (issue d : Issue) (team td : Team) :
  find_issue issueId issues = Some issue ->
  assignedTo issue = Some holder -> holder <> "" ->
  find_team (Some holder) teams = Some team ->
  names_inherited (head (tags issue)) = true ->
  net w = [] ->
  issuesDb w !! issueId = Some d ->
  teamsDb w !! name team = Some td ->
  let w' := (run (AppContext.updatePrStatus issues teams issueId merged) w).2 in
  teamsDb w' !! name team = Some (with_points Js.NotNum td).
Proof.
  intros Hi Ha Hh Hfind Hinh Hn Hd Htd.
  unfold AppContext.updatePrStatus. rewrite run_call, run_seq, run_exec_.
  erewrite run_updateIssue_offline by eauto.
  cbn [u_status u_assignedTo u_occupiedAt u_closedAt u_prUrl u_prStatus u_lastUpdated].
  rewrite apply_prStatus_update.
  unfold AppContext.award_merged. rewrite Hi, Ha. cbn [Js.truthy_ostr].
  unfold Js.truthy_str. destruct (String.eqb_spec holder ""); [contradiction|].
  cbn [negb when]. rewrite Hfind, run_exec_.
  erewrite run_updateTeam_offline by (cbn; eauto).
  unfold AppContext.pointsMap. rewrite get_inherited by exact Hinh.
  cbn. rewrite !lookup_insert_eq. destruct (points team); reflexivity.
Qed.

Example merged_constructor_tag :
  let d := sample_issue "I1" "constructor" closed (Some "TeamBravo") (Some 1000) in
  let teams := [mkTeam "TeamBravo" 10 true] in
  let w := sample_world [d] teams 5000 in
  points <$> teamsDb (run (AppContext.updatePrStatus [d] teams "I1" merged) w).2
               !! "TeamBravo"
  = Some Js.NotNum.
Proof. vm_compute. reflexivity. Qed.

(* ===================================================================== *)
(** * The optimistic update and its rollback *)
(* ===================================================================== *)

(** C7.  Whatever [occupyIssueTransaction] the client is wired to, whatever
    the network does and whatever the subscription feeds meanwhile: when
    [occupyIssue] has passed its local checks (so the speculative mutation
    is applied) and returns a result with [success = false], the client's
    issue list is the list the call started from. *)
Theorem occupyIssue_rollback
    (tx : string -> string -> Prog (option Result)) (w w' : World)
    (currentTeam : Team) (issues : list Issue) (issueId : string)
    (issue : Issue) (result : Result) :
  onLine w = true ->
  find_issue issueId issues = Some issue ->
  status issue = open ->
  (AppContext.teamOccupiedCount (name currentTeam) issues < 3)%nat ->
  run (AppContext.occupyIssue tx (Some currentTeam) issues issueId) w
  = (Done (Some result), w') ->
  success result = false ->
  issues_state w' = issues.
Proof.
  intros Hon Hfind Hopen Hcount Hrun Hfail.
  unfold AppContext.occupyIssue in Hrun.
  rewrite run_call, run_bind in Hrun. cbn [perform run handle] in Hrun.
  rewrite Hon, Hfind, Hopen in Hrun. cbn [negb when Status_eqb] in Hrun.
  apply Nat.leb_gt in Hcount. rewrite Hcount in Hrun.
  repeat (rewrite run_seq in Hrun; cbn [when skip run] in Hrun).
  rewrite run_bind in Hrun. cbn [perform run handle] in Hrun.
  rewrite run_seq, run_exec_ in Hrun. cbn [perform run handle] in Hrun.
  rewrite run_bind in Hrun.
  destruct (run (AppContext.attemptTransaction tx 3 issueId (name currentTeam) 0) _)
    as [[r|e] w1]; [|discriminate].
  rewrite run_seq in Hrun.
  destruct (success r) eqn:Hs; cbn [negb when skip run] in Hrun.
  - cbn in Hrun. congruence.
  - rewrite run_exec_ in Hrun. cbn in Hrun.
    injection Hrun as _ <-. reflexivity.
Qed.

Lemma occupyIssue_rollback_witness :
  let out := run (AppContext.occupyIssue PlainService.occupyIssueTransaction
                    (Some (mkTeam "TeamBravo" 0 true)) stale_list "I1")
                 stale_client_world in
  out.1 = Done (Some (failure (msg_already occupied))) /\
  issues_state out.2 = stale_list.
Proof.
  intros out.
  assert (H1 : out.1 = Done (Some (failure (msg_already occupied))))
    by (vm_compute; reflexivity).
  split; [exact H1|].
  refine (occupyIssue_rollback PlainService.occupyIssueTransaction stale_client_world
            out.2 (mkTeam "TeamBravo" 0 true) stale_list "I1"
            (sample_issue "I1" "easy" open None None)
            (failure (msg_already occupied)) eq_refl eq_refl eq_refl _ _ eq_refl).
  - vm_compute. lia.
  - rewrite <- H1. unfold out. apply surjective_pairing.
Defined.

(* ===================================================================== *)
(** * From program trees to runs *)
(* ===================================================================== *)

Lemma run_all_events {A} (P : forall X, Eff X -> Prop) (I : World -> Prop) (p : Prog A) :
  (forall X (e : Eff X) w, P X e -> I w -> I (handle e w).2) ->
  all_events P p -> forall w, I w -> I (run p w).2.
Proof.
  intros Hstep. induction p as [a|e|X e k IH]; intros Hp w Hw; cbn; auto.
  destruct Hp as [He Hk]. specialize (Hstep X e w He Hw).
  destruct (handle e w) as [x w1]. apply IH; auto.
Qed.

Lemma run_always_returns {A} (Q : A -> Prop) (p : Prog A) (w : World) :
  always_returns Q p -> exists a, (run p w).1 = Done a /\ Q a.
Proof.
  revert w. induction p as [a|e|X e k IH]; intros w Hp; cbn in *.
  - exists a. auto.
  - contradiction.
  - destruct (handle e w) as [x w1]. apply IH, Hp.
Qed.

Lemma transactions_in_app l ev :
  transactions_in (l ++ [ev])
  = (transactions_in l + match ev with EvTransaction _ _ => 1 | _ => 0 end)%nat.
Proof.
  unfold transactions_in. rewrite List.filter_app, length_app.
  destruct ev; reflexivity.
Qed.

Lemma timeouts_in_app l ev :
  timeouts_in (l ++ [ev])
  = (timeouts_in l ++ match ev with EvTimeout ms => [ms] | _ => [] end)%list.
Proof.
  unfold timeouts_in. rewrite omap_app. destruct ev; reflexivity.
Qed.

(** An event adds one transaction to the log when it is one, none
    otherwise. *)
Lemma handle_transactions {X} (e : Eff X) (w : World) :
  transactions_in (log (handle e w).2)
  = (transactions_in (log w) + if is_transaction e then 1 else 0)%nat.
Proof.
  pose proof (log_arrive w) as Hl.
  destruct e; cbn -[transactions_in]; try lia;
    try (destruct (arrive w) as [n w1]; cbn [snd] in Hl;
         repeat match goal with
                | |- context [match ?x with _ => _ end] => destruct x
                end; cbn -[transactions_in];
         rewrite ?transactions_in_app, ?Hl; cbn; lia).
Qed.

(** An event that is not a timer wait leaves the recorded waits alone. *)
Lemma handle_timeouts {X} (e : Eff X) (w : World) :
  is_timer e = false -> timeouts_in (log (handle e w).2) = timeouts_in (log w).
Proof.
  pose proof (log_arrive w) as Hl.
  destruct e; cbn -[timeouts_in]; intros Ht; try reflexivity; try discriminate;
    destruct (arrive w) as [n w1]; cbn [snd] in Hl;
    repeat match goal with
           | |- context [match ?x with _ => _ end] => destruct x
           end; cbn -[timeouts_in];
    rewrite ?timeouts_in_app, ?Hl; cbn -[timeouts_in]; rewrite ?app_nil_r; reflexivity.
Qed.

Lemma run_at_most_transactions {A} (p : Prog A) (n : nat) :
  at_most (@is_transaction) n p ->
  forall w, (transactions_in (log (run p w).2) <= transactions_in (log w) + n)%nat.
Proof.
  revert n. induction p as [a|e|X e k IH]; intros n Hp w; cbn in *; try lia.
  pose proof (handle_transactions e w) as Hh.
  destruct (handle e w) as [x w1]. cbn [snd] in Hh.
  destruct (is_transaction e).
  - destruct n as [|n']; [contradiction|].
    specialize (IH x n' (Hp x) w1). lia.
  - specialize (IH x n (Hp x) w1). lia.
Qed.

(** An event that does not write the entry of another team leaves it alone. *)
Lemma handle_other_entry {X} (e : Eff X) (w : World) (team other : string) :
  touches_other_entry team e = false -> other <> team ->
  teamIssueCountCache (handle e w).2 !! other = teamIssueCountCache w !! other.
Proof.
  pose proof (cache_arrive w) as Hc.
  destruct e; cbn; intros Ht Hne; try reflexivity;
    try (destruct (arrive w) as [n w1]; cbn [snd] in Hc;
         repeat match goal with
                | |- context [match ?x with _ => _ end] => destruct x
                end; cbn; rewrite ?Hc; reflexivity).
  - apply negb_false_iff, String.eqb_eq in Ht. subst. apply lookup_insert_ne. congruence.
  - apply negb_false_iff, String.eqb_eq in Ht. subst. apply lookup_delete_ne. congruence.
Qed.

(* ===================================================================== *)
(** * The shape of [occupyIssueTransaction] *)
(* ===================================================================== *)

Ltac open_service :=
  unfold CachedService.occupyIssueTransaction, CachedService.try_block,
    CachedService.attempt_try, CachedService.attempt_catch,
    CachedService.outer_catch, PlainService.occupyIssueTransaction,
    call, seq, when, exec_, perform, await, round, return_, skip, continue_,
    assign, read, unresolved.

(** Walks a program tree: every event, every answer, every branch.  The
    rounds of the retry loop that follow the first are taken as an
    arbitrary statement: no path reaches them. *)
Ltac walk :=
  repeat (cbn;
          match goal with
          | |- True => exact I
          | |- _ /\ _ => split
          | |- forall _, _ => intro
          | |- context [for_lt (Z.to_nat ?m) _ _ _] => destruct (Z.to_nat m)
          | |- context [for_lt ?n ?a ?b ?body] =>
              is_var n; generalize (for_lt n a b body); intro
          | |- context [match ?x with _ => _ end] =>
              lazymatch type of x with
              | Prog _ => fail
              | Stmt _ => fail
              | _ => destruct x eqn:?
              end
          end).

(** The random draw, the enumeration of the cache and the deletion of an
    entry occur on no path through the function: the statements after the
    [try]/[catch] are never reached, because every path through the [try]
    block and through the [catch] block returns. *)
Lemma cached_never_evicts issueId teamName maxRetries :
  all_events (fun X e => is_eviction e = false)
    (CachedService.occupyIssueTransaction issueId teamName maxRetries).
Proof. open_service. walk. all: reflexivity. Qed.

Lemma cached_own_entry_only issueId teamName maxRetries :
  all_events (fun X e => touches_other_entry teamName e = false)
    (CachedService.occupyIssueTransaction issueId teamName maxRetries).
Proof. open_service. walk. all: try reflexivity. all: cbn; rewrite String.eqb_refl; reflexivity. Qed.

(** No path waits on a timer. *)
Lemma cached_never_waits issueId teamName maxRetries :
  all_events (fun X e => is_timer e = false)
    (CachedService.occupyIssueTransaction issueId teamName maxRetries).
Proof. open_service. walk. all: reflexivity. Qed.

(** No path runs a second transaction. *)
Lemma cached_one_transaction issueId teamName maxRetries :
  at_most (@is_transaction) 1
    (CachedService.occupyIssueTransaction issueId teamName maxRetries).
Proof. open_service. walk. Qed.

(** Every path returns a result object. *)
Lemma cached_always_returns issueId teamName maxRetries :
  always_returns (fun r => r <> None)
    (CachedService.occupyIssueTransaction issueId teamName maxRetries).
Proof. open_service. walk. all: discriminate. Qed.

Lemma plain_always_returns issueId teamName :
  always_returns (fun r => r <> None)
    (PlainService.occupyIssueTransaction issueId teamName).
Proof. open_service. walk. all: discriminate. Qed.

(* ===================================================================== *)
(** * The quota cache is never swept *)
(* ===================================================================== *)

(** Whatever the random draw and however old the entries: a call leaves
    the cache entry of every other team as it was. *)
Lemma other_entries_outlive_the_call (w : World) (issueId teamName other : string)
    (maxRetries : Z) :
  other <> teamName ->
  teamIssueCountCache
    (run (CachedService.occupyIssueTransaction issueId teamName maxRetries) w).2 !! other
  = teamIssueCountCache w !! other.
Proof.
  intros Hne.
  apply (run_all_events (fun X e => touches_other_entry teamName e = false)
           (fun w' => teamIssueCountCache w' !! other = teamIssueCountCache w !! other)).
  - intros X e w0 He Hw0. rewrite <- Hw0. apply (handle_other_entry e w0 teamName); auto.
  - apply cached_own_entry_only.
  - reflexivity.
Qed.

(** C8 at its failing input.  The draw is 0.05, the entry of TeamDelta is
    100 seconds old, and the call by TeamBravo leaves it in the cache. *)
Theorem expired_entry_is_not_evicted :
  let w := expired_cache_world in
  let w' := (run (CachedService.occupyIssueTransaction "I1" "TeamBravo"
                    CachedService.default_maxRetries) w).2 in
  Qle_bool (1 # 10) (random w) = false /\
  teamIssueCountCache w !! "TeamDelta" = Some {| count := 1; timestamp := 0 |} /\
  CachedService.CACHE_TTL < clock w' - 0 /\
  teamIssueCountCache w' !! "TeamDelta" = Some {| count := 1; timestamp := 0 |}.
Proof. vm_compute. repeat split. Qed.

(* ===================================================================== *)
(** * The retry loop never retries *)
(* ===================================================================== *)

(** Whatever happens, a call runs at most one transaction and waits on no
    timer. *)
Lemma cached_never_retries (w : World) (issueId teamName : string) (maxRetries : Z) :
  let w' := (run (CachedService.occupyIssueTransaction issueId teamName maxRetries) w).2 in
  (transactions_in (log w') <= transactions_in (log w) + 1)%nat /\
  timeouts_in (log w') = timeouts_in (log w).
Proof.
  split.
  - apply run_at_most_transactions, cached_one_transaction.
  - apply (run_all_events (fun X e => is_timer e = false)
             (fun w' => timeouts_in (log w') = timeouts_in (log w))).
    + intros X e w0 He Hw0. rewrite <- Hw0. apply handle_timeouts, He.
    + apply cached_never_waits.
    + reflexivity.
Qed.

(** C4 at its failing input.  The transaction of the first attempt meets a
    transport failure, whose message does not contain "already"; with the
    default of three attempts the call returns at once, after one
    transaction and no wait, and the message it returns is that of the
    [ReferenceError] raised by the assignment to [lastError]. *)
Theorem transient_failure_is_not_retried :
  let out := run (CachedService.occupyIssueTransaction "I1" "TeamBravo"
                    CachedService.default_maxRetries) transient_world in
  Js.includes (Js.message network_error) "already" = false /\
  out.1 = Done (Some (failure "Cannot access 'lastError' before initialization")) /\
  transactions_in (log out.2) = 1%nat /\
  timeouts_in (log out.2) = [].
Proof. vm_compute. repeat split. Qed.

(** The loop of lines 653-698 on the same failures: three transactions,
    waits of 1000 and 2000 ms, and the last error's message. *)
Example sibling_loop_retries :
  let out := run (call (CachedService.sibling_loop 4 "I1" "TeamBravo" 3 0 None))
                 (with_net [failing; failing; failing] transient_world) in
  out.1 = Done (Some (failure (Js.message network_error))) /\
  transactions_in (log out.2) = 3%nat /\
  timeouts_in (log out.2) = [1000; 2000].
Proof. vm_compute. repeat split. Qed.

(** A terminal failure from the transaction meets the same fate: the
    message that reaches the caller is not the one thrown. *)
Example terminal_failure_loses_its_message :
  let w := with_issues_state [] held_world in
  (run (call (try_catch
          (CachedService.attempt_try "I1" "TeamBravo" None 5000)
          (CachedService.attempt_catch 3 Js.Uninitialized))) w).1
  = Raised (reference_error "Cannot access 'lastError' before initialization").
Proof. vm_compute. reflexivity. Qed.

(* ===================================================================== *)
(** * Claiming an issue that is not open *)
(* ===================================================================== *)

Lemma truthy_str_true s : s <> "" -> Js.truthy_str s = true.
Proof.
  intros H. unfold Js.truthy_str.
  destruct (String.eqb_spec s ""); [contradiction|reflexivity].
Qed.

(** A read of one document, when it gets through. *)
Lemma run_getDoc w issueId :
  fault (arrive w).1 = None ->
  run (await (GetDoc issueId)) w
  = (Done (issuesDb w !! issueId), logged (EvGetDoc issueId) (arrive w).2).
Proof.
  intros Hf. unfold await. cbn [run handle].
  pose proof (issuesDb_arrive w) as Hi.
  destruct (arrive w) as [n w1]. cbn [fst snd] in *.
  rewrite Hf. cbn. rewrite Hi. reflexivity.
Qed.

(** C3, as the code has it.  An issue whose status is [occupied] gets the
    generic failure "This issue is already occupied. Please choose another
    issue." from [occupyIssueTransaction], whoever holds it, the claiming
    team included, and nothing is written.  The error "Your team is already
    assigned to this issue." is thrown by the transaction body exactly for
    a document that is still [open] and whose [assignedTo] is the claiming
    team. *)
Theorem occupied_issue_is_already_occupied
    (w : World) (issueId teamName : string) (maxRetries : Z) (d : Issue) :
  issueId <> "" -> teamName <> "" ->
  issuesDb w !! issueId = Some d ->
  status d = occupied ->
  fault (arrive w).1 = None ->
  let out := run (CachedService.occupyIssueTransaction issueId teamName maxRetries) w in
  out.1 = Done (Some (failure "This issue is already occupied. Please choose another issue.")) /\
  issuesDb out.2 = issuesDb w /\
  forall now doc,
    CachedService.transaction_body teamName now doc = inl (Js.new_Error msg_self) <->
    exists d', doc = Some d' /\ status d' = open /\ assignedTo d' = Some teamName.
Proof.
  intros Hi Ht Hd Hs Hf out. unfold out; clear out.
  unfold CachedService.occupyIssueTransaction, CachedService.try_block.
  rewrite run_call, run_seq, run_try_catch, run_seq.
  rewrite (truthy_str_true _ Hi), (truthy_str_true _ Ht). cbn [negb orb when skip run].
  rewrite run_bind, (run_getDoc w issueId Hf), Hd, run_seq, Hs.
  cbn. rewrite issuesDb_arrive. split; [reflexivity|]. split; [reflexivity|].
  intros now doc. unfold CachedService.transaction_body. split.
  - destruct doc as [d'|]; [|discriminate].
    destruct (status d') eqn:Hs'; cbn; try discriminate.
    destruct (assignedTo d') as [a|] eqn:Ha; cbn; [|discriminate].
    destruct (String.eqb_spec a teamName); [|discriminate].
    intros _. exists d'. subst. auto.
  - intros (d' & -> & Hs' & Ha). rewrite Hs', Ha. cbn. rewrite String.eqb_refl. reflexivity.
Qed.

Lemma occupied_issue_is_already_occupied_witness :
  let out := run (CachedService.occupyIssueTransaction "I1" "TeamDelta"
                    CachedService.default_maxRetries) held_world in
  out.1 = Done (Some (failure "This issue is already occupied. Please choose another issue.")) /\
  issuesDb out.2 = issuesDb held_world.
Proof.
  destruct (occupied_issue_is_already_occupied held_world "I1" "TeamDelta"
              CachedService.default_maxRetries
              (sample_issue "I1" "easy" occupied (Some "TeamBravo") (Some 1000)))
    as (H1 & H2 & _); try reflexivity; try discriminate.
  split; [exact H1|exact H2].
Defined.

(** C3, as the spec has it, fails: I1 is occupied by TeamBravo, TeamBravo
    claims it again, and the failure is the generic one. *)
Lemma self_held_issue_gets_generic_failure :
  let out := run (CachedService.occupyIssueTransaction "I1" "TeamBravo"
                    CachedService.default_maxRetries) held_world in
  status <$> issuesDb held_world !! "I1" = Some occupied /\
  assignedTo <$> issuesDb held_world !! "I1" = Some (Some "TeamBravo") /\
  out.1 = Done (Some (failure "This issue is already occupied. Please choose another issue.")) /\
  out.1 <> Done (Some (failure "Your team is already assigned to this issue.")).
Proof. vm_compute. repeat split. discriminate. Qed.

(* ===================================================================== *)
(** * The quota of three occupied issues *)
(* ===================================================================== *)

Lemma length_query_docs teamName db :
  length (query_docs (CachedService.team_query teamName) db)
  = Nat.min 3 (occupied_count teamName db).
Proof.
  unfold query_docs, occupied_count. cbn [q_limit CachedService.team_query].
  rewrite length_take, length_fmap, length_map_to_list. reflexivity.
Qed.

Lemma length_query_all teamName db :
  length (query_docs {| q_assignedTo := teamName; q_status := occupied; q_limit := None |} db)
  = occupied_count teamName db.
Proof.
  unfold query_docs, occupied_count. cbn [q_limit].
  rewrite length_fmap, length_map_to_list. reflexivity.
Qed.

Lemma run_getDocs w q :
  fault (arrive w).1 = None ->
  run (await (GetDocs q)) w
  = (Done (query_docs q (issuesDb w)), logged (EvGetDocs q) (arrive w).2).
Proof.
  intros Hf. unfold await. cbn [run handle].
  pose proof (issuesDb_arrive w) as Hi.
  destruct (arrive w) as [n w1]. cbn [fst snd] in *.
  rewrite Hf. cbn. rewrite Hi. reflexivity.
Qed.

Lemma quiet_arrive w : net w = [] -> fault (arrive w).1 = None.
Proof. intros H. rewrite (arrive_offline w H). reflexivity. Qed.


Lemma for_lt_first {R} (maxRetries : Z) (body : Z -> Stmt R) :
  0 < maxRetries ->
  exists rest, for_lt (Z.to_nat maxRetries) 0 maxRetries body = round (body 0) rest.
Proof.
  intros H. destruct (Z.to_nat maxRetries) as [|n] eqn:E; [lia|].
  cbn [for_lt]. apply Z.ltb_lt in H. rewrite H. eauto.
Qed.

(** One attempt whose quota query finds three issues. *)
Lemma run_attempt_try_quota w issueId teamName cachedCount currentTime :
  CachedService.stale cachedCount currentTime = true ->
  net w = [] ->
  (3 <= occupied_count teamName (issuesDb w))%nat ->
  run (CachedService.attempt_try issueId teamName cachedCount currentTime) w
  = (Done (Return (failure msg_quota)),
     logged (EvGetDocs (CachedService.team_query teamName)) w).
Proof.
  intros Hst Hn Hc. unfold CachedService.attempt_try.
  rewrite run_seq, Hst. cbn [when].
  rewrite run_bind, (run_getDocs w _ (quiet_arrive w Hn)), (arrive_offline w Hn).
  cbn [snd]. rewrite run_seq, length_query_docs.
  replace (3 <=? Z.of_nat (Nat.min 3 (occupied_count teamName (issuesDb w)))) with true
    by (symmetry; apply Z.leb_le; lia).
  reflexivity.
Qed.

Lemma stale_fresh cachedCount currentTime :
  CachedService.stale cachedCount currentTime = negb (CachedService.fresh cachedCount currentTime).
Proof.
  unfold CachedService.stale, CachedService.fresh. destruct cachedCount; [|reflexivity].
  rewrite Z.leb_antisym. reflexivity.
Qed.

Lemma cached_rejects_over_quota (w : World) (issueId teamName : string) (maxRetries : Z) (d : Issue) :
  issueId <> "" -> teamName <> "" ->
  0 < maxRetries ->
  net w = [] ->
  issuesDb w !! issueId = Some d -> status d = open ->
  (3 <= occupied_count teamName (issuesDb w))%nat ->
  (forall c, teamIssueCountCache w !! teamName = Some c ->
             clock w - timestamp c < CachedService.CACHE_TTL -> 3 <= count c) ->
  let out := run (CachedService.occupyIssueTransaction issueId teamName maxRetries) w in
  out.1 = Done (Some (failure msg_quota)) /\ issuesDb out.2 = issuesDb w.
Proof.
  intros Hi Ht Hm Hn Hd Hs Hc Hcache out. unfold out; clear out.
  unfold CachedService.occupyIssueTransaction, CachedService.try_block.
  rewrite run_call, run_seq, run_try_catch, run_seq.
  rewrite (truthy_str_true _ Hi), (truthy_str_true _ Ht). cbn [negb orb when skip run].
  rewrite run_bind, (run_getDoc w issueId (quiet_arrive w Hn)), Hd, run_seq, Hs.
  cbn [Status_eqb negb when skip run].
  rewrite (arrive_offline w Hn). cbn [snd].
  rewrite run_bind. cbn [perform run handle].
  rewrite run_bind. cbn [perform run handle].
  cbn [clock logged teamIssueCountCache].
  rewrite run_seq.
  destruct (CachedService.fresh (teamIssueCountCache w !! teamName) (clock w)) eqn:Hfresh.
  - destruct (teamIssueCountCache w !! teamName) as [c|] eqn:Hcc; [|discriminate].
    cbn in Hfresh. apply Z.ltb_lt in Hfresh.
    pose proof (Hcache c eq_refl Hfresh) as H3. apply Z.leb_le in H3. rewrite H3.
    cbn. auto.
  - cbn [andb when skip run].
    destruct (for_lt_first maxRetries
                (fun _ : Z =>
                   try_catch (CachedService.attempt_try issueId teamName
                                (teamIssueCountCache w !! teamName) (clock w))
                             (CachedService.attempt_catch maxRetries Js.Uninitialized)) Hm)
      as [rest ->].
    rewrite run_seq, run_round, run_try_catch, run_attempt_try_quota; auto.
    rewrite stale_fresh, Hfresh. reflexivity.
Qed.

Lemma plain_rejects_over_quota (w : World) (issueId teamName : string) :
  net w = [] ->
  (3 <= occupied_count teamName (issuesDb w))%nat ->
  let out := run (PlainService.occupyIssueTransaction issueId teamName) w in
  out.1 = Done (Some (failure msg_quota)) /\ issuesDb out.2 = issuesDb w.
Proof.
  intros Hn Hc out. unfold out; clear out.
  unfold PlainService.occupyIssueTransaction.
  rewrite run_call, run_try_catch, run_bind.
  rewrite (run_getDocs w _ (quiet_arrive w Hn)), (arrive_offline w Hn).
  cbn [snd]. rewrite run_seq, length_query_all.
  replace (3 <=? Z.of_nat (occupied_count teamName (issuesDb w))) with true
    by (symmetry; apply Z.leb_le; lia).
  cbn. auto.
Qed.

Lemma client_rejects_over_quota
    (tx : string -> string -> Prog (option Result)) (w : World) (team : Team)
    (issues : list Issue) (issueId : string) (issue : Issue) :
  onLine w = true ->
  find_issue issueId issues = Some issue ->
  status issue = open ->
  (3 <= AppContext.teamOccupiedCount (name team) issues)%nat ->
  run (AppContext.occupyIssue tx (Some team) issues issueId) w
  = (Done (Some (failure msg_quota)), w).
Proof.
  intros Hon Hfind Hopen Hcount. unfold AppContext.occupyIssue.
  rewrite run_call, run_bind. cbn [perform run handle].
  rewrite Hon, Hfind, Hopen. cbn [negb when Status_eqb].
  apply Nat.leb_le in Hcount. rewrite Hcount.
  repeat (rewrite run_seq; cbn [when skip run return_]).
  reflexivity.
Qed.

(** A transaction on an open document that is not assigned to the team. *)
Lemma run_transaction_commits w issueId teamName d :
  net w = [] ->
  issuesDb w !! issueId = Some d -> status d = open ->
  assignedTo d <> Some teamName ->
  run (await (RunTransaction issueId (CachedService.transaction_body teamName))) w
  = (Done ok,
     logged (EvTransaction issueId true)
       (with_issuesDb (<[issueId := claimed teamName (clock w) d]> (issuesDb w)) w)).
Proof.
  intros Hn Hd Hs Ha. unfold await. cbn [run handle].
  rewrite (arrive_offline w Hn). cbn [fault quiet]. rewrite Hd.
  unfold CachedService.transaction_body. rewrite Hs. cbn [Status_eqb negb].
  replace (Js.seq_ostr (assignedTo d) teamName) with false.
  - reflexivity.
  - symmetry. destruct (assignedTo d) as [a|]; [|reflexivity]. cbn.
    apply String.eqb_neq. congruence.
Qed.

Lemma cached_admits_under_quota (w : World) (issueId teamName : string) (maxRetries : Z) (d : Issue) :
  issueId <> "" -> teamName <> "" ->
  0 < maxRetries ->
  net w = [] ->
  issuesDb w !! issueId = Some d -> status d = open ->
  assignedTo d <> Some teamName ->
  CachedService.stale (teamIssueCountCache w !! teamName) (clock w) = true ->
  (occupied_count teamName (issuesDb w) < 3)%nat ->
  let out := run (CachedService.occupyIssueTransaction issueId teamName maxRetries) w in
  out.1 = Done (Some ok) /\
  issuesDb out.2 = <[issueId := claimed teamName (clock w) d]> (issuesDb w).
Proof.
  intros Hi Ht Hm Hn Hd Hs Ha Hst Hc out. unfold out; clear out.
  unfold CachedService.occupyIssueTransaction, CachedService.try_block.
  rewrite run_call, run_seq, run_try_catch, run_seq.
  rewrite (truthy_str_true _ Hi), (truthy_str_true _ Ht). cbn [negb orb when skip run].
  rewrite run_bind, (run_getDoc w issueId (quiet_arrive w Hn)), Hd, run_seq, Hs.
  cbn [Status_eqb negb when skip run].
  rewrite (arrive_offline w Hn). cbn [snd].
  rewrite run_bind. cbn [perform run handle].
  rewrite run_bind. cbn [perform run handle].
  cbn [clock logged teamIssueCountCache].
  rewrite run_seq.
  rewrite stale_fresh in Hst. apply negb_true_iff in Hst. rewrite Hst.
  cbn [andb when skip run].
  destruct (for_lt_first maxRetries
              (fun _ : Z =>
                 try_catch (CachedService.attempt_try issueId teamName
                              (teamIssueCountCache w !! teamName) (clock w))
                           (CachedService.attempt_catch maxRetries Js.Uninitialized)) Hm)
    as [rest ->].
  rewrite run_seq, run_round, run_try_catch.
  unfold CachedService.attempt_try.
  rewrite run_seq, stale_fresh, Hst. cbn [negb when].
  rewrite run_bind, run_getDocs by (apply quiet_arrive; exact Hn).
  rewrite arrive_offline by exact Hn. cbn [snd issuesDb logged].
  rewrite run_seq, length_query_docs.
  replace (3 <=? Z.of_nat (Nat.min 3 (occupied_count teamName (issuesDb w)))) with false
    by (symmetry; apply Z.leb_gt; lia).
  cbn [when skip run]. rewrite run_exec_. cbn [perform run handle].
  rewrite run_bind.
  erewrite run_transaction_commits; [|cbn; exact Hn|cbn; exact Hd|exact Hs|exact Ha].
  rewrite run_bind. cbn [perform run handle]. cbn.
  rewrite lookup_insert_eq. cbn. auto.
Qed.

Lemma occupied_count_release teamName (db : gmap string Issue) j dj d' :
  db !! j = Some dj ->
  matches (CachedService.team_query teamName) dj = true ->
  matches (CachedService.team_query teamName) d' = false ->
  occupied_count teamName (<[j := d']> db) = Nat.pred (occupied_count teamName db).
Proof.
  intros Hj Hm Hm'. unfold occupied_count.
  rewrite map_filter_insert_False by (cbn; congruence).
  rewrite map_filter_delete. apply map_size_delete_Some.
  exists dj. apply map_lookup_filter_Some. auto.
Qed.

Lemma run_closeIssue w j url dj :
  net w = [] ->
  issuesDb w !! j = Some dj ->
  only_whitespace url = false ->
  let w1 := (run (AppContext.closeIssue j url) w).2 in
  (exists d', status d' = closed /\ issuesDb w1 = <[j := d']> (issuesDb w)) /\
  net w1 = [] /\ teamIssueCountCache w1 = teamIssueCountCache w /\ clock w1 = clock w.
Proof.
  intros Hn Hj Hb. unfold AppContext.closeIssue.
  rewrite run_call, run_seq, blank_guard, Hb. cbn [when skip run].
  rewrite run_bind. cbn [perform run handle].
  rewrite run_seq, run_exec_. unfold fire_and_forget.
  rewrite run_try_catch, run_bind.
  erewrite run_updateIssue_offline by eauto.
  cbn. split; [|auto]. eexists. split; [|reflexivity]. reflexivity.
Qed.

Lemma plain_admits_under_quota (w : World) (issueId teamName : string) (d : Issue) :
  net w = [] ->
  issuesDb w !! issueId = Some d -> status d = open ->
  (occupied_count teamName (issuesDb w) < 3)%nat ->
  let out := run (PlainService.occupyIssueTransaction issueId teamName) w in
  out.1 = Done (Some ok) /\
  status <$> issuesDb out.2 !! issueId = Some occupied /\
  assignedTo <$> issuesDb out.2 !! issueId = Some (Some teamName).
Proof.
  intros Hn Hd Hs Hc out. unfold out; clear out.
  unfold PlainService.occupyIssueTransaction.
  rewrite run_call, run_try_catch, run_bind.
  rewrite (run_getDocs w _ (quiet_arrive w Hn)), (arrive_offline w Hn).
  cbn [snd]. rewrite run_seq, length_query_all.
  replace (3 <=? Z.of_nat (occupied_count teamName (issuesDb w))) with false
    by (symmetry; apply Z.leb_gt; lia).
  cbn [when skip run]. rewrite run_bind. unfold await. cbn [run handle].
  rewrite arrive_offline by (cbn; exact Hn). cbn [fault quiet issuesDb logged].
  rewrite Hd. unfold PlainService.transaction_body. rewrite Hs. cbn.
  rewrite lookup_insert_eq. cbn. auto.
Qed.

(** C2, as the code has it.  The issue claimed exists and is open, the ids
    are not empty, at least one attempt is allowed and the store answers.
    When the store holds at least three issues as occupied by the team:
    the cached service returns the quota failure and writes nothing,
    provided the team's cache entry is absent, older than the TTL or
    itself records three or more; the plain service does so with no
    proviso; the client pre-check does so when the local list shows three
    issues occupied by the logged-in team.  When the team holds exactly
    three and one of them is closed, it holds two, and with no fresh cache
    entry in the way a claim of an open issue not assigned to it
    succeeds. *)
Theorem quota_rejects_then_admits
    (w : World) (issueId teamName : string) (maxRetries : Z) (d : Issue) :
  issueId <> "" -> teamName <> "" -> 0 < maxRetries ->
  net w = [] ->
  issuesDb w !! issueId = Some d -> status d = open ->
  (3 <= occupied_count teamName (issuesDb w))%nat ->
  ((forall c, teamIssueCountCache w !! teamName = Some c ->
              clock w - timestamp c < CachedService.CACHE_TTL -> 3 <= count c) ->
   let out := run (CachedService.occupyIssueTransaction issueId teamName maxRetries) w in
   out.1 = Done (Some (failure msg_quota)) /\ issuesDb out.2 = issuesDb w) /\
  (let out := run (PlainService.occupyIssueTransaction issueId teamName) w in
   out.1 = Done (Some (failure msg_quota)) /\ issuesDb out.2 = issuesDb w) /\
  (forall (tx : string -> string -> Prog (option Result)) (team : Team)
          (issues : list Issue) (issue : Issue),
     name team = teamName -> onLine w = true ->
     find_issue issueId issues = Some issue -> status issue = open ->
     (3 <= AppContext.teamOccupiedCount teamName issues)%nat ->
     run (AppContext.occupyIssue tx (Some team) issues issueId) w
     = (Done (Some (failure msg_quota)), w)) /\
  (forall (held prUrl : string) (dh : Issue),
     occupied_count teamName (issuesDb w) = 3%nat ->
     issuesDb w !! held = Some dh ->
     assignedTo dh = Some teamName -> status dh = occupied ->
     only_whitespace prUrl = false ->
     assignedTo d <> Some teamName ->
     CachedService.stale (teamIssueCountCache w !! teamName) (clock w) = true ->
     let w1 := (run (AppContext.closeIssue held prUrl) w).2 in
     occupied_count teamName (issuesDb w1) = 2%nat /\
     (run (CachedService.occupyIssueTransaction issueId teamName maxRetries) w1).1
     = Done (Some ok) /\
     (run (PlainService.occupyIssueTransaction issueId teamName) w1).1
     = Done (Some ok)).
Proof.
  intros Hi Ht Hm Hn Hd Hs Hc.
  split; [|split; [|split]].
  - intros Hcache.
    apply (cached_rejects_over_quota w issueId teamName maxRetries d); auto.
  - apply (plain_rejects_over_quota w issueId teamName); auto.
  - intros tx team issues issue <- Hon Hfind Hopen Hcount.
    apply (client_rejects_over_quota tx w team issues issueId issue); auto.
  - intros held url dh H3 Hh Hha Hhs Hurl Hda Hstale w1.
    destruct (run_closeIssue w held url dh Hn Hh Hurl)
      as ((d' & Hd' & Hdb) & Hn1 & Hc1 & Hk1).
    fold w1 in Hdb, Hn1, Hc1, Hk1.
    assert (Hne : held <> issueId) by (intros ->; congruence).
    assert (Hcount : occupied_count teamName (issuesDb w1) = 2%nat).
    { rewrite Hdb, (occupied_count_release teamName (issuesDb w) held dh d'); auto.
      - rewrite H3. reflexivity.
      - unfold matches. cbn. rewrite Hha, Hhs. cbn. rewrite String.eqb_refl. reflexivity.
      - unfold matches. cbn. rewrite Hd'. apply andb_false_r. }
    assert (Hd1 : issuesDb w1 !! issueId = Some d)
      by (rewrite Hdb, lookup_insert_ne; auto).
    split; [exact Hcount|]. split.
    + apply (cached_admits_under_quota w1 issueId teamName maxRetries d); auto.
      * rewrite Hc1, Hk1. exact Hstale.
      * lia.
    + apply (plain_admits_under_quota w1 issueId teamName d); auto. lia.
Qed.

Lemma quota_rejects_then_admits_witness :
  let claim := CachedService.occupyIssueTransaction "I4" "TeamBravo"
                 CachedService.default_maxRetries in
  (run claim full_quota_world).1 = Done (Some (failure msg_quota)) /\
  issuesDb (run claim full_quota_world).2 = issuesDb full_quota_world /\
  (run (PlainService.occupyIssueTransaction "I4" "TeamBravo") full_quota_world).1
  = Done (Some (failure msg_quota)) /\
  run (AppContext.occupyIssue PlainService.occupyIssueTransaction
         (Some (mkTeam "TeamBravo" 0 true)) full_quota_issues "I4") full_quota_world
  = (Done (Some (failure msg_quota)), full_quota_world) /\
  (run claim (run (AppContext.closeIssue "I1" "https://x/pull/1") full_quota_world).2).1
  = Done (Some ok).
Proof.
  intros claim.
  assert (H3 : (3 <= occupied_count "TeamBravo" (issuesDb full_quota_world))%nat)
    by (vm_compute; lia).
  assert (Hd : issuesDb full_quota_world !! "I4"
               = Some (sample_issue "I4" "easy" open None None))
    by (vm_compute; reflexivity).
  destruct (quota_rejects_then_admits full_quota_world "I4" "TeamBravo"
              CachedService.default_maxRetries (sample_issue "I4" "easy" open None None)
              ltac:(discriminate) ltac:(discriminate) ltac:(reflexivity) eq_refl Hd eq_refl H3)
    as (Hcached & Hplain & Hclient & Hrelease).
  destruct Hcached as [C1 C2]; [intros c Hc; vm_compute in Hc; discriminate Hc|].
  destruct Hplain as [P1 _].
  split; [exact C1|]. split; [exact C2|]. split; [exact P1|]. split.
  - apply (Hclient PlainService.occupyIssueTransaction (mkTeam "TeamBravo" 0 true)
             full_quota_issues (sample_issue "I4" "easy" open None None));
      first [vm_compute; reflexivity | vm_compute; lia].
  - assert (R1 : occupied_count "TeamBravo" (issuesDb full_quota_world) = 3%nat)
      by (vm_compute; reflexivity).
    assert (R2 : issuesDb full_quota_world !! "I1"
                 = Some (sample_issue "I1" "easy" occupied (Some "TeamBravo") (Some 1000)))
      by (vm_compute; reflexivity).
    assert (R3 : only_whitespace "https://x/pull/1" = false) by (vm_compute; reflexivity).
    assert (R4 : assignedTo (sample_issue "I4" "easy" open None None) <> Some "TeamBravo")
      by discriminate.
    assert (R5 : CachedService.stale
                   (teamIssueCountCache full_quota_world !! "TeamBravo")
                   (clock full_quota_world) = true) by (vm_compute; reflexivity).
    exact (proj1 (proj2 (Hrelease "I1" "https://x/pull/1"
                           (sample_issue "I1" "easy" occupied (Some "TeamBravo") (Some 1000))
                           R1 R2 eq_refl eq_refl R3 R4 R5))).
Defined.

(** C2, as the spec has it, fails for the cached service: the store holds
    three issues as occupied by TeamBravo, the cache entry of TeamBravo's
    browser is one second old and says one, and the claim of I3 succeeds,
    which makes four. *)
Lemma fresh_cache_admits_fourth_claim :
  let out := run (CachedService.occupyIssueTransaction "I3" "TeamBravo"
                    CachedService.default_maxRetries) quota_gap_world in
  let other := run (CachedService.occupyIssueTransaction "I1" "TeamBravo"
                      CachedService.default_maxRetries) full_quota_world in
  occupied_count "TeamBravo" (issuesDb quota_gap_world) = 3%nat /\
  teamIssueCountCache quota_gap_world !! "TeamBravo"
  = Some {| count := 1; timestamp := 100000 |} /\
  clock quota_gap_world = 101000 /\
  out.1 = Done (Some ok) /\
  status <$> issuesDb out.2 !! "I3" = Some occupied /\
  occupied_count "TeamBravo" (issuesDb out.2) = 4%nat /\
  (* and on an issue that is not open the failure is not the quota one *)
  occupied_count "TeamBravo" (issuesDb full_quota_world) = 3%nat /\
  other.1 = Done (Some (failure "This issue is already occupied. Please choose another issue.")) /\
  other.1 <> Done (Some (failure msg_quota)).
Proof. vm_compute. repeat split. discriminate. Qed.

(* ===================================================================== *)
(** * Racing claims *)
(* ===================================================================== *)

Lemma commits_of_app issueId l ev :
  commits_of issueId (l ++ [ev])
  = (commits_of issueId l + if is_commit issueId ev then 1 else 0)%nat.
Proof.
  unfold commits_of. rewrite List.filter_app, length_app. cbn.
  destruct (is_commit issueId ev); reflexivity.
Qed.

(** What one event of a claim attempt does to the shared store and to the
    attempt's own record of commits. *)
Lemma claim_step {X} (issueId : string) (e : Eff X) (c : bool)
    (K : X -> bool -> Prop) (w : World) :
  claim_event issueId e c K ->
  teamsDb (handle e w).2 = teamsDb w /\
  ((issuesDb (handle e w).2 = issuesDb w /\
    commits_of issueId (log (handle e w).2) = commits_of issueId (log w) /\
    K (handle e w).1 c)
   \/
   (exists d u,
      issuesDb w !! issueId = Some d /\ status d = open /\
      u_status u = Some occupied /\
      issuesDb (handle e w).2 = <[issueId := apply_updates u d]> (issuesDb w) /\
      commits_of issueId (log (handle e w).2) = S (commits_of issueId (log w)) /\
      K (handle e w).1 true)).
Proof.
  pose proof (issuesDb_arrive w) as Hi. pose proof (teamsDb_arrive w) as Ht.
  pose proof (log_arrive w) as Hl.
  destruct e; cbn -[commits_of]; intros H; try contradiction;
    try (split; [reflexivity|left; repeat split; auto; fail]).
  - (* setTimeout *)
    split; [reflexivity|]. left. repeat split; auto.
    rewrite commits_of_app. cbn. lia.
  - (* getDoc *)
    destruct (arrive w) as [n w1]. cbn [snd] in *.
    destruct (fault n); cbn -[commits_of]; (split; [exact Ht|]); left;
      rewrite commits_of_app, Hl; cbn; repeat split; auto; try lia.
  - (* getDocs *)
    destruct (arrive w) as [n w1]. cbn [snd] in *.
    destruct (fault n); cbn -[commits_of]; (split; [exact Ht|]); left;
      rewrite commits_of_app, Hl; cbn; repeat split; auto; try lia.
  - (* runTransaction *)
    destruct H as (-> & Hbody & Hfail & Hok).
    destruct (arrive w) as [n w1]. cbn [snd] in *.
    destruct (fault n).
    { cbn -[commits_of]. split; [exact Ht|]. left.
      rewrite commits_of_app, Hl. cbn. repeat split; auto; try lia. }
    destruct (body (clock w1) (issuesDb w1 !! issueId)) as [err|[u r]] eqn:Hb.
    { cbn -[commits_of]. split; [exact Ht|]. left.
      rewrite commits_of_app, Hl. cbn. repeat split; auto; try lia. }
    destruct (Hbody _ _ _ _ Hb) as ((d & Hd & Hs) & Hu & Hr).
    rewrite Hd. cbn -[commits_of]. split; [exact Ht|]. right.
    exists d, u. rewrite commits_of_app, Hl, <- Hi. cbn. rewrite String.eqb_refl.
    repeat split; auto; try lia.
Qed.

Lemma cached_claim_body teamName : claim_body (CachedService.transaction_body teamName).
Proof.
  intros now doc u r. unfold CachedService.transaction_body.
  destruct doc as [d|]; [|discriminate].
  destruct (status d) eqn:Hs; cbn; try discriminate.
  destruct (Js.seq_ostr (assignedTo d) teamName); [discriminate|].
  intros [= <- <-]. cbn. eauto.
Qed.

Lemma plain_claim_body teamName : claim_body (PlainService.transaction_body teamName).
Proof.
  intros now doc u r. unfold PlainService.transaction_body.
  destruct doc as [d|]; [|discriminate].
  destruct (status d) eqn:Hs; cbn; try discriminate.
  intros [= <- <-]. cbn. eauto.
Qed.

(** Closes the leaves of a walk through a claim attempt. *)
Ltac leaf :=
  first [ reflexivity
        | apply cached_claim_body
        | apply plain_claim_body
        | eexists; split; [reflexivity|cbn; congruence] ].

Lemma cached_claim_prog issueId teamName maxRetries :
  claim_prog issueId claim_depth false
    (CachedService.occupyIssueTransaction issueId teamName maxRetries).
Proof. unfold claim_depth. open_service. walk. all: leaf. Qed.

Lemma plain_claim_prog issueId teamName :
  claim_prog issueId claim_depth false
    (PlainService.occupyIssueTransaction issueId teamName).
Proof. unfold claim_depth. open_service. walk. all: leaf. Qed.

Section Race.

Variable issueId : string.
Variable cfg0 : Config.

Lemma picked_snoc sched i j :
  picked (sched ++ [i]) j = (picked sched j + if decide (j = i) then 1 else 0)%nat.
Proof.
  unfold picked. rewrite count_occ_app. cbn.
  destruct (Nat.eq_dec i j), (decide (j = i)); congruence.
Qed.

Lemma race_inv_start :
  (forall t, t ∈ threads cfg0 -> fresh_attempt issueId t) ->
  race_inv issueId cfg0 [] cfg0.
Proof.
  intros Hfresh.
  assert (H0 : forall i t, threads cfg0 !! i = Some t -> fresh_attempt issueId t).
  { intros i t Hi. apply Hfresh. eapply list_elem_of_lookup_2. exact Hi. }
  split.
  - intros i t Hi. destruct (H0 i t Hi) as [Hc [team [Hp|[m Hp]]]]; rewrite Hc, Hp; cbn.
    + apply plain_claim_prog.
    + apply cached_claim_prog.
  - intros i j ti tj Hi Hj Hci _. destruct (H0 i ti Hi) as [Hc _].
    unfold committed in Hci. lia.
  - intros i t Hi. destruct (H0 i t Hi) as [Hc _]. lia.
  - reflexivity.
  - intros i t Hi Hci. destruct (H0 i t Hi) as [Hc _]. unfold committed in Hci. lia.
Qed.

Lemma lookup_replaced (l : list Thread) (i j : nat) (t t' tj : Thread) :
  l !! i = Some t ->
  <[i := t']> l !! j = Some tj ->
  (j = i /\ tj = t') \/ (j <> i /\ l !! j = Some tj).
Proof.
  intros Hi Hj. destruct (decide (j = i)) as [->|Hne].
  - left. rewrite list_lookup_insert_eq in Hj by (eapply lookup_lt_Some; eauto).
    split; congruence.
  - right. rewrite list_lookup_insert_ne in Hj by congruence. auto.
Qed.

Lemma race_inv_step sched cfg i :
  race_inv issueId cfg0 sched cfg ->
  race_inv issueId cfg0 (sched ++ [i]) (step_thread cfg i).
Proof.
  intros [Hprog Huniq Honce Hbefore Hafter]. unfold step_thread.
  destruct (threads cfg !! i) as [t|] eqn:Hi.
  2:{ split; auto. intros j tj Hj. rewrite picked_snoc.
      destruct (decide (j = i)) as [->|]; [congruence|].
      rewrite Nat.add_0_r. auto. }
  pose proof (Hprog i t Hi) as Hpi.
  destruct (prog t) as [r|err|X e k] eqn:Hp.
  { split; auto. intros j tj Hj. rewrite picked_snoc.
    destruct (decide (j = i)) as [->|]; [|rewrite Nat.add_0_r; auto].
    assert (tj = t) by congruence. subst tj. rewrite Hp. exact Hpi. }
  { contradiction. }
  cbn [claim_prog] in Hpi.
  destruct (claim_depth - picked sched i)%nat as [|n'] eqn:Hn; [contradiction|].
  set (w := with_teamsDb (ledger cfg) (with_issuesDb (store cfg) (local t))) in *.
  pose proof (claim_step issueId e _ _ w Hpi) as [_ Hstep].
  destruct (handle e w) as [x w'] eqn:Hh. cbn [fst snd] in Hstep.
  assert (Hlog : log w = log (local t)) by reflexivity.
  assert (Hdb : issuesDb w = store cfg) by reflexivity.
  rewrite Hlog, Hdb in Hstep.
  destruct Hstep as [(Hsame & Hcommits & HK)|(d & u & Hd & Hs & Hu & Hnew & Hcommits & HK)].
  - (* the event commits nothing *)
    assert (Hold : forall j tj, <[i := {| local := w'; prog := k x |}]> (threads cfg) !! j = Some tj ->
                   exists tj0, threads cfg !! j = Some tj0 /\
                     commits_of issueId (log (local tj)) = commits_of issueId (log (local tj0))).
    { intros j tj Hj. destruct (lookup_replaced _ _ _ _ _ _ Hi Hj) as [[-> ->]|[Hne Hj']].
      - exists t. auto.
      - exists tj. auto. }
    split; cbn [store threads].
    + intros j tj Hj. rewrite picked_snoc.
      destruct (lookup_replaced _ _ _ _ _ _ Hi Hj) as [[-> ->]|[Hne Hj']].
      * rewrite decide_True by reflexivity. cbn [local prog]. rewrite Hcommits.
        replace (claim_depth - (picked sched i + 1))%nat with n' by lia. exact HK.
      * rewrite decide_False by exact Hne. rewrite Nat.add_0_r. auto.
    + intros j1 j2 t1 t2 H1 H2 Hc1 Hc2.
      destruct (Hold _ _ H1) as (a1 & Ha1 & E1). destruct (Hold _ _ H2) as (a2 & Ha2 & E2).
      apply (Huniq j1 j2 a1 a2); auto; unfold committed in *; lia.
    + intros j tj Hj. destruct (Hold _ _ Hj) as (a & Ha & E). rewrite E. eauto.
    + intros Hzero. rewrite Hsame. apply Hbefore.
      intros j tj Hj. destruct (decide (j = i)) as [->|Hne].
      * assert (tj = t) by congruence. subst tj. rewrite <- Hcommits.
        apply (Hzero i {| local := w'; prog := k x |}).
        apply list_lookup_insert_eq. eapply lookup_lt_Some; eauto.
      * apply (Hzero j tj). rewrite list_lookup_insert_ne by congruence. exact Hj.
    + intros j tj Hj Hc. destruct (Hold _ _ Hj) as (a & Ha & E). rewrite Hsame.
      apply (Hafter j a); auto. unfold committed in *. lia.
  - (* the event commits the claim *)
    assert (Hopen : status <$> store cfg !! issueId = Some open) by (rewrite Hd; cbn; congruence).
    assert (Hzero : forall j tj, threads cfg !! j = Some tj ->
                      commits_of issueId (log (local tj)) = 0%nat).
    { intros j tj Hj. destruct (commits_of issueId (log (local tj))) eqn:E; [reflexivity|].
      destruct (Hafter j tj Hj) as [_ Hocc]; [unfold committed; lia|]. congruence. }
    pose proof (Hzero i t Hi) as Hti. rewrite Hti in Hcommits.
    assert (Hnewi : <[i := {| local := w'; prog := k x |}]> (threads cfg) !! i
                    = Some {| local := w'; prog := k x |}).
    { apply list_lookup_insert_eq. eapply lookup_lt_Some; eauto. }
    assert (Hothers : forall j tj, <[i := {| local := w'; prog := k x |}]> (threads cfg) !! j = Some tj ->
                        committed issueId tj -> j = i).
    { intros j tj Hj Hc. destruct (lookup_replaced _ _ _ _ _ _ Hi Hj) as [[-> ->]|[Hne Hj']]; auto.
      unfold committed in Hc. rewrite (Hzero j tj Hj') in Hc. lia. }
    split; cbn [store threads].
    + intros j tj Hj. rewrite picked_snoc.
      destruct (lookup_replaced _ _ _ _ _ _ Hi Hj) as [[-> ->]|[Hne Hj']].
      * rewrite decide_True by reflexivity. cbn [local prog]. rewrite Hcommits.
        replace (claim_depth - (picked sched i + 1))%nat with n' by lia. exact HK.
      * rewrite decide_False by exact Hne. rewrite Nat.add_0_r. auto.
    + intros j1 j2 t1 t2 H1 H2 Hc1 Hc2.
      rewrite (Hothers _ _ H1 Hc1), (Hothers _ _ H2 Hc2). reflexivity.
    + intros j tj Hj. destruct (lookup_replaced _ _ _ _ _ _ Hi Hj) as [[-> ->]|[Hne Hj']].
      * cbn [local]. lia.
      * rewrite (Hzero j tj Hj'). lia.
    + intros Hz. specialize (Hz i _ Hnewi). cbn [local] in Hz. lia.
    + intros j tj Hj Hc. split.
      * rewrite <- Hbefore by exact Hzero. exact Hopen.
      * rewrite Hnew, lookup_insert_eq. cbn. rewrite Hu. reflexivity.
Qed.

Lemma exec_snoc sched i cfg : exec (sched ++ [i]) cfg = step_thread (exec sched cfg) i.
Proof. unfold exec. rewrite foldl_app. reflexivity. Qed.

Lemma race_inv_exec sched :
  (forall t, t ∈ threads cfg0 -> fresh_attempt issueId t) ->
  race_inv issueId cfg0 sched (exec sched cfg0).
Proof.
  intros Hfresh. induction sched as [|i sched IH] using rev_ind.
  - apply race_inv_start, Hfresh.
  - rewrite exec_snoc. apply race_inv_step, IH.
Qed.

End Race.

(** C1.  Any number of calls of [occupyIssueTransaction] on one issue, of
    either service, by any teams, from browsers in any state, interleaved
    in any order at their awaits, with transactions on the document taking
    effect one at a time.  At most one call commits its transaction, and
    only once; the commit takes the issue from [open] to [occupied]; every
    call that has ended has returned a result whose [success] holds
    exactly when it is the one that committed, so every other call ends
    with a failure; a call that has been scheduled for its eight events
    has ended; and the transaction body of either service throws an
    "already" error on a document whose status is not [open]. *)
Theorem at_most_one_claim_commits
    (issueId : string) (cfg0 : Config) (sched : list nat) :
  (forall t, t ∈ threads cfg0 -> fresh_attempt issueId t) ->
  let cfg := exec sched cfg0 in
  (forall i j ti tj,
     threads cfg !! i = Some ti -> threads cfg !! j = Some tj ->
     committed issueId ti -> committed issueId tj -> i = j) /\
  (forall i t,
     threads cfg !! i = Some t -> (commits_of issueId (log (local t)) <= 1)%nat) /\
  (forall i t,
     threads cfg !! i = Some t -> committed issueId t ->
     status <$> store cfg0 !! issueId = Some open /\
     status <$> store cfg !! issueId = Some occupied) /\
  (forall i t r,
     threads cfg !! i = Some t -> prog t = Ret r ->
     exists res, r = Some res /\ (success res = true <-> committed issueId t)) /\
  (forall i t,
     threads cfg !! i = Some t -> (claim_depth <= picked sched i)%nat ->
     exists r, prog t = Ret r) /\
  (forall teamName now d,
     status d <> open ->
     exists err,
       CachedService.transaction_body teamName now (Some d) = inl err /\
       PlainService.transaction_body teamName now (Some d) = inl err /\
       Js.includes (Js.message err) "already" = true).
Proof.
  intros Hfresh cfg.
  destruct (race_inv_exec issueId cfg0 sched Hfresh) as [Hprog Huniq Honce _ Hafter].
  fold cfg in Hprog, Huniq, Honce, Hafter.
  split; [exact Huniq|]. split; [exact Honce|]. split; [exact Hafter|].
  split; [|split].
  - intros i t r Hi Hr. specialize (Hprog i t Hi). rewrite Hr in Hprog.
    destruct Hprog as (res & -> & Hs). exists res. split; [reflexivity|].
    rewrite Hs. unfold committed. apply Nat.ltb_lt.
  - intros i t Hi Hp. specialize (Hprog i t Hi).
    replace (claim_depth - picked sched i)%nat with 0%nat in Hprog by lia.
    destruct (prog t) as [r|err|X e k]; [eauto|contradiction|contradiction].
  - intros teamName now d Hs.
    unfold CachedService.transaction_body, PlainService.transaction_body.
    destruct (status d); [contradiction| |]; eexists; repeat split; reflexivity.
Qed.

Lemma at_most_one_claim_commits_witness :
  let cfg := exec race_schedule race_config in
  prog <$> threads cfg
  = [Ret (Some ok);
     Ret (Some (failure "Cannot access 'lastError' before initialization"));
     Ret (Some (failure "This issue is already occupied. Please choose another issue."))] /\
  assignedTo <$> store cfg !! "I1" = Some (Some "TeamBravo") /\
  (forall i j ti tj,
     threads cfg !! i = Some ti -> threads cfg !! j = Some tj ->
     committed "I1" ti -> committed "I1" tj -> i = j).
Proof.
  intros cfg.
  split; [vm_compute; reflexivity|]. split; [vm_compute; reflexivity|].
  refine (proj1 (at_most_one_claim_commits "I1" race_config race_schedule _)).
  intros t Ht. apply list_elem_of_In in Ht.
  destruct Ht as [<-|[<-|[<-|[]]]]; (split; [vm_compute; reflexivity|]).
  - exists "TeamBravo". right. exists 3. reflexivity.
  - exists "TeamCharlie". right. exists 3. reflexivity.
  - exists "TeamDelta". left. reflexivity.
Defined.

(* ===================================================================== *)
(** * The client's claim always ends with a result *)
(* ===================================================================== *)

Lemma always_returns_bind {A B} (P : A -> Prop) (Q : B -> Prop) (p : Prog A) (f : A -> Prog B) :
  always_returns P p ->
  (forall a, P a -> always_returns Q (f a)) ->
  always_returns Q (bind p f).
Proof.
  intros Hp Hf. induction p as [a|e|X e k IH]; cbn in *; auto.
Qed.

Lemma always_returns_try_catch {A} (P : A -> Prop) (p : Prog A) (h : Js.Error -> Prog A) :
  always_returns P p -> always_returns P (try_catch p h).
Proof.
  intros Hp. induction p as [a|e|X e k IH]; cbn in *; auto.
  contradiction.
Qed.

Section ClientEnds.

Variable tx : string -> string -> Prog (option Result).
Hypothesis tx_returns : forall i t, always_returns (fun r => r <> None) (tx i t).

Lemma wrapped_returns issueId teamName :
  always_returns (fun r => r <> None) (AppContext.wrapped tx issueId teamName).
Proof.
  unfold AppContext.wrapped. cbn. intros t0.
  apply (always_returns_bind (fun r => r <> None)).
  - apply always_returns_try_catch, tx_returns.
  - intros settled Hs. cbn. intros t1.
    destruct (AppContext.TIMEOUT_MS <=? t1 - t0); cbn; [discriminate|exact Hs].
Qed.

Lemma attemptTransaction_returns fuel issueId teamName attempt :
  always_returns (fun _ => True) (AppContext.attemptTransaction tx fuel issueId teamName attempt).
Proof.
  revert attempt. induction fuel as [|fuel IH]; intros attempt;
    cbn -[AppContext.wrapped]; [exact I|].
  destruct (attempt <=? AppContext.MAX_RETRIES); cbn -[AppContext.wrapped]; [|exact I].
  apply (always_returns_bind (fun r => r <> None)); [apply wrapped_returns|].
  intros [res|] Hres; [|congruence].
  destruct (success res); cbn; [exact I|].
  destruct (negb _); cbn; [exact I|].
  destruct (attempt + 1 <=? AppContext.MAX_RETRIES); cbn; [intros _|]; apply IH.
Qed.

Lemma occupyIssue_returns currentTeam issues issueId :
  always_returns (fun r => r <> None)
    (AppContext.occupyIssue tx currentTeam issues issueId).
Proof.
  unfold AppContext.occupyIssue, call, seq, when, exec_, perform, return_, skip.
  destruct currentTeam as [team|]; [|cbn; discriminate].
  cbn -[AppContext.attemptTransaction AppContext.teamOccupiedCount Nat.leb].
  intros online. destruct online; [|cbn; discriminate].
  cbn -[AppContext.attemptTransaction AppContext.teamOccupiedCount Nat.leb].
  destruct (find_issue issueId issues) as [issue|]; [|cbn; discriminate].
  cbn -[AppContext.attemptTransaction AppContext.teamOccupiedCount Nat.leb].
  destruct (Status_eqb (status issue) open); [|cbn; discriminate].
  cbn -[AppContext.attemptTransaction AppContext.teamOccupiedCount Nat.leb].
  destruct (3 <=? AppContext.teamOccupiedCount (name team) issues)%nat; [cbn; discriminate|].
  cbn -[AppContext.attemptTransaction AppContext.teamOccupiedCount Nat.leb].
  intros now _.
  apply (always_returns_bind (fun c => exists r, c = Return r)); [|intros c [r ->]; discriminate].
  apply (always_returns_bind (fun _ => True)); [apply attemptTransaction_returns|].
  intros result _. destruct (success result); cbn; eauto.
Qed.

End ClientEnds.

(** With either service behind it, [occupyIssue] ends by returning a
    result object, whatever the world: it neither throws nor returns
    [undefined]. *)
Lemma occupyIssue_ends_with_a_result (w : World) (currentTeam : option Team)
    (issues : list Issue) (issueId : string) :
  (exists r, (run (AppContext.occupyIssue PlainService.occupyIssueTransaction
                     currentTeam issues issueId) w).1 = Done (Some r)) /\
  (exists r, (run (AppContext.occupyIssue
                     (fun i t => CachedService.occupyIssueTransaction i t
                                   CachedService.default_maxRetries)
                     currentTeam issues issueId) w).1 = Done (Some r)).
Proof.
  split.
  - destruct (run_always_returns (fun r => r <> None)
                (AppContext.occupyIssue PlainService.occupyIssueTransaction
                   currentTeam issues issueId) w) as ([r|] & Hr & Hn);
      [|eauto|congruence].
    apply occupyIssue_returns. intros i t. apply plain_always_returns.
  - destruct (run_always_returns (fun r => r <> None)
                (AppContext.occupyIssue
                   (fun i t => CachedService.occupyIssueTransaction i t
                                 CachedService.default_maxRetries)
                   currentTeam issues issueId) w) as ([r|] & Hr & Hn);
      [|eauto|congruence].
    apply occupyIssue_returns. intros i t. apply cached_always_returns.
Qed.

(* ===================================================================== *)
(** * Further facts about runs *)
(* ===================================================================== *)

(** A run, as its outcome and the world it leaves. *)
Lemma run_result {A} (p : Prog A) (w : World) (o : Outcome A) :
  (run p w).1 = o -> run p w = (o, (run p w).2).
Proof. intros <-. apply surjective_pairing. Qed.

Lemma truthy_str_empty_iff s : Js.truthy_str s = false <-> s = "".
Proof.
  unfold Js.truthy_str. rewrite negb_false_iff. apply String.eqb_eq.
Qed.

Lemma run_fire_and_forget {X} (p : Prog X) (w : World) :
  run (fire_and_forget p) w = (Done tt, (run p w).2).
Proof.
  unfold fire_and_forget. rewrite run_try_catch, run_bind.
  destruct (run p w) as [[x|e] w1]; reflexivity.
Qed.

(** The client's list does not matter to the network. *)
Lemma arrive_with_issues_state l w :
  (arrive (with_issues_state l w)).1 = (arrive w).1 /\
  clock (arrive (with_issues_state l w)).2 = clock w + Z.of_N (delay (arrive w).1) /\
  issuesDb (arrive (with_issues_state l w)).2 = issuesDb w /\
  log (arrive (with_issues_state l w)).2 = log w.
Proof.
  unfold arrive. cbn [net with_issues_state].
  destruct (net w) as [|n rest]; cbn.
  - repeat split. lia.
  - destruct (feed n); cbn; repeat split.
Qed.

(** The team documents of a sample world are filed by name. *)
Lemma sample_teams_filed (issues : list Issue) (teams : list Team) (now : Z) :
  filed_by_name (teamsDb (sample_world issues teams now)).
Proof.
  unfold sample_world. cbn [teamsDb].
  induction teams as [|t rest IH]; intros k t' Hk.
  - cbn in Hk. rewrite lookup_empty in Hk. discriminate.
  - cbn [List.map list_to_map foldr] in Hk.
    apply lookup_insert_Some in Hk as [[<- <-]|[_ Hk]]; [reflexivity|].
    apply (IH k t' Hk).
Qed.

(** The lists of the overdue sample are those of its store. *)
Lemma overdue_docs_exist :
  (forall i, i ∈ overdue_issues -> is_Some (issuesDb overdue_world !! issue_id i)) /\
  (forall t, t ∈ overdue_teams -> is_Some (teamsDb overdue_world !! name t)).
Proof.
  split.
  - intros i Hi. apply list_elem_of_In in Hi.
    destruct Hi as [<-|[<-|[<-|[]]]]; eexists; reflexivity.
  - intros t Ht. apply list_elem_of_In in Ht.
    destruct Ht as [<-|[<-|[]]]; eexists; reflexivity.
Qed.

(* ===================================================================== *)
(** * The client: guards, attempts, effort *)
(* ===================================================================== *)

(** X1.  The local guards of [occupyIssue] (lines 291-316), in their order:
    without a logged-in team, with the browser offline, with an issue the
    client's list does not hold, and with an issue the list shows as not
    open, the call returns the failure of that guard and leaves the world
    as it was: whatever [occupyIssueTransaction] is wired in, it is not
    started, and the list is not touched. *)
Theorem occupyIssue_local_guards
    (tx : string -> string -> Prog (option Result)) (w : World)
    (issues : list Issue) (issueId : string) :
  run (AppContext.occupyIssue tx None issues issueId) w
  = (Done (Some (failure "You must be logged in to occupy an issue.")), w) /\
  (forall team,
     onLine w = false ->
     run (AppContext.occupyIssue tx (Some team) issues issueId) w
     = (Done (Some (failure "No internet connection")), w)) /\
  (forall team,
     onLine w = true -> find_issue issueId issues = None ->
     run (AppContext.occupyIssue tx (Some team) issues issueId) w
     = (Done (Some (failure "Issue not found.")), w)) /\
  (forall team issue,
     onLine w = true -> find_issue issueId issues = Some issue ->
     status issue <> open ->
     run (AppContext.occupyIssue tx (Some team) issues issueId) w
     = (Done (Some (failure (msg_already (status issue)))), w)).
Proof.
  repeat split.
  - intros team Hoff. unfold AppContext.occupyIssue.
    rewrite run_call, run_bind. cbn [perform run handle]. rewrite Hoff.
    cbn [negb when]. rewrite run_seq. reflexivity.
  - intros team Hon Hfind. unfold AppContext.occupyIssue.
    rewrite run_call, run_bind. cbn [perform run handle]. rewrite Hon, Hfind.
    cbn [negb when]. rewrite run_seq. reflexivity.
  - intros team issue Hon Hfind Hst. unfold AppContext.occupyIssue.
    rewrite run_call, run_bind. cbn [perform run handle]. rewrite Hon, Hfind.
    cbn [negb when]. rewrite run_seq. cbn [skip run].
    replace (Status_eqb (status issue) open) with false
      by (destruct (status issue); [congruence|reflexivity|reflexivity]).
    cbn [negb when]. rewrite run_seq. reflexivity.
Qed.

Lemma occupyIssue_local_guards_witness :
  let tx := PlainService.occupyIssueTransaction in
  let bravo := mkTeam "TeamBravo" 0 true in
  run (AppContext.occupyIssue tx None stale_list "I1") held_world
  = (Done (Some (failure "You must be logged in to occupy an issue.")), held_world) /\
  run (AppContext.occupyIssue tx (Some bravo) stale_list "I9") held_world
  = (Done (Some (failure "Issue not found.")), held_world) /\
  run (AppContext.occupyIssue tx (Some bravo) (issues_state held_world) "I1") held_world
  = (Done (Some (failure "This issue is already occupied. Please choose another issue.")),
     held_world).
Proof.
  intros tx bravo.
  destruct (occupyIssue_local_guards tx held_world stale_list "I1") as (H1 & _).
  destruct (occupyIssue_local_guards tx held_world stale_list "I9") as (_ & _ & H3 & _).
  destruct (occupyIssue_local_guards tx held_world (issues_state held_world) "I1")
    as (_ & _ & _ & H4).
  split; [exact H1|]. split; [exact (H3 bravo eq_refl eq_refl)|].
  exact (H4 bravo (sample_issue "I1" "easy" occupied (Some "TeamBravo") (Some 1000))
            eq_refl eq_refl ltac:(discriminate)).
Defined.

Lemma run_wrapped tx issueId teamName w :
  run (AppContext.wrapped tx issueId teamName) w =
  match run (tx issueId teamName) w with
  | (Done r, w1) =>
      (Done (if AppContext.TIMEOUT_MS <=? clock w1 - clock w
             then Some (failure "Transaction timed out. Please try again.")
             else r), w1)
  | (Raised err, w1) =>
      (Done (if AppContext.TIMEOUT_MS <=? clock w1 - clock w
             then Some (failure "Transaction timed out. Please try again.")
             else Some (failure (Js.or_str (Js.message err) "Transaction failed"))), w1)
  end.
Proof.
  unfold AppContext.wrapped. rewrite run_bind. cbn [perform run handle].
  rewrite run_bind, run_try_catch.
  destruct (run (tx issueId teamName) w) as [[r|err] w1].
  - rewrite run_bind. cbn [perform run handle].
    destruct (AppContext.TIMEOUT_MS <=? clock w1 - clock w); reflexivity.
  - cbn [run]. rewrite run_bind. cbn [perform run handle].
    destruct (AppContext.TIMEOUT_MS <=? clock w1 - clock w); reflexivity.
Qed.

Lemma attemptTransaction_stops
    (tx : string -> string -> Prog (option Result)) (w w1 : World)
    (issueId teamName : string) (r1 : Result) :
  run (AppContext.wrapped tx issueId teamName) w = (Done (Some r1), w1) ->
  success r1 = true \/ transient r1 = false ->
  run (AppContext.attemptTransaction tx 3 issueId teamName 0) w = (Done r1, w1).
Proof.
  intros H1 Hstop. cbn [AppContext.attemptTransaction].
  change (0 <=? AppContext.MAX_RETRIES) with true. cbv iota.
  rewrite run_bind, H1.
  destruct (success r1) eqn:Hs; [reflexivity|].
  destruct Hstop as [Hstop|Hstop]; [discriminate|].
  fold (transient r1). rewrite Hstop. reflexivity.
Qed.

(** The guards of [occupyIssue] passed: what is left is the speculative
    update, the attempts and the rollback. *)
Lemma run_occupyIssue_guarded
    (tx : string -> string -> Prog (option Result)) (w : World)
    (team : Team) (issues : list Issue) (issueId : string) (issue : Issue) :
  onLine w = true ->
  find_issue issueId issues = Some issue ->
  status issue = open ->
  (AppContext.teamOccupiedCount (name team) issues < 3)%nat ->
  run (AppContext.occupyIssue tx (Some team) issues issueId) w =
  match run (AppContext.attemptTransaction tx 3 issueId (name team) 0)
            (with_issues_state
               (AppContext.speculate issueId (name team) (clock w) (issues_state w)) w) with
  | (Done r, w1) =>
      (Done (Some r), if success r then w1 else with_issues_state issues w1)
  | (Raised e, w1) => (Raised e, w1)
  end.
Proof.
  intros Hon Hfind Hopen Hcount. unfold AppContext.occupyIssue.
  rewrite run_call, run_bind. cbn [perform run handle].
  rewrite Hon, Hfind, Hopen. cbn [negb when Status_eqb].
  apply Nat.leb_gt in Hcount. rewrite Hcount.
  repeat (rewrite run_seq; cbn [when skip run]).
  rewrite run_bind. cbn [perform run handle].
  rewrite run_seq, run_exec_. cbn [perform run handle].
  rewrite run_bind.
  destruct (run (AppContext.attemptTransaction tx 3 issueId (name team) 0) _)
    as [[r|e] w1]; [|reflexivity].
  rewrite run_seq.
  destruct (success r) eqn:Hs; cbn [negb when skip run].
  - reflexivity.
  - rewrite run_exec_. reflexivity.
Qed.

(** X2.  When the local guards pass and the transaction, run on the list
    with the speculative update applied, returns a success within the
    time limit, [occupyIssue] returns that result and the world the
    transaction left: one attempt, no wait, no rollback; the speculative
    update stays in the list. *)
Theorem occupyIssue_success_keeps_speculation
    (tx : string -> string -> Prog (option Result)) (w w1 : World)
    (team : Team) (issues : list Issue) (issueId : string) (issue : Issue) (r : Result) :
  onLine w = true ->
  find_issue issueId issues = Some issue ->
  status issue = open ->
  (AppContext.teamOccupiedCount (name team) issues < 3)%nat ->
  run (tx issueId (name team))
      (with_issues_state
         (AppContext.speculate issueId (name team) (clock w) (issues_state w)) w)
  = (Done (Some r), w1) ->
  success r = true ->
  clock w1 - clock w < AppContext.TIMEOUT_MS ->
  run (AppContext.occupyIssue tx (Some team) issues issueId) w = (Done (Some r), w1).
Proof.
  intros Hon Hfind Hopen Hcount Htx Hs Hquick.
  rewrite (run_occupyIssue_guarded tx w team issues issueId issue Hon Hfind Hopen Hcount).
  erewrite attemptTransaction_stops; [rewrite Hs; reflexivity| |left; exact Hs].
  rewrite run_wrapped, Htx. cbn [clock with_issues_state].
  apply Z.leb_gt in Hquick. rewrite Hquick. reflexivity.
Qed.

Lemma occupyIssue_success_keeps_speculation_witness :
  let tx := fun i t => CachedService.occupyIssueTransaction i t
                         CachedService.default_maxRetries in
  let out := run (AppContext.occupyIssue tx (Some (mkTeam "TeamBravo" 0 true))
                    [sample_issue "I1" "easy" open None None] "I1") open_issue_world in
  out.1 = Done (Some ok) /\
  issues_state out.2
  = [sample_issue "I1" "easy" occupied (Some "TeamBravo") (Some 100000)] /\
  status <$> issuesDb out.2 !! "I1" = Some occupied.
Proof.
  intros tx out.
  pose (w0 := with_issues_state
                (AppContext.speculate "I1" "TeamBravo" 100000 (issues_state open_issue_world))
                open_issue_world).
  assert (Htx : run (tx "I1" "TeamBravo") w0
                = (Done (Some ok), (run (tx "I1" "TeamBravo") w0).2)).
  { apply run_result. vm_compute. reflexivity. }
  assert (Hcount : (AppContext.teamOccupiedCount "TeamBravo"
                      [sample_issue "I1" "easy" open None None] < 3)%nat)
    by (vm_compute; lia).
  assert (Hquick : clock (run (tx "I1" "TeamBravo") w0).2 - clock open_issue_world
                   < AppContext.TIMEOUT_MS) by (vm_compute; reflexivity).
  pose proof (occupyIssue_success_keeps_speculation tx open_issue_world _
                (mkTeam "TeamBravo" 0 true) [sample_issue "I1" "easy" open None None] "I1"
                (sample_issue "I1" "easy" open None None) ok
                eq_refl eq_refl eq_refl Hcount Htx eq_refl Hquick) as Hrun.
  unfold out. rewrite Hrun. vm_compute. auto.
Defined.

(** X3.  The retry policy of the client (lines 344-389), in terms of the
    wrapped transaction.  A first result that is a success, or a failure
    whose message has none of the transient indicators, is returned as it
    is.  After a transient failure the client waits 500 ms and tries once
    more; the second result is returned if it is a success or is not
    transient, and replaced by the fixed result of line 388 otherwise,
    with no further wait. *)
Theorem attemptTransaction_retry_policy
    (tx : string -> string -> Prog (option Result)) (w w1 : World)
    (issueId teamName : string) (r1 : Result) :
  run (AppContext.wrapped tx issueId teamName) w = (Done (Some r1), w1) ->
  (success r1 = true \/ transient r1 = false ->
   run (AppContext.attemptTransaction tx 3 issueId teamName 0) w = (Done r1, w1)) /\
  (success r1 = false -> transient r1 = true ->
   forall r2 w2,
     run (AppContext.wrapped tx issueId teamName)
         (logged (EvTimeout 500) (with_clock (clock w1 + 500) w1))
     = (Done (Some r2), w2) ->
     run (AppContext.attemptTransaction tx 3 issueId teamName 0) w
     = (Done (if success r2 || negb (transient r2) then r2 else retries_exhausted), w2)).
Proof.
  intros H1. split.
  - apply attemptTransaction_stops. exact H1.
  - intros Hs Ht r2 w2 H2. cbn [AppContext.attemptTransaction].
    change (0 <=? AppContext.MAX_RETRIES) with true. cbv iota.
    rewrite run_bind, H1, Hs. fold (transient r1). rewrite Ht. cbn [negb].
    change (0 + 1 <=? AppContext.MAX_RETRIES) with true. cbv iota.
    rewrite run_bind. cbn [perform run handle].
    change (500 * (0 + 1)) with 500. change (Z.max 0 500) with 500.
    rewrite run_bind, H2.
    destruct (success r2) eqn:Hs2; [reflexivity|].
    fold (transient r2). destruct (transient r2); cbn [negb orb]; [|reflexivity].
    change (0 + 1 + 1 <=? AppContext.MAX_RETRIES) with false. cbv iota.
    rewrite run_bind. cbn [run].
    reflexivity.
Qed.

Lemma attemptTransaction_retry_policy_witness :
  let out := run (AppContext.attemptTransaction PlainService.occupyIssueTransaction
                    3 "I1" "TeamBravo" 0) flaky_world in
  out.1 = Done ok /\ timeouts_in (log out.2) = [500] /\
  status <$> issuesDb out.2 !! "I1" = Some occupied.
Proof.
  intros out.
  pose (tx := PlainService.occupyIssueTransaction).
  pose (r1 := failure "A network error has occurred.").
  pose (w1 := (run (AppContext.wrapped tx "I1" "TeamBravo") flaky_world).2).
  assert (H1 : run (AppContext.wrapped tx "I1" "TeamBravo") flaky_world
               = (Done (Some r1), w1)).
  { apply run_result. vm_compute. reflexivity. }
  pose (w1' := logged (EvTimeout 500) (with_clock (clock w1 + 500) w1)).
  assert (H2 : run (AppContext.wrapped tx "I1" "TeamBravo") w1'
               = (Done (Some ok), (run (AppContext.wrapped tx "I1" "TeamBravo") w1').2)).
  { apply run_result. vm_compute. reflexivity. }
  assert (Ht : transient r1 = true) by (vm_compute; reflexivity).
  pose proof (proj2 (attemptTransaction_retry_policy tx flaky_world w1 "I1" "TeamBravo" r1 H1)
                eq_refl Ht ok _ H2) as Hrun.
  unfold out. fold tx. rewrite Hrun. vm_compute. auto.
Defined.

Lemma plain_one_transaction issueId teamName :
  at_most (@is_transaction) 1 (PlainService.occupyIssueTransaction issueId teamName).
Proof. open_service. walk. Qed.

Lemma plain_never_waits issueId teamName :
  all_events (fun X e => is_timer e = false)
    (PlainService.occupyIssueTransaction issueId teamName).
Proof. open_service. walk. all: reflexivity. Qed.

Lemma run_never_waits {A} (p : Prog A) (w : World) :
  all_events (fun X e => is_timer e = false) p ->
  timeouts_in (log (run p w).2) = timeouts_in (log w).
Proof.
  intros H.
  apply (run_all_events (fun X e => is_timer e = false)
           (fun w' => timeouts_in (log w') = timeouts_in (log w)) p); [|exact H|reflexivity].
  intros X e w0 He Hw. rewrite handle_timeouts by exact He. exact Hw.
Qed.

Section ClientEffort.

Variable tx : string -> string -> Prog (option Result).
Hypothesis tx_one_transaction : forall i t, at_most (@is_transaction) 1 (tx i t).
Hypothesis tx_never_waits : forall i t, all_events (fun X e => is_timer e = false) (tx i t).

Lemma wrapped_effort issueId teamName w :
  let w' := (run (AppContext.wrapped tx issueId teamName) w).2 in
  (transactions_in (log w') <= transactions_in (log w) + 1)%nat /\
  timeouts_in (log w') = timeouts_in (log w).
Proof.
  intros w'. subst w'. rewrite run_wrapped.
  pose proof (run_at_most_transactions _ _ (tx_one_transaction issueId teamName) w) as Ht.
  pose proof (run_never_waits _ w (tx_never_waits issueId teamName)) as Hw.
  destruct (run (tx issueId teamName) w) as [[r|err] w1]; cbn [snd] in *; auto.
Qed.

Lemma attemptTransaction_effort issueId teamName w :
  let w' := (run (AppContext.attemptTransaction tx 3 issueId teamName 0) w).2 in
  (transactions_in (log w') <= transactions_in (log w) + 2)%nat /\
  (timeouts_in (log w') = timeouts_in (log w) \/
   timeouts_in (log w') = (timeouts_in (log w) ++ [500])%list).
Proof.
  intros w'. subst w'. cbn [AppContext.attemptTransaction].
  change (0 <=? AppContext.MAX_RETRIES) with true. cbv iota.
  rewrite run_bind.
  pose proof (wrapped_effort issueId teamName w) as [Ht1 Hw1]. cbn zeta in Ht1, Hw1.
  destruct (run (AppContext.wrapped tx issueId teamName) w) as [[[r1|]|err] w1];
    cbn [snd] in *; [| cbn [run snd]; split; [lia|auto] ..].
  destruct (success r1); [cbn [run snd]; split; [lia|auto]|].
  match goal with |- context [negb ?b] => destruct b end; cbn [negb];
    [|cbn [run snd]; split; [lia|auto]].
  change (0 + 1 <=? AppContext.MAX_RETRIES) with true. cbv iota.
  rewrite run_bind. cbn [perform run handle].
  change (500 * (0 + 1)) with 500. change (Z.max 0 500) with 500.
  rewrite run_bind.
  pose proof (wrapped_effort issueId teamName
                (logged (EvTimeout 500) (with_clock (clock w1 + 500) w1))) as [Ht2 Hw2].
  cbn zeta in Ht2, Hw2.
  cbn [log logged with_clock] in Ht2, Hw2.
  rewrite transactions_in_app in Ht2. rewrite timeouts_in_app in Hw2.
  destruct (run (AppContext.wrapped tx issueId teamName) _) as [[[r2|]|err] w2];
    cbn [snd] in *; [| cbn [run snd]; split; [lia|right; congruence] ..].
  destruct (success r2); [cbn [run snd]; split; [lia|right; congruence]|].
  match goal with |- context [negb ?b] => destruct b end; cbn [negb];
    [|cbn [run snd]; split; [lia|right; congruence]].
  change (0 + 1 + 1 <=? AppContext.MAX_RETRIES) with false. cbv iota.
  rewrite run_bind. cbn [run snd]. split; [lia|right; congruence].
Qed.

Lemma occupyIssue_effort currentTeam issues issueId w :
  let w' := (run (AppContext.occupyIssue tx currentTeam issues issueId) w).2 in
  (transactions_in (log w') <= transactions_in (log w) + 2)%nat /\
  (timeouts_in (log w') = timeouts_in (log w) \/
   timeouts_in (log w') = (timeouts_in (log w) ++ [500])%list).
Proof.
  intros w'. subst w'. unfold AppContext.occupyIssue. rewrite run_call.
  destruct currentTeam as [team|]; [|cbn [return_ run snd]; split; [lia|auto]].
  rewrite run_bind. cbn [perform run handle].
  rewrite run_seq. destruct (onLine w); cbn [negb when skip return_ run snd];
    [|split; [lia|auto]].
  destruct (find_issue issueId issues) as [issue|]; [|cbn [return_ run snd]; split; [lia|auto]].
  rewrite run_seq.
  destruct (Status_eqb (status issue) open); cbn [negb when skip return_ run snd];
    [|split; [lia|auto]].
  rewrite run_seq.
  destruct (3 <=? AppContext.teamOccupiedCount (name team) issues)%nat;
    cbn [when skip return_ run snd]; [split; [lia|auto]|].
  rewrite run_bind. cbn [perform run handle].
  rewrite run_seq, run_exec_. cbn [perform run handle].
  rewrite run_bind.
  pose proof (attemptTransaction_effort issueId (name team)
                (with_issues_state
                   (AppContext.speculate issueId (name team) (clock w) (issues_state w)) w))
    as [Ht Hw].
  cbn zeta in Ht, Hw. cbn [log with_issues_state] in Ht, Hw.
  destruct (run (AppContext.attemptTransaction tx 3 issueId (name team) 0) _) as [[r|err] w1];
    cbn [snd] in *; [|split; assumption].
  rewrite run_seq.
  destruct (success r); cbn [negb when skip return_ run snd]; [split; assumption|].
  rewrite run_exec_. cbn [perform run handle snd log with_issues_state].
  split; assumption.
Qed.

End ClientEffort.

(** X4.  Whatever the world, the logged-in team, the list and the issue: a
    call of [occupyIssue], wired to either snapshot of the service, runs
    at most two store transactions, and the only timer wait it can add is
    one of 500 ms. *)
Theorem occupyIssue_bounded_effort (w : World) (currentTeam : option Team)
    (issues : list Issue) (issueId : string) (maxRetries : Z) :
  (let w' := (run (AppContext.occupyIssue PlainService.occupyIssueTransaction
                     currentTeam issues issueId) w).2 in
   (transactions_in (log w') <= transactions_in (log w) + 2)%nat /\
   (timeouts_in (log w') = timeouts_in (log w) \/
    timeouts_in (log w') = (timeouts_in (log w) ++ [500])%list)) /\
  (let w' := (run (AppContext.occupyIssue
                     (fun i t => CachedService.occupyIssueTransaction i t maxRetries)
                     currentTeam issues issueId) w).2 in
   (transactions_in (log w') <= transactions_in (log w) + 2)%nat /\
   (timeouts_in (log w') = timeouts_in (log w) \/
    timeouts_in (log w') = (timeouts_in (log w) ++ [500])%list)).
Proof.
  split.
  - apply occupyIssue_effort; [apply plain_one_transaction|apply plain_never_waits].
  - apply (occupyIssue_effort (fun i t => CachedService.occupyIssueTransaction i t maxRetries)).
    + intros i t. apply cached_one_transaction.
    + intros i t. apply cached_never_waits.
Qed.

(** X5.  Neither snapshot of [occupyIssueTransaction], and neither client
    built on one of them, ever throws or returns [undefined]: in every
    world the promise is fulfilled with a result object. *)
Theorem claim_always_answers (w : World) (issueId teamName : string) (maxRetries : Z)
    (currentTeam : option Team) (issues : list Issue) :
  (exists r, (run (PlainService.occupyIssueTransaction issueId teamName) w).1
             = Done (Some r)) /\
  (exists r, (run (CachedService.occupyIssueTransaction issueId teamName maxRetries) w).1
             = Done (Some r)) /\
  (exists r, (run (AppContext.occupyIssue PlainService.occupyIssueTransaction
                     currentTeam issues issueId) w).1 = Done (Some r)) /\
  (exists r, (run (AppContext.occupyIssue
                     (fun i t => CachedService.occupyIssueTransaction i t maxRetries)
                     currentTeam issues issueId) w).1 = Done (Some r)).
Proof.
  assert (Hsome : forall (p : Prog (option Result)),
            always_returns (fun r => r <> None) p ->
            exists r, (run p w).1 = Done (Some r)).
  { intros p Hp. destruct (run_always_returns _ p w Hp) as ([r|] & Hr & Hne).
    - exists r. exact Hr.
    - contradiction. }
  repeat split; apply Hsome.
  - apply plain_always_returns.
  - apply cached_always_returns.
  - apply occupyIssue_returns. apply plain_always_returns.
  - apply occupyIssue_returns. intros i t. apply cached_always_returns.
Qed.

(* ===================================================================== *)
(** * The service: issues that are not there, a store that fails *)
(* ===================================================================== *)

Lemma run_cached_missing (w : World) (issueId teamName : string) (maxRetries : Z) :
  issueId <> "" -> teamName <> "" ->
  issuesDb w !! issueId = None -> fault (arrive w).1 = None ->
  run (CachedService.occupyIssueTransaction issueId teamName maxRetries) w
  = (Done (Some (failure "Issue not found")), logged (EvGetDoc issueId) (arrive w).2).
Proof.
  intros Hi Ht Hd Hf.
  unfold CachedService.occupyIssueTransaction, CachedService.try_block.
  rewrite run_call, run_seq, run_try_catch, run_seq.
  rewrite (truthy_str_true _ Hi), (truthy_str_true _ Ht). cbn [negb orb when skip run].
  rewrite run_bind, (run_getDoc w issueId Hf), Hd. reflexivity.
Qed.

(** X6.  Claims that name no issue of the store.  The cached service
    refuses an empty issue id or team name at once, with no store call;
    for an id the store does not hold it returns 'Issue not found' after
    its one read.  The plain service, for a team under its quota, meets
    the missing document inside the transaction and returns the same
    message after the query and the rejected transaction; it writes
    nothing. *)
Theorem claim_of_missing_issue
    (w : World) (issueId teamName : string) (maxRetries : Z) :
  (issueId = "" \/ teamName = "" ->
   run (CachedService.occupyIssueTransaction issueId teamName maxRetries) w
   = (Done (Some (failure "Issue ID and team name are required")), w)) /\
  (issueId <> "" -> teamName <> "" ->
   issuesDb w !! issueId = None -> fault (arrive w).1 = None ->
   run (CachedService.occupyIssueTransaction issueId teamName maxRetries) w
   = (Done (Some (failure "Issue not found")), logged (EvGetDoc issueId) (arrive w).2)) /\
  (net w = [] -> issuesDb w !! issueId = None ->
   (occupied_count teamName (issuesDb w) < 3)%nat ->
   let out := run (PlainService.occupyIssueTransaction issueId teamName) w in
   out.1 = Done (Some (failure "Issue not found")) /\
   issuesDb out.2 = issuesDb w /\
   log out.2 = (log w ++ [EvGetDocs {| q_assignedTo := teamName; q_status := occupied;
                                       q_limit := None |};
                          EvTransaction issueId false])%list).
Proof.
  split; [|split].
  - intros He.
    unfold CachedService.occupyIssueTransaction, CachedService.try_block.
    rewrite run_call, run_seq, run_try_catch, run_seq.
    replace (negb (Js.truthy_str issueId) || negb (Js.truthy_str teamName)) with true.
    + reflexivity.
    + symmetry. apply orb_true_iff.
      destruct He as [He|He]; [left|right]; apply negb_true_iff, truthy_str_empty_iff; exact He.
  - apply run_cached_missing.
  - intros Hn Hd Hc out. unfold out; clear out.
    unfold PlainService.occupyIssueTransaction.
    rewrite run_call, run_try_catch, run_bind.
    rewrite (run_getDocs w _ (quiet_arrive w Hn)), (arrive_offline w Hn).
    cbn [snd]. rewrite run_seq, length_query_all.
    replace (3 <=? Z.of_nat (occupied_count teamName (issuesDb w))) with false
      by (symmetry; apply Z.leb_gt; lia).
    cbn [when skip run]. rewrite run_bind. unfold await. cbn [run handle].
    rewrite arrive_offline by (cbn; exact Hn). cbn [fault quiet issuesDb logged].
    rewrite Hd. cbn. rewrite <- !app_assoc. auto.
Qed.

Lemma claim_of_missing_issue_witness :
  run (CachedService.occupyIssueTransaction "" "TeamBravo" 3) open_issue_world
  = (Done (Some (failure "Issue ID and team name are required")), open_issue_world) /\
  run (CachedService.occupyIssueTransaction "I9" "TeamBravo" 3) open_issue_world
  = (Done (Some (failure "Issue not found")), logged (EvGetDoc "I9") open_issue_world) /\
  (run (PlainService.occupyIssueTransaction "I9" "TeamBravo") open_issue_world).1
  = Done (Some (failure "Issue not found")).
Proof.
  destruct (claim_of_missing_issue open_issue_world "" "TeamBravo" 3) as (H1 & _).
  destruct (claim_of_missing_issue open_issue_world "I9" "TeamBravo" 3) as (_ & H2 & H3).
  assert (Hd : issuesDb open_issue_world !! "I9" = None) by (vm_compute; reflexivity).
  assert (Hq : (occupied_count "TeamBravo" (issuesDb open_issue_world) < 3)%nat)
    by (vm_compute; lia).
  split; [exact (H1 (or_introl eq_refl))|].
  split; [exact (H2 ltac:(discriminate) ltac:(discriminate) Hd eq_refl)|].
  exact (proj1 (H3 eq_refl Hd Hq)).
Defined.

(** The first read is rejected: the outer catch answers, and nothing else
    happens. *)
Lemma run_cached_pre_read_rejected
    (w : World) (issueId teamName : string) (maxRetries : Z) (err : Js.Error) :
  issueId <> "" -> teamName <> "" ->
  fault (arrive w).1 = Some err ->
  run (CachedService.occupyIssueTransaction issueId teamName maxRetries) w
  = (Done (Some (failure
       (if Js.seq_ostr (Js.code err) "permission-denied"
        then "You do not have permission to occupy this issue."
        else if Js.seq_ostr (Js.code err) "failed-precondition"
        then "The issue status has changed. Please refresh and try again."
        else if Js.seq_ostr (Js.code err) "unavailable"
                || Js.seq_ostr (Js.code err) "deadline-exceeded"
        then "The service is temporarily unavailable. Please try again in a moment."
        else Js.or_str (Js.message err) "Failed to occupy issue. Please try again."))),
     logged (EvGetDoc issueId) (arrive w).2).
Proof.
  intros Hi Ht Hf.
  unfold CachedService.occupyIssueTransaction, CachedService.try_block.
  rewrite run_call, run_seq, run_try_catch, run_seq.
  rewrite (truthy_str_true _ Hi), (truthy_str_true _ Ht). cbn [negb orb when skip run].
  rewrite run_bind. unfold await at 1. cbn [run handle].
  destruct (arrive w) as [n w1]. cbn [fst snd] in *. rewrite Hf. cbn [run].
  unfold CachedService.outer_catch.
  destruct (Js.seq_ostr (Js.code err) "permission-denied"); [reflexivity|].
  destruct (Js.seq_ostr (Js.code err) "failed-precondition"); [reflexivity|].
  destruct (Js.seq_ostr (Js.code err) "unavailable"
            || Js.seq_ostr (Js.code err) "deadline-exceeded"); reflexivity.
Qed.

(** X7.  A rejection of the first read ends a call of the cached service:
    no other event follows the read, and the message is chosen by the
    code of the error (lines 709-733): permission-denied,
    failed-precondition, unavailable or deadline-exceeded each have a
    text of their own, and an error without code gives its own message,
    or the fallback when that is empty. *)
Theorem cached_pre_read_failure
    (w : World) (issueId teamName : string) (maxRetries : Z) (err : Js.Error) :
  issueId <> "" -> teamName <> "" ->
  fault (arrive w).1 = Some err ->
  let out := run (CachedService.occupyIssueTransaction issueId teamName maxRetries) w in
  out.2 = logged (EvGetDoc issueId) (arrive w).2 /\
  (Js.code err = Some "permission-denied" ->
   out.1 = Done (Some (failure "You do not have permission to occupy this issue."))) /\
  (Js.code err = Some "failed-precondition" ->
   out.1 = Done (Some (failure "The issue status has changed. Please refresh and try again."))) /\
  (Js.code err = Some "unavailable" \/ Js.code err = Some "deadline-exceeded" ->
   out.1 = Done (Some (failure
             "The service is temporarily unavailable. Please try again in a moment."))) /\
  (Js.code err = None ->
   out.1 = Done (Some (failure (Js.or_str (Js.message err)
                                  "Failed to occupy issue. Please try again.")))).
Proof.
  intros Hi Ht Hf out. unfold out.
  rewrite (run_cached_pre_read_rejected w issueId teamName maxRetries err Hi Ht Hf).
  cbn [fst snd].
  split; [reflexivity|].
  split; [intros ->; reflexivity|].
  split; [intros ->; reflexivity|].
  split; [intros [-> | ->]; reflexivity|].
  intros ->; reflexivity.
Qed.

Lemma cached_pre_read_failure_witness :
  run (CachedService.occupyIssueTransaction "I1" "TeamBravo" 3) unavailable_world
  = (Done (Some (failure
       "The service is temporarily unavailable. Please try again in a moment.")),
     logged (EvGetDoc "I1") open_issue_world).
Proof.
  destruct (cached_pre_read_failure unavailable_world "I1" "TeamBravo" 3 network_error)
    as (Hw & _ & _ & Hmsg & _); [discriminate|discriminate|reflexivity|].
  rewrite (surjective_pairing (run _ unavailable_world)).
  cbv zeta in Hw, Hmsg. rewrite Hw, (Hmsg (or_introl eq_refl)). reflexivity.
Defined.

(** X8.  The store rejects the first read of a claim with the code
    [unavailable] or [deadline-exceeded], within the time limit.  The
    cached service turns that into its own message, which has none of the
    transient indicators of the client, so neither layer retries: the
    client returns that message after one document read, the store is
    untouched and the list is the one the call started from. *)
Theorem occupyIssue_store_unavailable
    (w : World) (team : Team) (issues : list Issue) (issueId : string)
    (issue : Issue) (err : Js.Error) (maxRetries : Z) :
  onLine w = true ->
  find_issue issueId issues = Some issue ->
  status issue = open ->
  (AppContext.teamOccupiedCount (name team) issues < 3)%nat ->
  issueId <> "" -> name team <> "" ->
  fault (arrive w).1 = Some err ->
  Js.code err = Some "unavailable" \/ Js.code err = Some "deadline-exceeded" ->
  Z.of_N (delay (arrive w).1) < AppContext.TIMEOUT_MS ->
  let out := run (AppContext.occupyIssue
                    (fun i t => CachedService.occupyIssueTransaction i t maxRetries)
                    (Some team) issues issueId) w in
  out.1 = Done (Some (failure
            "The service is temporarily unavailable. Please try again in a moment.")) /\
  log out.2 = (log w ++ [EvGetDoc issueId])%list /\
  issuesDb out.2 = issuesDb w /\
  issues_state out.2 = issues.
Proof.
  intros Hon Hfind Hopen Hcount Hi Ht Hf Hcode Hquick out. unfold out; clear out.
  rewrite (run_occupyIssue_guarded _ w team issues issueId issue Hon Hfind Hopen Hcount).
  set (w0 := with_issues_state _ w).
  destruct (arrive_with_issues_state
              (AppContext.speculate issueId (name team) (clock w) (issues_state w)) w)
    as (Ha1 & Ha2 & Ha3 & Ha4).
  fold w0 in Ha1, Ha2, Ha3, Ha4.
  assert (Hf0 : fault (arrive w0).1 = Some err) by (rewrite Ha1; exact Hf).
  pose proof (run_cached_pre_read_rejected w0 issueId (name team) maxRetries err Hi Ht Hf0)
    as Hrun0.
  assert (Hw : (run (CachedService.occupyIssueTransaction issueId (name team) maxRetries)
                  w0).2 = logged (EvGetDoc issueId) (arrive w0).2)
    by (rewrite Hrun0; reflexivity).
  assert (Hmsg : (run (CachedService.occupyIssueTransaction issueId (name team) maxRetries)
                    w0).1
                 = Done (Some (failure
                     "The service is temporarily unavailable. Please try again in a moment."))).
  { rewrite Hrun0. cbn [fst]. destruct Hcode as [-> | ->]; reflexivity. }
  clear Hrun0.
  assert (Hwr : run (AppContext.wrapped
                       (fun i t => CachedService.occupyIssueTransaction i t maxRetries)
                       issueId (name team)) w0
                = (Done (Some (failure
                     "The service is temporarily unavailable. Please try again in a moment.")),
                   logged (EvGetDoc issueId) (arrive w0).2)).
  { rewrite run_wrapped.
    destruct (run (CachedService.occupyIssueTransaction issueId (name team) maxRetries) w0)
      as [o w1] eqn:Hrun.
    cbn [fst snd] in Hw, Hmsg. subst o w1.
    cbn [clock logged]. rewrite Ha2. subst w0. cbn [clock with_issues_state].
    replace (AppContext.TIMEOUT_MS <=? clock w + Z.of_N (delay (arrive w).1) - clock w)
      with false by (symmetry; apply Z.leb_gt; lia).
    reflexivity. }
  assert (Htr : transient (failure
                  "The service is temporarily unavailable. Please try again in a moment.")
                = false) by (vm_compute; reflexivity).
  rewrite (attemptTransaction_stops _ _ _ _ _ _ Hwr (or_intror Htr)).
  cbn [success failure fst snd log logged issuesDb issues_state with_issues_state].
  rewrite Ha3, Ha4. auto.
Qed.

Lemma occupyIssue_store_unavailable_witness :
  let out := run (AppContext.occupyIssue
                    (fun i t => CachedService.occupyIssueTransaction i t 3)
                    (Some (mkTeam "TeamBravo" 0 true))
                    [sample_issue "I1" "easy" open None None] "I1") unavailable_world in
  out.1 = Done (Some (failure
            "The service is temporarily unavailable. Please try again in a moment.")) /\
  log out.2 = [EvGetDoc "I1"] /\
  issues_state out.2 = [sample_issue "I1" "easy" open None None].
Proof.
  intros out.
  assert (Hcount : (AppContext.teamOccupiedCount "TeamBravo"
                      [sample_issue "I1" "easy" open None None] < 3)%nat)
    by (vm_compute; lia).
  destruct (occupyIssue_store_unavailable unavailable_world (mkTeam "TeamBravo" 0 true)
              [sample_issue "I1" "easy" open None None] "I1"
              (sample_issue "I1" "easy" open None None) network_error 3
              eq_refl eq_refl eq_refl Hcount ltac:(discriminate) ltac:(discriminate)
              eq_refl (or_introl eq_refl) ltac:(vm_compute; reflexivity))
    as (H1 & H2 & _ & H4).
  repeat split; assumption.
Defined.

(* ===================================================================== *)
(** * The service: the quota cache *)
(* ===================================================================== *)

(** The stale path of a successful claim, field by field. *)
Lemma run_cached_claim_stale (w : World) (issueId teamName : string) (maxRetries : Z) (d : Issue) :
  issueId <> "" -> teamName <> "" ->
  0 < maxRetries ->
  net w = [] ->
  issuesDb w !! issueId = Some d -> status d = open ->
  assignedTo d <> Some teamName ->
  CachedService.stale (teamIssueCountCache w !! teamName) (clock w) = true ->
  (occupied_count teamName (issuesDb w) < 3)%nat ->
  let out := run (CachedService.occupyIssueTransaction issueId teamName maxRetries) w in
  out.1 = Done (Some ok) /\
  issuesDb out.2 = <[issueId := claimed teamName (clock w) d]> (issuesDb w) /\
  teamIssueCountCache out.2
  = <[teamName := {| count := Z.of_nat (occupied_count teamName (issuesDb w)) + 1;
                     timestamp := clock w |}]> (teamIssueCountCache w) /\
  log out.2 = (log w ++ [EvGetDoc issueId; EvGetDocs (CachedService.team_query teamName);
                         EvTransaction issueId true])%list /\
  teamsDb out.2 = teamsDb w /\ clock out.2 = clock w /\ net out.2 = [] /\
  issues_state out.2 = issues_state w.
Proof.
  intros Hi Ht Hm Hn Hd Hs Ha Hst Hc out. unfold out; clear out.
  unfold CachedService.occupyIssueTransaction, CachedService.try_block.
  rewrite run_call, run_seq, run_try_catch, run_seq.
  rewrite (truthy_str_true _ Hi), (truthy_str_true _ Ht). cbn [negb orb when skip run].
  rewrite run_bind, (run_getDoc w issueId (quiet_arrive w Hn)), Hd, run_seq, Hs.
  cbn [Status_eqb negb when skip run].
  rewrite (arrive_offline w Hn). cbn [snd].
  rewrite run_bind. cbn [perform run handle].
  rewrite run_bind. cbn [perform run handle].
  cbn [clock logged teamIssueCountCache].
  rewrite run_seq.
  rewrite stale_fresh in Hst. apply negb_true_iff in Hst. rewrite Hst.
  cbn [andb when skip run].
  destruct (for_lt_first maxRetries
              (fun _ : Z =>
                 try_catch (CachedService.attempt_try issueId teamName
                              (teamIssueCountCache w !! teamName) (clock w))
                           (CachedService.attempt_catch maxRetries Js.Uninitialized)) Hm)
    as [rest ->].
  rewrite run_seq, run_round, run_try_catch.
  unfold CachedService.attempt_try.
  rewrite run_seq, stale_fresh, Hst. cbn [negb when].
  rewrite run_bind, run_getDocs by (apply quiet_arrive; exact Hn).
  rewrite arrive_offline by exact Hn. cbn [snd issuesDb logged].
  rewrite run_seq, length_query_docs.
  replace (Nat.min 3 (occupied_count teamName (issuesDb w)))
    with (occupied_count teamName (issuesDb w)) by lia.
  replace (3 <=? Z.of_nat (occupied_count teamName (issuesDb w))) with false
    by (symmetry; apply Z.leb_gt; lia).
  cbn [when skip run]. rewrite run_exec_. cbn [perform run handle].
  rewrite run_bind.
  erewrite run_transaction_commits; [|cbn; exact Hn|cbn; exact Hd|exact Hs|exact Ha].
  rewrite run_bind. cbn [perform run handle]. cbn.
  rewrite lookup_insert_eq. cbn.
  rewrite insert_insert_eq.
  rewrite <- !app_assoc. cbn.
  repeat split; auto.
Qed.

Lemma occupied_count_claim teamName (db : gmap string Issue) j dj d' :
  db !! j = Some dj ->
  matches (CachedService.team_query teamName) dj = false ->
  matches (CachedService.team_query teamName) d' = true ->
  occupied_count teamName (<[j := d']> db) = S (occupied_count teamName db).
Proof.
  intros Hj Hm Hm'. unfold occupied_count.
  rewrite map_filter_insert_True by (cbn; exact Hm').
  apply map_size_insert_None.
  apply map_lookup_filter_None. right. intros x Hx. cbn. rewrite Hj in Hx.
  injection Hx as <-. congruence.
Qed.

Lemma matches_claimed teamName now d :
  matches (CachedService.team_query teamName) (claimed teamName now d) = true.
Proof. unfold matches. cbn. rewrite String.eqb_refl. reflexivity. Qed.

Lemma matches_open teamName d :
  status d = open -> matches (CachedService.team_query teamName) d = false.
Proof. intros H. unfold matches. cbn. rewrite H. apply andb_false_r. Qed.

(** X9.  With a cache entry of the team younger than the TTL the cached
    service decides the quota from the entry alone, and does not query
    the store: an entry of three or more rejects the claim after the one
    document read, whatever the store holds; an entry below three lets
    the transaction run, and its commit raises the entry by one and
    stamps it with the time of the call. *)
Theorem cached_trusts_fresh_entry
    (w : World) (issueId teamName : string) (maxRetries : Z) (d : Issue) (c : CacheEntry) :
  issueId <> "" -> teamName <> "" ->
  0 < maxRetries ->
  net w = [] ->
  issuesDb w !! issueId = Some d -> status d = open ->
  teamIssueCountCache w !! teamName = Some c ->
  clock w - timestamp c < CachedService.CACHE_TTL ->
  let out := run (CachedService.occupyIssueTransaction issueId teamName maxRetries) w in
  (3 <= count c ->
   out.1 = Done (Some (failure msg_quota)) /\
   issuesDb out.2 = issuesDb w /\
   teamIssueCountCache out.2 = teamIssueCountCache w /\
   log out.2 = (log w ++ [EvGetDoc issueId])%list) /\
  (count c < 3 -> assignedTo d <> Some teamName ->
   out.1 = Done (Some ok) /\
   issuesDb out.2 = <[issueId := claimed teamName (clock w) d]> (issuesDb w) /\
   teamIssueCountCache out.2
   = <[teamName := {| count := count c + 1; timestamp := clock w |}]> (teamIssueCountCache w) /\
   log out.2 = (log w ++ [EvGetDoc issueId; EvTransaction issueId true])%list).
Proof.
  intros Hi Ht Hm Hn Hd Hs Hc Hfresh out. unfold out; clear out.
  assert (Hf : CachedService.fresh (teamIssueCountCache w !! teamName) (clock w) = true).
  { rewrite Hc. cbn. apply Z.ltb_lt. exact Hfresh. }
  unfold CachedService.occupyIssueTransaction, CachedService.try_block.
  rewrite run_call, run_seq, run_try_catch, run_seq.
  rewrite (truthy_str_true _ Hi), (truthy_str_true _ Ht). cbn [negb orb when skip run].
  rewrite run_bind, (run_getDoc w issueId (quiet_arrive w Hn)), Hd, run_seq, Hs.
  cbn [Status_eqb negb when skip run].
  rewrite (arrive_offline w Hn). cbn [snd].
  rewrite run_bind. cbn [perform run handle].
  rewrite run_bind. cbn [perform run handle].
  cbn [clock logged teamIssueCountCache].
  rewrite run_seq, Hf, Hc. cbn [andb].
  split.
  - intros H3. apply Z.leb_le in H3. rewrite H3. cbn. auto.
  - intros H3 Ha. apply Z.leb_gt in H3. rewrite H3. cbn [when skip run].
    destruct (for_lt_first maxRetries
                (fun _ : Z =>
                   try_catch (CachedService.attempt_try issueId teamName (Some c) (clock w))
                             (CachedService.attempt_catch maxRetries Js.Uninitialized)) Hm)
      as [rest ->].
    rewrite run_seq, run_round, run_try_catch.
    unfold CachedService.attempt_try.
    rewrite run_seq, stale_fresh. rewrite Hc in Hf. rewrite Hf. cbn [negb when skip run].
    rewrite run_bind.
    erewrite run_transaction_commits; [|cbn; exact Hn|cbn; exact Hd|exact Hs|exact Ha].
    rewrite run_bind. cbn [perform run handle]. cbn.
    rewrite Hc. cbn. rewrite <- !app_assoc. cbn. auto.
Qed.

Lemma cached_trusts_fresh_entry_witness :
  (run (CachedService.occupyIssueTransaction "I1" "TeamBravo" 3) (cached_world 3)).1
  = Done (Some (failure msg_quota)) /\
  log (run (CachedService.occupyIssueTransaction "I1" "TeamBravo" 3) (cached_world 3)).2
  = [EvGetDoc "I1"] /\
  (run (CachedService.occupyIssueTransaction "I1" "TeamBravo" 3) (cached_world 1)).1
  = Done (Some ok) /\
  teamIssueCountCache
    (run (CachedService.occupyIssueTransaction "I1" "TeamBravo" 3) (cached_world 1)).2
    !! "TeamBravo"
  = Some {| count := 2; timestamp := 100000 |}.
Proof.
  assert (Hd : forall n, issuesDb (cached_world n) !! "I1"
                         = Some (sample_issue "I1" "easy" open None None))
    by (intros n; vm_compute; reflexivity).
  assert (Hc : forall n, teamIssueCountCache (cached_world n) !! "TeamBravo"
                         = Some {| count := n; timestamp := 98000 |})
    by (intros n; reflexivity).
  assert (Hfresh : 100000 - 98000 < CachedService.CACHE_TTL) by (vm_compute; reflexivity).
  destruct (cached_trusts_fresh_entry (cached_world 3) "I1" "TeamBravo" 3 _ _
              ltac:(discriminate) ltac:(discriminate) ltac:(reflexivity) eq_refl
              (Hd 3) eq_refl (Hc 3) Hfresh) as [Hfull _].
  destruct (cached_trusts_fresh_entry (cached_world 1) "I1" "TeamBravo" 3 _ _
              ltac:(discriminate) ltac:(discriminate) ltac:(reflexivity) eq_refl
              (Hd 1) eq_refl (Hc 1) Hfresh) as [_ Hroom].
  destruct (Hfull ltac:(vm_compute; discriminate)) as (F1 & _ & _ & F4).
  destruct (Hroom ltac:(vm_compute; reflexivity) ltac:(discriminate)) as (R1 & _ & R3 & _).
  split; [exact F1|]. split; [exact F4|]. split; [exact R1|].
  rewrite R3. apply lookup_insert_eq.
Defined.

(** X10.  A claim that consults the store (no cache entry, or one as old
    as the TTL) and commits leaves the team's cache entry equal to the
    number of issues the store now shows as occupied by the team, stamped
    with the time of the call; the store was called three times: read,
    query, transaction. *)
Theorem cached_claim_refreshes_cache
    (w : World) (issueId teamName : string) (maxRetries : Z) (d : Issue) :
  issueId <> "" -> teamName <> "" ->
  0 < maxRetries ->
  net w = [] ->
  issuesDb w !! issueId = Some d -> status d = open ->
  assignedTo d <> Some teamName ->
  CachedService.stale (teamIssueCountCache w !! teamName) (clock w) = true ->
  (occupied_count teamName (issuesDb w) < 3)%nat ->
  let out := run (CachedService.occupyIssueTransaction issueId teamName maxRetries) w in
  out.1 = Done (Some ok) /\
  teamIssueCountCache out.2 !! teamName
  = Some {| count := Z.of_nat (occupied_count teamName (issuesDb out.2));
            timestamp := clock w |} /\
  log out.2 = (log w ++ [EvGetDoc issueId; EvGetDocs (CachedService.team_query teamName);
                         EvTransaction issueId true])%list.
Proof.
  intros Hi Ht Hm Hn Hd Hs Ha Hst Hc out.
  destruct (run_cached_claim_stale w issueId teamName maxRetries d Hi Ht Hm Hn Hd Hs Ha Hst Hc)
    as (H1 & H2 & H3 & H4 & _).
  fold out in H1, H2, H3, H4.
  split; [exact H1|]. split; [|exact H4].
  rewrite H3, H2, lookup_insert_eq.
  rewrite (occupied_count_claim teamName (issuesDb w) issueId d _ Hd
             (matches_open teamName d Hs) (matches_claimed teamName (clock w) d)).
  do 2 f_equal. lia.
Qed.

Lemma cached_claim_refreshes_cache_witness :
  let out := run (CachedService.occupyIssueTransaction "I1" "TeamBravo" 3)
                 open_issue_world in
  out.1 = Done (Some ok) /\
  teamIssueCountCache out.2 !! "TeamBravo"
  = Some {| count := Z.of_nat (occupied_count "TeamBravo" (issuesDb out.2));
            timestamp := 100000 |} /\
  occupied_count "TeamBravo" (issuesDb out.2) = 1%nat.
Proof.
  intros out.
  assert (Hd : issuesDb open_issue_world !! "I1"
               = Some (sample_issue "I1" "easy" open None None))
    by (vm_compute; reflexivity).
  assert (Hq : (occupied_count "TeamBravo" (issuesDb open_issue_world) < 3)%nat)
    by (vm_compute; lia).
  destruct (cached_claim_refreshes_cache open_issue_world "I1" "TeamBravo" 3 _
              ltac:(discriminate) ltac:(discriminate) ltac:(reflexivity) eq_refl
              Hd eq_refl ltac:(discriminate) eq_refl Hq) as (H1 & H2 & _).
  split; [exact H1|]. split; [exact H2|]. vm_compute. reflexivity.
Defined.

(* ===================================================================== *)
(** * The service: a rejected transaction, and the two snapshots side by side *)
(* ===================================================================== *)

Lemma rejections_in_app l ev :
  rejections_in (l ++ [ev])
  = (rejections_in l + match ev with EvTransaction _ false => 1 | _ => 0 end)%nat.
Proof.
  unfold rejections_in. rewrite List.filter_app, length_app. cbn.
  destruct ev as [| | | |i [|]|]; reflexivity.
Qed.

Lemma rejection_step {X} (e : Eff X) (F K : X -> Prop) (w : World) :
  rejection_event e F K ->
  (rejections_in (log (handle e w).2) = rejections_in (log w) /\ K (handle e w).1) \/
  F (handle e w).1.
Proof.
  destruct e; cbn [rejection_event]; intros H.
  1-8, 14: left; split; [|apply H]; cbn -[rejections_in]; try reflexivity.
  - rewrite rejections_in_app. cbn. lia.
  - left. cbn -[rejections_in]. destruct (arrive w) as [n w1] eqn:Ha.
    assert (Hl : log w1 = log w) by (rewrite <- (log_arrive w), Ha; reflexivity).
    destruct (fault n); cbn -[rejections_in]; rewrite rejections_in_app, Hl; cbn; split; try lia; apply H.
  - left. cbn -[rejections_in]. destruct (arrive w) as [n w1] eqn:Ha.
    assert (Hl : log w1 = log w) by (rewrite <- (log_arrive w), Ha; reflexivity).
    destruct (fault n); cbn -[rejections_in]; rewrite rejections_in_app, Hl; cbn; split; try lia; apply H.
  - left. cbn -[rejections_in]. destruct (arrive w) as [n w1] eqn:Ha.
    assert (Hl : log w1 = log w) by (rewrite <- (log_arrive w), Ha; reflexivity).
    destruct (fault n); [|destruct (issuesDb w1 !! issueId)];
      cbn -[rejections_in]; rewrite rejections_in_app; cbn [log logged with_issuesDb]; rewrite Hl; cbn;
      split; try lia; apply H.
  - left. cbn -[rejections_in]. destruct (arrive w) as [n w1] eqn:Ha.
    assert (Hl : log w1 = log w) by (rewrite <- (log_arrive w), Ha; reflexivity).
    destruct (fault n); [|destruct (teamsDb w1 !! team)];
      cbn -[rejections_in]; rewrite rejections_in_app; cbn [log logged with_teamsDb]; rewrite Hl; cbn;
      split; try lia; apply H.
  - destruct H as [HF HK]. cbn -[rejections_in]. destruct (arrive w) as [n w1] eqn:Ha.
    assert (Hl : log w1 = log w) by (rewrite <- (log_arrive w), Ha; reflexivity).
    destruct (fault n); [right; apply HF|].
    destruct (body (clock w1) (issuesDb w1 !! issueId)) as [err|[u r]];
      [right; apply HF|].
    destruct (issuesDb w1 !! issueId); [|right; apply HF].
    left. cbn -[rejections_in]. rewrite rejections_in_app. cbn [log logged with_issuesDb]. rewrite Hl. cbn.
    split; [lia|apply HK].
Qed.

Lemma run_after_rejection {A} (Q : A -> Prop) (p : Prog A) :
  after_rejection Q p ->
  forall w, rejections_in (log (run p w).2) <> rejections_in (log w) ->
            exists a, (run p w).1 = Done a /\ Q a.
Proof.
  induction p as [a|e|X e k IH]; cbn [after_rejection run]; intros Hp w Hr.
  - cbn in Hr. congruence.
  - cbn in Hr. congruence.
  - destruct (rejection_step e _ _ w Hp) as [[Hsame HK]|HF].
    + destruct (handle e w) as [x w1]. cbn [fst snd] in *.
      apply IH; [exact HK|]. congruence.
    + destruct (handle e w) as [x w1]. cbn [fst snd] in *.
      apply run_always_returns. exact HF.
Qed.

Lemma cached_after_rejection issueId teamName maxRetries :
  after_rejection
    (fun r => r = Some (failure "Cannot access 'lastError' before initialization"))
    (CachedService.occupyIssueTransaction issueId teamName maxRetries).
Proof. open_service. walk. all: try reflexivity. Qed.

(** X11.  Whenever a transaction of the cached service is rejected, by the
    store or by its own body (the issue is gone, is no longer open, or is
    already assigned to the team), the call returns the failure 'Cannot
    access 'lastError' before initialization' instead of the message of
    the rejection: the catch block of the retry loop throws on its first
    statement, and the outer catch reports that error. *)
Theorem cached_rejection_loses_its_message
    (w : World) (issueId teamName : string) (maxRetries : Z) :
  let out := run (CachedService.occupyIssueTransaction issueId teamName maxRetries) w in
  rejections_in (log out.2) <> rejections_in (log w) ->
  out.1 = Done (Some (failure "Cannot access 'lastError' before initialization")).
Proof.
  intros out Hr.
  destruct (run_after_rejection _ _ (cached_after_rejection issueId teamName maxRetries) w Hr)
    as (a & Ha & ->).
  exact Ha.
Qed.

Lemma cached_rejection_loses_its_message_witness :
  rejections_in (log (run (CachedService.occupyIssueTransaction "I1" "TeamBravo" 3)
                        transient_world).2) = 1%nat /\
  (run (CachedService.occupyIssueTransaction "I1" "TeamBravo" 3) transient_world).1
  = Done (Some (failure "Cannot access 'lastError' before initialization")).
Proof.
  assert (H : rejections_in (log (run (CachedService.occupyIssueTransaction
                                         "I1" "TeamBravo" 3) transient_world).2) = 1%nat)
    by (vm_compute; reflexivity).
  split; [exact H|].
  apply (cached_rejection_loses_its_message transient_world "I1" "TeamBravo" 3).
  rewrite H. vm_compute. discriminate.
Defined.

Lemma run_plain_claim (w : World) (issueId teamName : string) (d : Issue) :
  net w = [] ->
  issuesDb w !! issueId = Some d -> status d = open ->
  (occupied_count teamName (issuesDb w) < 3)%nat ->
  let out := run (PlainService.occupyIssueTransaction issueId teamName) w in
  out.1 = Done (Some ok) /\
  issuesDb out.2 = <[issueId := claimed_plain teamName (clock w) d]> (issuesDb w).
Proof.
  intros Hn Hd Hs Hc out. unfold out; clear out.
  unfold PlainService.occupyIssueTransaction.
  rewrite run_call, run_try_catch, run_bind.
  rewrite (run_getDocs w _ (quiet_arrive w Hn)), (arrive_offline w Hn).
  cbn [snd]. rewrite run_seq, length_query_all.
  replace (3 <=? Z.of_nat (occupied_count teamName (issuesDb w))) with false
    by (symmetry; apply Z.leb_gt; lia).
  cbn [when skip run]. rewrite run_bind. unfold await. cbn [run handle].
  rewrite arrive_offline by (cbn; exact Hn). cbn [fault quiet issuesDb logged].
  rewrite Hd. unfold PlainService.transaction_body. rewrite Hs. cbn.
  auto.
Qed.

(** X12.  The two snapshots of the service agree on an existing open issue
    that is not assigned to the claiming team, as long as the cache of the
    second has no fresh entry: they return the same result, the quota
    failure from three occupied issues on and a success below, and on a
    success they write the same status, holder and time; the second also
    writes [lastUpdated]. *)
Theorem snapshots_agree_on_open_issue
    (w : World) (issueId teamName : string) (maxRetries : Z) (d : Issue) :
  issueId <> "" -> teamName <> "" ->
  0 < maxRetries ->
  net w = [] ->
  issuesDb w !! issueId = Some d -> status d = open ->
  assignedTo d <> Some teamName ->
  CachedService.stale (teamIssueCountCache w !! teamName) (clock w) = true ->
  let plain := run (PlainService.occupyIssueTransaction issueId teamName) w in
  let cached := run (CachedService.occupyIssueTransaction issueId teamName maxRetries) w in
  plain.1 = cached.1 /\
  ((3 <= occupied_count teamName (issuesDb w))%nat ->
   cached.1 = Done (Some (failure msg_quota)) /\
   issuesDb plain.2 = issuesDb w /\ issuesDb cached.2 = issuesDb w) /\
  ((occupied_count teamName (issuesDb w) < 3)%nat ->
   cached.1 = Done (Some ok) /\
   issuesDb plain.2 = <[issueId := claimed_plain teamName (clock w) d]> (issuesDb w) /\
   issuesDb cached.2 = <[issueId := claimed teamName (clock w) d]> (issuesDb w)).
Proof.
  intros Hi Ht Hm Hn Hd Hs Ha Hst plain cached.
  destruct (le_lt_dec 3 (occupied_count teamName (issuesDb w))) as [Hq|Hq].
  - destruct (plain_rejects_over_quota w issueId teamName Hn Hq) as [Hp1 Hp2].
    assert (Hc : forall c, teamIssueCountCache w !! teamName = Some c ->
                           clock w - timestamp c < CachedService.CACHE_TTL -> 3 <= count c).
    { intros c Hc Hfresh. rewrite Hc in Hst. cbn in Hst. apply Z.leb_le in Hst. lia. }
    destruct (cached_rejects_over_quota w issueId teamName maxRetries d
                Hi Ht Hm Hn Hd Hs Hq Hc) as [Hc1 Hc2].
    fold plain in Hp1, Hp2. fold cached in Hc1, Hc2.
    split; [congruence|]. split; [auto|]. intros Hlt. lia.
  - destruct (run_plain_claim w issueId teamName d Hn Hd Hs Hq) as [Hp1 Hp2].
    destruct (cached_admits_under_quota w issueId teamName maxRetries d
                Hi Ht Hm Hn Hd Hs Ha Hst Hq) as [Hc1 Hc2].
    fold plain in Hp1, Hp2. fold cached in Hc1, Hc2.
    split; [congruence|]. split; [intros Hge; lia|auto].
Qed.

Lemma snapshots_agree_on_open_issue_witness :
  (run (PlainService.occupyIssueTransaction "I1" "TeamBravo") open_issue_world).1
  = (run (CachedService.occupyIssueTransaction "I1" "TeamBravo" 3) open_issue_world).1 /\
  (run (CachedService.occupyIssueTransaction "I1" "TeamBravo" 3) open_issue_world).1
  = Done (Some ok).
Proof.
  assert (Hd : issuesDb open_issue_world !! "I1"
               = Some (sample_issue "I1" "easy" open None None))
    by (vm_compute; reflexivity).
  destruct (snapshots_agree_on_open_issue open_issue_world "I1" "TeamBravo" 3 _
              ltac:(discriminate) ltac:(discriminate) ltac:(reflexivity) eq_refl
              Hd eq_refl ltac:(discriminate) eq_refl) as (H1 & _ & H3).
  split; [exact H1|].
  apply H3. vm_compute. lia.
Defined.

(* ===================================================================== *)
(** * Administration: assigning, awarding, reviewing *)
(* ===================================================================== *)

Lemma occupied_count_open teamName (db : gmap string Issue) j dj d' :
  db !! j = Some dj ->
  matches (CachedService.team_query teamName) dj = false ->
  matches (CachedService.team_query teamName) d' = false ->
  occupied_count teamName (<[j := d']> db) = occupied_count teamName db.
Proof.
  intros Hj Hm Hm'. unfold occupied_count.
  rewrite map_filter_insert_False by (cbn; congruence).
  rewrite map_filter_delete. rewrite delete_id; [reflexivity|].
  apply map_lookup_filter_None. right. intros x Hx. cbn. congruence.
Qed.

Lemma run_assignIssue w issueId holder d :
  net w = [] ->
  issuesDb w !! issueId = Some d ->
  run (AppContext.assignIssue issueId holder) w
  = (Done None,
     logged (EvUpdateIssue issueId true)
       (with_issuesDb (<[issueId := assigned_to holder d]> (issuesDb w)) w)).
Proof.
  intros Hn Hd. unfold AppContext.assignIssue.
  rewrite run_call, run_exec_.
  erewrite run_updateIssue_offline by eauto.
  reflexivity.
Qed.

Lemma run_transaction_self w issueId teamName d :
  net w = [] ->
  issuesDb w !! issueId = Some d -> status d = open ->
  assignedTo d = Some teamName ->
  run (await (RunTransaction issueId (CachedService.transaction_body teamName))) w
  = (Raised (Js.new_Error msg_self), logged (EvTransaction issueId false) w).
Proof.
  intros Hn Hd Hs Ha. unfold await. cbn [run handle].
  rewrite (arrive_offline w Hn). cbn [fault quiet]. rewrite Hd.
  unfold CachedService.transaction_body. rewrite Hs, Ha. cbn.
  rewrite String.eqb_refl. reflexivity.
Qed.

(** The transaction meets a document that is open and assigned to the
    claiming team. *)
Lemma run_cached_claim_self (w : World) (issueId teamName : string) (maxRetries : Z) (d : Issue) :
  issueId <> "" -> teamName <> "" ->
  0 < maxRetries ->
  net w = [] ->
  issuesDb w !! issueId = Some d -> status d = open ->
  assignedTo d = Some teamName ->
  (forall c, teamIssueCountCache w !! teamName = Some c ->
             clock w - timestamp c < CachedService.CACHE_TTL -> count c < 3) ->
  (occupied_count teamName (issuesDb w) < 3)%nat ->
  let out := run (CachedService.occupyIssueTransaction issueId teamName maxRetries) w in
  out.1 = Done (Some (failure "Cannot access 'lastError' before initialization")) /\
  issuesDb out.2 = issuesDb w.
Proof.
  intros Hi Ht Hm Hn Hd Hs Ha Hcache Hc out. unfold out; clear out.
  unfold CachedService.occupyIssueTransaction, CachedService.try_block.
  rewrite run_call, run_seq, run_try_catch, run_seq.
  rewrite (truthy_str_true _ Hi), (truthy_str_true _ Ht). cbn [negb orb when skip run].
  rewrite run_bind, (run_getDoc w issueId (quiet_arrive w Hn)), Hd, run_seq, Hs.
  cbn [Status_eqb negb when skip run].
  rewrite (arrive_offline w Hn). cbn [snd].
  rewrite run_bind. cbn [perform run handle].
  rewrite run_bind. cbn [perform run handle].
  cbn [clock logged teamIssueCountCache].
  rewrite run_seq.
  destruct (for_lt_first maxRetries
              (fun _ : Z =>
                 try_catch (CachedService.attempt_try issueId teamName
                              (teamIssueCountCache w !! teamName) (clock w))
                           (CachedService.attempt_catch maxRetries Js.Uninitialized)) Hm)
    as [rest ->].
  destruct (CachedService.fresh (teamIssueCountCache w !! teamName) (clock w)) eqn:Hf.
  - destruct (teamIssueCountCache w !! teamName) as [c|] eqn:Hcc; [|discriminate].
    cbn in Hf. apply Z.ltb_lt in Hf. specialize (Hcache c eq_refl Hf).
    apply Z.leb_gt in Hcache. rewrite Hcache. cbn [andb when skip run].
    rewrite run_seq, run_round, run_try_catch.
    unfold CachedService.attempt_try.
    rewrite run_seq, stale_fresh. cbn [CachedService.fresh].
    apply Z.ltb_lt in Hf. rewrite Hf. cbn [negb when skip run].
    rewrite run_bind.
    erewrite run_transaction_self; [|cbn; exact Hn|cbn; exact Hd|exact Hs|exact Ha].
    cbn. auto.
  - cbn [andb when skip run].
    rewrite run_seq, run_round, run_try_catch.
    unfold CachedService.attempt_try.
    rewrite run_seq, stale_fresh, Hf. cbn [negb when].
    rewrite run_bind, run_getDocs by (apply quiet_arrive; exact Hn).
    rewrite arrive_offline by exact Hn. cbn [snd issuesDb logged].
    rewrite run_seq, length_query_docs.
    replace (Nat.min 3 (occupied_count teamName (issuesDb w)))
      with (occupied_count teamName (issuesDb w)) by lia.
    replace (3 <=? Z.of_nat (occupied_count teamName (issuesDb w))) with false
      by (symmetry; apply Z.leb_gt; lia).
    cbn [when skip run]. rewrite run_exec_. cbn [perform run handle].
    rewrite run_bind.
    erewrite run_transaction_self; [|cbn; exact Hn|cbn; exact Hd|exact Hs|exact Ha].
    cbn. auto.
Qed.

(** X13.  [assignIssue] on an open issue writes the holder and leaves the
    status, so the issue stays open to claims: the claim of another team
    succeeds and replaces the holder.  The team it was assigned to cannot
    claim it through the cached service, whose transaction refuses an
    issue already assigned to the caller (with the message of X11), while
    the plain service, which has no such test, lets it claim. *)
Theorem assignment_does_not_reserve
    (w : World) (issueId holder rival : string) (maxRetries : Z) (d : Issue) :
  issueId <> "" -> holder <> "" -> rival <> "" -> rival <> holder ->
  0 < maxRetries ->
  net w = [] ->
  issuesDb w !! issueId = Some d -> status d = open ->
  CachedService.stale (teamIssueCountCache w !! rival) (clock w) = true ->
  CachedService.stale (teamIssueCountCache w !! holder) (clock w) = true ->
  (occupied_count rival (issuesDb w) < 3)%nat ->
  (occupied_count holder (issuesDb w) < 3)%nat ->
  let w1 := (run (AppContext.assignIssue issueId (Some holder)) w).2 in
  issuesDb w1 !! issueId = Some (assigned_to (Some holder) d) /\
  (let out := run (CachedService.occupyIssueTransaction issueId rival maxRetries) w1 in
   out.1 = Done (Some ok) /\
   issuesDb out.2 !! issueId
   = Some (claimed rival (clock w) (assigned_to (Some holder) d))) /\
  (let out := run (CachedService.occupyIssueTransaction issueId holder maxRetries) w1 in
   out.1 = Done (Some (failure "Cannot access 'lastError' before initialization")) /\
   issuesDb out.2 = issuesDb w1) /\
  (let out := run (PlainService.occupyIssueTransaction issueId holder) w1 in
   out.1 = Done (Some ok) /\
   issuesDb out.2 !! issueId
   = Some (claimed_plain holder (clock w) (assigned_to (Some holder) d))).
Proof.
  intros Hi Hh Hr Hne Hm Hn Hd Hs Hsr Hsh Hcr Hch w1. unfold w1; clear w1.
  rewrite (run_assignIssue w issueId (Some holder) d Hn Hd). cbn [snd].
  set (w1 := logged _ _).
  assert (Hd1 : issuesDb w1 !! issueId = Some (assigned_to (Some holder) d))
    by (cbn; apply lookup_insert_eq).
  assert (Hn1 : net w1 = []) by exact Hn.
  assert (Hopen : forall t, matches (CachedService.team_query t) (assigned_to (Some holder) d)
                            = false).
  { intros t. apply matches_open. exact Hs. }
  assert (Hcount : forall t, occupied_count t (issuesDb w1) = occupied_count t (issuesDb w)).
  { intros t. cbn. apply (occupied_count_open t (issuesDb w) issueId d _ Hd);
      [apply matches_open; exact Hs|apply Hopen]. }
  cbv zeta.
  split; [exact Hd1|]. split; [|split].
  - destruct (cached_admits_under_quota w1 issueId rival maxRetries _ Hi Hr Hm Hn1 Hd1)
      as [H1 H2]; [exact Hs|cbn; congruence|exact Hsr|rewrite Hcount; exact Hcr|].
    split; [exact H1|].
    rewrite H2. apply lookup_insert_eq.
  - apply (run_cached_claim_self w1 issueId holder maxRetries _ Hi Hh Hm Hn1 Hd1);
      [exact Hs|reflexivity| |rewrite Hcount; exact Hch].
    intros c Hc Hfresh. change (teamIssueCountCache w1) with (teamIssueCountCache w) in Hc.
    rewrite Hc in Hsh. cbn in Hsh. apply Z.leb_le in Hsh.
    change (clock w1) with (clock w) in Hfresh. lia.
  - destruct (run_plain_claim w1 issueId holder _ Hn1 Hd1) as [H1 H2];
      [exact Hs|rewrite Hcount; exact Hch|].
    split; [exact H1|].
    rewrite H2. apply lookup_insert_eq.
Qed.

Lemma assignment_does_not_reserve_witness :
  let w1 := (run (AppContext.assignIssue "I1" (Some "TeamBravo")) open_issue_world).2 in
  status <$> issuesDb w1 !! "I1" = Some open /\
  (run (CachedService.occupyIssueTransaction "I1" "TeamDelta" 3) w1).1 = Done (Some ok) /\
  (run (CachedService.occupyIssueTransaction "I1" "TeamBravo" 3) w1).1
  = Done (Some (failure "Cannot access 'lastError' before initialization")) /\
  (run (PlainService.occupyIssueTransaction "I1" "TeamBravo") w1).1 = Done (Some ok).
Proof.
  intros w1.
  assert (Hd : issuesDb open_issue_world !! "I1"
               = Some (sample_issue "I1" "easy" open None None))
    by (vm_compute; reflexivity).
  assert (Hr : (occupied_count "TeamDelta" (issuesDb open_issue_world) < 3)%nat)
    by (vm_compute; lia).
  assert (Hh : (occupied_count "TeamBravo" (issuesDb open_issue_world) < 3)%nat)
    by (vm_compute; lia).
  destruct (assignment_does_not_reserve open_issue_world "I1" "TeamBravo" "TeamDelta" 3 _
              ltac:(discriminate) ltac:(discriminate) ltac:(discriminate)
              ltac:(discriminate) ltac:(reflexivity) eq_refl Hd eq_refl eq_refl eq_refl
              Hr Hh) as (H1 & (H2 & _) & (H3 & _) & (H4 & _)).
  fold w1 in H1, H2, H3, H4.
  split; [rewrite H1; reflexivity|]. auto.
Defined.

Lemma find_by_name_Some teams teamName team :
  List.find (fun t => String.eqb (name t) teamName) teams = Some team ->
  team ∈ teams /\ name team = teamName.
Proof.
  intros H. apply find_some in H as [Hin Hn]. split.
  - apply list_elem_of_In. exact Hin.
  - apply String.eqb_eq. exact Hn.
Qed.

Lemma find_by_name_None teams teamName :
  List.find (fun t => String.eqb (name t) teamName) teams = None ->
  forall t, t ∈ teams -> name t <> teamName.
Proof.
  intros H t Hin Hn. apply list_elem_of_In in Hin.
  pose proof (find_none _ _ H t Hin) as Hf. cbn in Hf.
  apply String.eqb_neq in Hf. contradiction.
Qed.

(** X14.  [awardPoints] (lines 448-454) writes the points the client's
    list shows for the team plus the award, with no lower bound, and
    writes nothing for a team the list does not have.  A second award
    from the same render starts from the same listed points: it replaces
    the first instead of adding to it. *)
Theorem awardPoints_from_listed_points
    (w : World) (teams : list Team) (teamName : string) (pts : Z) :
  (List.find (fun t => String.eqb (name t) teamName) teams = None ->
   run (AppProvider.awardPoints teams teamName pts) w = (Done None, w)) /\
  (forall team td,
     List.find (fun t => String.eqb (name t) teamName) teams = Some team ->
     net w = [] -> teamsDb w !! teamName = Some td ->
     let w1 := (run (AppProvider.awardPoints teams teamName pts) w).2 in
     teamsDb w1 = <[teamName := with_points (Js.add (points team) pts) td]> (teamsDb w) /\
     issuesDb w1 = issuesDb w /\
     forall more,
       teamsDb (run (AppProvider.awardPoints teams teamName more) w1).2
       = <[teamName := with_points (Js.add (points team) more) td]> (teamsDb w)).
Proof.
  split.
  - intros Hfind. unfold AppProvider.awardPoints. rewrite Hfind. reflexivity.
  - intros team td Hfind Hn Htd w1. unfold w1; clear w1.
    unfold AppProvider.awardPoints. rewrite Hfind.
    rewrite run_call, run_exec_, (run_updateTeam_offline w teamName _ td Hn Htd).
    cbn [snd teamsDb issuesDb logged with_teamsDb].
    split; [reflexivity|]. split; [reflexivity|].
    intros more. rewrite run_call, run_exec_.
    erewrite run_updateTeam_offline; [|exact Hn|cbn; apply lookup_insert_eq].
    cbn. rewrite insert_insert_eq. reflexivity.
Qed.

Lemma awardPoints_from_listed_points_witness :
  let w1 := (run (AppProvider.awardPoints lobby_teams "TeamBravo" 10) lobby_world).2 in
  let w2 := (run (AppProvider.awardPoints lobby_teams "TeamBravo" (-50)) w1).2 in
  run (AppProvider.awardPoints lobby_teams "TeamCharlie" 10) lobby_world
  = (Done None, lobby_world) /\
  teamsDb w1 !! "TeamBravo" = Some (mkTeam "TeamBravo" 40 false) /\
  teamsDb w2 !! "TeamBravo" = Some (mkTeam "TeamBravo" (-20) false).
Proof.
  intros w1 w2.
  destruct (awardPoints_from_listed_points lobby_world lobby_teams "TeamCharlie" 10)
    as [Hnone _].
  destruct (awardPoints_from_listed_points lobby_world lobby_teams "TeamBravo" 10)
    as [_ Hsome].
  assert (Htd : teamsDb lobby_world !! "TeamBravo" = Some (mkTeam "TeamBravo" 30 false))
    by (vm_compute; reflexivity).
  destruct (Hsome (mkTeam "TeamBravo" 30 false) (mkTeam "TeamBravo" 30 false)
              eq_refl eq_refl Htd) as (H1 & _ & H3).
  split; [exact (Hnone eq_refl)|]. split.
  - etransitivity; [exact (f_equal (fun m => m !! "TeamBravo") H1)|].
    apply lookup_insert_eq.
  - etransitivity; [exact (f_equal (fun m => m !! "TeamBravo") (H3 (-50)))|].
    apply lookup_insert_eq.
Defined.

(** X15.  [updatePrStatus] with [merged] awards nothing when the client's
    list does not hold the issue, when the listed issue has no holder, or
    when the team list does not have the holder: the team documents stay
    as they were, and [prStatus] is written all the same. *)
Theorem merged_without_award
    (w : World) (issues : list Issue) (teams : list Team) (issueId : string) :
  (find_issue issueId issues = None \/
   exists issue, find_issue issueId issues = Some issue /\
                 (Js.truthy_ostr (assignedTo issue) = false \/
                  find_team (assignedTo issue) teams = None)) ->
  let w' := (run (AppContext.updatePrStatus issues teams issueId merged) w).2 in
  teamsDb w' = teamsDb w /\
  (forall d, issuesDb w !! issueId = Some d -> fault (arrive w).1 = None ->
             issuesDb w' = <[issueId := with_prStatus merged d]> (issuesDb w)).
Proof.
  intros Hno. unfold AppContext.updatePrStatus.
  assert (Hskip : forall w0 : World,
             run (AppContext.award_merged issues teams issueId) w0 = (Done Normal, w0)).
  { intros w0. unfold AppContext.award_merged.
    destruct Hno as [->|(issue & -> & [->| ->])]; [reflexivity|reflexivity|].
    destruct (Js.truthy_ostr (assignedTo issue)); reflexivity. }
  rewrite run_call, run_seq, run_exec_.
  destruct (issuesDb w !! issueId) as [d|] eqn:Hd;
    [destruct (fault (arrive w).1) as [err|] eqn:Hf|].
  - destruct (run_updateIssue_failed w issueId
                {| u_status := None; u_assignedTo := None; u_occupiedAt := None;
                   u_closedAt := None; u_prUrl := None; u_prStatus := Some merged;
                   u_lastUpdated := None |}) as (e & w1 & Hr & Hi & Ht).
    { right. rewrite Hf. discriminate. }
    rewrite Hr. cbn. split; [auto|]. intros ? _ ?. discriminate.
  - rewrite (run_updateIssue_written w issueId _ d Hd Hf).
    cbn [u_status u_assignedTo u_occupiedAt u_closedAt u_prUrl u_prStatus u_lastUpdated].
    rewrite apply_prStatus_update, issuesDb_arrive.
    rewrite Hskip. cbn. rewrite teamsDb_arrive.
    split; [reflexivity|]. intros d' Hd' _. congruence.
  - destruct (run_updateIssue_failed w issueId
                {| u_status := None; u_assignedTo := None; u_occupiedAt := None;
                   u_closedAt := None; u_prUrl := None; u_prStatus := Some merged;
                   u_lastUpdated := None |}) as (e & w1 & Hr & Hi & Ht).
    { left. exact Hd. }
    rewrite Hr. cbn. split; [auto|]. intros ? ?. discriminate.
Qed.

Lemma merged_without_award_witness :
  let w' := (run (AppContext.updatePrStatus [] [mkTeam "TeamBravo" 0 true] "I1" merged)
               review_world).2 in
  teamsDb w' = teamsDb review_world /\
  prStatus <$> issuesDb w' !! "I1" = Some (Some merged).
Proof.
  intros w'.
  destruct (merged_without_award review_world [] [mkTeam "TeamBravo" 0 true] "I1"
              (or_introl eq_refl)) as [Ht Hi].
  fold w' in Ht, Hi. split; [exact Ht|].
  assert (Hd : issuesDb review_world !! "I1"
               = Some {| issue_id := "I1"; title := "I1"; tags := ["easy"]; status := closed;
                         assignedTo := Some "TeamBravo"; occupiedAt := Some 1000;
                         closedAt := Some 2000; prUrl := Some "https://x/pull/7";
                         prStatus := Some pending; lastUpdated := None |})
    by (vm_compute; reflexivity).
  rewrite (Hi _ Hd eq_refl), lookup_insert_eq. reflexivity.
Defined.

(* ===================================================================== *)
(** * The sweep, pass by pass *)
(* ===================================================================== *)

Lemma sweep_step_team now teams dbs issue n :
  (sweep_step now teams dbs issue).2 !! n =
  match round_penalty now teams n issue with
  | Some p => with_points p <$> dbs.2 !! n
  | None => dbs.2 !! n
  end.
Proof.
  unfold sweep_step, round_penalty.
  destruct (overdue now issue); [|reflexivity]. cbn [snd].
  destruct (find_team (assignedTo issue) teams) as [team|]; [|reflexivity].
  rewrite lookup_alter.
  destruct (String.eqb_spec (name team) n) as [E|E].
  - rewrite decide_True by exact E. subst n. reflexivity.
  - rewrite decide_False by exact E. reflexivity.
Qed.

(** The team documents after a pass: the last round that writes a
    document decides its points. *)
Lemma sweep_team_last now teams issues dbs n :
  (foldl (sweep_step now teams) dbs issues).2 !! n =
  match last_penalty now teams n issues with
  | Some p => with_points p <$> dbs.2 !! n
  | None => dbs.2 !! n
  end.
Proof.
  induction issues as [|issue rest IH] using rev_ind; [reflexivity|].
  unfold last_penalty. rewrite !foldl_app. cbn [foldl].
  rewrite sweep_step_team. fold (last_penalty now teams n rest).
  destruct (round_penalty now teams n issue) as [p|]; [|exact IH].
  rewrite IH. destruct (last_penalty now teams n rest); [|reflexivity].
  destruct (dbs.2 !! n); reflexivity.
Qed.

Lemma last_penalty_nonneg now teams n issues z :
  last_penalty now teams n issues = Some (Js.Num z) -> 0 <= z.
Proof.
  induction issues as [|issue rest IH] using rev_ind; [discriminate|].
  unfold last_penalty. rewrite foldl_app. cbn [foldl].
  fold (last_penalty now teams n rest).
  destruct (round_penalty now teams n issue) as [q|] eqn:Hq; [|exact IH].
  intros [= ->]. unfold round_penalty in Hq.
  destruct (overdue now issue); [|discriminate].
  destruct (find_team (assignedTo issue) teams) as [team|]; [|discriminate].
  destruct (String.eqb (name team) n); [|discriminate].
  injection Hq as Hq. unfold Js.max in Hq.
  destruct (Js.sub _ _); [|discriminate]. injection Hq as <-. lia.
Qed.

Lemma run_checkExpiredIssues (issues : list Issue) (teams : list Team) (w : World) :
  net w = [] ->
  (forall i, i ∈ issues -> is_Some (issuesDb w !! issue_id i)) ->
  (forall t, t ∈ teams -> is_Some (teamsDb w !! name t)) ->
  exists w', run (AppContext.checkExpiredIssues issues teams) w = (Done None, w') /\
             (issuesDb w', teamsDb w')
             = foldl (sweep_step (clock w) teams) (issuesDb w, teamsDb w) issues /\
             net w' = [] /\ clock w' = clock w.
Proof.
  intros Hn Hi Ht. unfold AppContext.checkExpiredIssues.
  rewrite run_call, run_bind. cbn [perform run handle].
  destruct (run_sweep_loop (clock w) teams issues w Hn Hi Ht) as (w1 & Hr & Hrest).
  exists w1. rewrite Hr. auto.
Qed.

(** X16.  The team documents after a pass of the sweep.  Each round that
    finds its issue overdue writes the listed points of the team minus
    its own penalty, floored at 0, so for a team with several overdue
    issues the last of its rounds decides: the penalties of one pass do
    not add up.  A team no round writes keeps its document. *)
Theorem sweep_last_writer_wins
    (w : World) (issues : list Issue) (teams : list Team) :
  net w = [] ->
  (forall i, i ∈ issues -> is_Some (issuesDb w !! issue_id i)) ->
  (forall t, t ∈ teams -> is_Some (teamsDb w !! name t)) ->
  let w' := (run (AppContext.checkExpiredIssues issues teams) w).2 in
  forall n,
    (forall p, last_penalty (clock w) teams n issues = Some p ->
               teamsDb w' !! n = with_points p <$> teamsDb w !! n /\
               forall z, p = Js.Num z -> 0 <= z) /\
    (last_penalty (clock w) teams n issues = None ->
     teamsDb w' !! n = teamsDb w !! n).
Proof.
  intros Hn Hi Ht w' n. unfold w'; clear w'.
  destruct (run_checkExpiredIssues issues teams w Hn Hi Ht) as (w1 & Hr & Hdb & _).
  rewrite Hr. cbn [snd].
  pose proof (f_equal snd Hdb) as Hteams. cbn [snd] in Hteams.
  rewrite Hteams, sweep_team_last. cbn [snd].
  split.
  - intros p Hp. rewrite Hp. split; [reflexivity|].
    intros z ->. eapply last_penalty_nonneg. exact Hp.
  - intros ->. reflexivity.
Qed.

Lemma sweep_last_writer_wins_witness :
  let w' := (run (AppContext.checkExpiredIssues overdue_issues overdue_teams)
               overdue_world).2 in
  last_penalty (clock overdue_world) overdue_teams "TeamBravo" overdue_issues
  = Some (Js.Num 25) /\
  teamsDb w' !! "TeamBravo" = Some (mkTeam "TeamBravo" 25 true) /\
  teamsDb w' !! "TeamDelta" = Some (mkTeam "TeamDelta" 8 true) /\
  teamsDb (run (AppContext.checkExpiredIssues prototype_issues overdue_teams)
             prototype_world).2 !! "TeamDelta"
  = Some (mkTeam "TeamDelta" 8 true).
Proof.
  intros w'.
  destruct overdue_docs_exist as [Hi Ht].
  assert (Hb : last_penalty (clock overdue_world) overdue_teams "TeamBravo" overdue_issues
               = Some (Js.Num 25)) by (vm_compute; reflexivity).
  assert (Hd : last_penalty (clock overdue_world) overdue_teams "TeamDelta" overdue_issues
               = None) by (vm_compute; reflexivity).
  split; [exact Hb|]. split; [|split].
  - destruct (proj1 (sweep_last_writer_wins overdue_world overdue_issues overdue_teams
                       eq_refl Hi Ht "TeamBravo") 25 Hb) as [H _].
    fold w' in H. rewrite H. reflexivity.
  - pose proof (proj2 (sweep_last_writer_wins overdue_world overdue_issues overdue_teams
                         eq_refl Hi Ht "TeamDelta") Hd) as H.
    fold w' in H. rewrite H. reflexivity.
  - assert (Hp : last_penalty (clock prototype_world) overdue_teams "TeamDelta"
                   prototype_issues = None) by (vm_compute; reflexivity).
    assert (Hi' : forall i, i ∈ prototype_issues ->
                            is_Some (issuesDb prototype_world !! issue_id i)).
    { intros i Hin. apply list_elem_of_In in Hin.
      destruct Hin as [<-|[<-|[<-|[<-|[]]]]]; eexists; vm_compute; reflexivity. }
    assert (Ht' : forall t, t ∈ overdue_teams ->
                            is_Some (teamsDb prototype_world !! name t)).
    { intros t Hin. apply list_elem_of_In in Hin.
      destruct Hin as [<-|[<-|[]]]; eexists; vm_compute; reflexivity. }
    pose proof (proj2 (sweep_last_writer_wins prototype_world prototype_issues overdue_teams
                         eq_refl Hi' Ht' "TeamDelta") Hp) as H.
    etransitivity; [exact H|]. vm_compute. reflexivity.
Defined.

Lemma sweep_step_same_overdue now1 now2 teams dbs issue :
  overdue now2 issue = overdue now1 issue ->
  sweep_step now2 teams dbs issue = sweep_step now1 teams dbs issue.
Proof. intros H. unfold sweep_step. rewrite H. reflexivity. Qed.

Lemma foldl_sweep_same_overdue now1 now2 teams issues dbs :
  (forall j, j ∈ issues -> overdue now2 j = overdue now1 j) ->
  foldl (sweep_step now2 teams) dbs issues = foldl (sweep_step now1 teams) dbs issues.
Proof.
  revert dbs. induction issues as [|issue rest IH]; intros dbs H; [reflexivity|].
  cbn [foldl]. rewrite (sweep_step_same_overdue now1 now2) by (apply H; left).
  apply IH. intros j Hj. apply H. right. exact Hj.
Qed.

(** A second pass over the same lists writes what the first has written. *)
Lemma foldl_sweep_twice now teams issues dbs :
  foldl (sweep_step now teams) (foldl (sweep_step now teams) dbs issues) issues
  = foldl (sweep_step now teams) dbs issues.
Proof.
  apply injective_projections; apply map_eq; intros k.
  - rewrite sweep_issue_released, (sweep_issue_released now teams issues dbs k).
    destruct (existsb _ issues); [|reflexivity].
    destruct (dbs.1 !! k); reflexivity.
  - rewrite sweep_team_last, (sweep_team_last now teams issues dbs k).
    destruct (last_penalty now teams k issues); [|reflexivity].
    destruct (dbs.2 !! k); reflexivity.
Qed.

(** X17.  The timer runs the sweep again from the same render, that is over
    the same two lists.  As long as no further listed issue has become
    overdue, the second pass writes what the first has written: both
    collections stay as the first pass left them, and no points are
    deducted twice. *)
Theorem sweep_repeated_from_same_render
    (w : World) (issues : list Issue) (teams : list Team) (later : Z) :
  net w = [] ->
  (forall i, i ∈ issues -> is_Some (issuesDb w !! issue_id i)) ->
  (forall t, t ∈ teams -> is_Some (teamsDb w !! name t)) ->
  (forall j, j ∈ issues -> overdue later j = overdue (clock w) j) ->
  let w1 := (run (AppContext.checkExpiredIssues issues teams) w).2 in
  let w2 := (run (AppContext.checkExpiredIssues issues teams) (with_clock later w1)).2 in
  issuesDb w2 = issuesDb w1 /\ teamsDb w2 = teamsDb w1.
Proof.
  intros Hn Hi Ht Hsame w1 w2. unfold w2, w1; clear w1 w2.
  destruct (run_checkExpiredIssues issues teams w Hn Hi Ht) as (w1 & Hr & Hdb & Hn1 & _).
  rewrite Hr. cbn [snd].
  pose proof (f_equal fst Hdb) as Hi1. pose proof (f_equal snd Hdb) as Ht1.
  cbn [fst snd] in Hi1, Ht1.
  destruct (run_checkExpiredIssues issues teams (with_clock later w1))
    as (w2 & Hr2 & Hdb2 & _).
  - exact Hn1.
  - intros i Hin. cbn [issuesDb with_clock]. rewrite Hi1, sweep_issue_released. cbn [fst].
    destruct (existsb _ issues); [apply fmap_is_Some|]; apply Hi; exact Hin.
  - intros t Hin. cbn [teamsDb with_clock]. rewrite Ht1, sweep_team_last. cbn [snd].
    destruct (last_penalty _ _ _ _); [apply fmap_is_Some|]; apply Ht; exact Hin.
  - rewrite Hr2. cbn [snd]. cbn [issuesDb teamsDb clock with_clock] in Hdb2.
    rewrite (foldl_sweep_same_overdue (clock w) later) in Hdb2 by exact Hsame.
    rewrite Hdb, foldl_sweep_twice, <- Hdb in Hdb2.
    injection Hdb2 as -> ->. auto.
Qed.

Lemma sweep_repeated_from_same_render_witness :
  let w1 := (run (AppContext.checkExpiredIssues overdue_issues overdue_teams)
               overdue_world).2 in
  let w2 := (run (AppContext.checkExpiredIssues overdue_issues overdue_teams)
               (with_clock (clock overdue_world + 10000) w1)).2 in
  teamsDb w1 !! "TeamBravo" = Some (mkTeam "TeamBravo" 25 true) /\
  issuesDb w2 = issuesDb w1 /\ teamsDb w2 = teamsDb w1.
Proof.
  intros w1 w2.
  destruct overdue_docs_exist as [Hi Ht].
  split; [vm_compute; reflexivity|].
  apply (sweep_repeated_from_same_render overdue_world overdue_issues overdue_teams
           (clock overdue_world + 10000) eq_refl Hi Ht).
  intros j Hj. apply list_elem_of_In in Hj.
  destruct Hj as [<-|[<-|[<-|[]]]]; vm_compute; reflexivity.
Defined.

Lemma overdue_occupied now issue : overdue now issue = true -> status issue = occupied.
Proof.
  unfold overdue. intros H.
  apply andb_prop in H as [H _]. apply andb_prop in H as [H _].
  apply andb_prop in H as [H _]. apply Status_eqb_eq. exact H.
Qed.

(** X18.  The sweep acts on occupied issues only: a document that no list
    element shows as occupied is left as it is, however old the issue,
    and a team that holds no occupied issue of the list keeps its
    document. *)
Theorem sweep_spares_open_and_closed
    (w : World) (issues : list Issue) (teams : list Team) :
  net w = [] ->
  (forall i, i ∈ issues -> is_Some (issuesDb w !! issue_id i)) ->
  (forall t, t ∈ teams -> is_Some (teamsDb w !! name t)) ->
  let w' := (run (AppContext.checkExpiredIssues issues teams) w).2 in
  (forall k, (forall j, j ∈ issues -> issue_id j = k -> status j <> occupied) ->
             issuesDb w' !! k = issuesDb w !! k) /\
  (forall n, (forall j, j ∈ issues -> assignedTo j = Some n -> status j <> occupied) ->
             teamsDb w' !! n = teamsDb w !! n).
Proof.
  intros Hn Hi Ht w'. unfold w'; clear w'.
  destruct (run_checkExpiredIssues issues teams w Hn Hi Ht) as (w1 & Hr & Hdb & _).
  rewrite Hr. cbn [snd].
  pose proof (f_equal fst Hdb) as Hi1. pose proof (f_equal snd Hdb) as Ht1.
  cbn [fst snd] in Hi1, Ht1. rewrite Hi1, Ht1. split.
  - intros k Hk. rewrite sweep_issue_released. cbn [fst].
    destruct (existsb _ issues) eqn:He; [|reflexivity].
    apply existsb_exists in He as (j & Hin & Hj).
    apply andb_prop in Hj as [Hj1 Hj2]. apply String.eqb_eq in Hj2.
    exfalso. apply (Hk j); [apply list_elem_of_In; exact Hin|exact Hj2|].
    apply overdue_occupied with (now := clock w). exact Hj1.
  - intros n Hk. apply sweep_team_untouched. intros j Hin Hp.
    unfold penalised in Hp. destruct (overdue (clock w) j) eqn:Ho; [|discriminate].
    destruct (find_team (assignedTo j) teams) as [team|] eqn:Hf; [|discriminate].
    destruct (find_team_elem _ _ _ Hf) as [_ Hholder].
    cbn in Hp. injection Hp as Hp. subst n.
    apply (Hk j Hin Hholder). apply overdue_occupied with (now := clock w). exact Ho.
Qed.

Lemma sweep_spares_open_and_closed_witness :
  let w' := (run (AppContext.checkExpiredIssues overdue_issues overdue_teams)
               overdue_world).2 in
  issuesDb w' !! "I3" = issuesDb overdue_world !! "I3" /\
  teamsDb w' !! "TeamDelta" = teamsDb overdue_world !! "TeamDelta".
Proof.
  intros w'.
  destruct overdue_docs_exist as [Hi Ht].
  destruct (sweep_spares_open_and_closed overdue_world overdue_issues overdue_teams
              eq_refl Hi Ht) as [Hissue Hteam].
  fold w' in Hissue, Hteam. split.
  - apply Hissue. intros j Hj Hid. apply list_elem_of_In in Hj.
    destruct Hj as [<-|[<-|[<-|[]]]]; try discriminate Hid. discriminate.
  - apply Hteam. intros j Hj Hholder. apply list_elem_of_In in Hj.
    destruct Hj as [<-|[<-|[<-|[]]]]; try discriminate Hholder. discriminate.
Defined.

Lemma run_sweep_prefix (now : Z) (teams : list Team) (pre rest : list Issue) (w : World) :
  net w = [] ->
  (forall i, i ∈ pre -> is_Some (issuesDb w !! issue_id i)) ->
  (forall t, t ∈ teams -> is_Some (teamsDb w !! name t)) ->
  exists w1,
    run (for_of (pre ++ rest)%list (AppContext.check_issue now teams)) w
    = run (for_of rest (AppContext.check_issue now teams)) w1 /\
    (issuesDb w1, teamsDb w1) = foldl (sweep_step now teams) (issuesDb w, teamsDb w) pre /\
    net w1 = [] /\ clock w1 = clock w.
Proof.
  revert w. induction pre as [|issue pre IH]; intros w Hn Hi Ht.
  - exists w. auto.
  - cbn [app for_of foldl]. rewrite run_round.
    destruct (run_check_issue now teams issue w Hn) as (w1 & Hr & Hdb & Hn1 & Hc1); auto.
    { apply Hi. left. }
    rewrite Hr.
    destruct (IH w1) as (w2 & Hr2 & Hdb2 & Hn2 & Hc2); auto.
    + intros i Hin. apply (f_equal fst) in Hdb. cbn [fst] in Hdb. rewrite Hdb.
      apply sweep_step_dom. apply Hi. right. exact Hin.
    + intros t Hin. apply (f_equal snd) in Hdb. cbn [snd] in Hdb. rewrite Hdb.
      apply sweep_step_team_dom. apply Ht. exact Hin.
    + exists w2. rewrite Hr2, Hdb2, Hdb. repeat split; congruence.
Qed.

(** X19.  The sweep meets an issue it finds overdue whose document is
    gone.  The rounds before it have been carried out, the team of the
    issue still has its deduction written (line 209 precedes line 214),
    the release fails with [not-found], and the pass ends there: the rest
    of the list is not examined. *)
Theorem sweep_aborts_on_missing_document
    (w : World) (teams : list Team) (pre post : list Issue) (issue : Issue) (team : Team) :
  net w = [] ->
  (forall i, i ∈ pre -> is_Some (issuesDb w !! issue_id i)) ->
  (forall t, t ∈ teams -> is_Some (teamsDb w !! name t)) ->
  overdue (clock w) issue = true ->
  find_team (assignedTo issue) teams = Some team ->
  issuesDb w !! issue_id issue = None ->
  let out := run (AppContext.checkExpiredIssues (pre ++ issue :: post)%list teams) w in
  let dbs := foldl (sweep_step (clock w) teams) (issuesDb w, teamsDb w) pre in
  out.1 = Raised not_found /\
  issuesDb out.2 = dbs.1 /\
  teamsDb out.2
  = alter (with_points
             (Js.max 0 (Js.sub (points team)
                (Js.or_num (AppContext.penalties (head (tags issue))) 0))))
          (name team) dbs.2.
Proof.
  intros Hn Hi Ht Ho Hfind Hmiss out dbs. unfold out; clear out.
  unfold AppContext.checkExpiredIssues. rewrite run_call, run_bind.
  cbn [perform run handle].
  destruct (run_sweep_prefix (clock w) teams pre (issue :: post) w Hn Hi Ht)
    as (w1 & Hr & Hdb & Hn1 & _).
  rewrite Hr. fold dbs in Hdb.
  pose proof (f_equal fst Hdb) as Hi1. pose proof (f_equal snd Hdb) as Ht1.
  cbn [fst snd] in Hi1, Ht1.
  cbn [for_of]. rewrite run_round. unfold AppContext.check_issue.
  unfold overdue in Ho. apply andb_prop in Ho as [Hg Hlate].
  rewrite Hg, Hlate, Hfind. cbn [when].
  destruct (find_team_elem _ _ _ Hfind) as [Hin _].
  assert (Htd : is_Some (teamsDb w1 !! name team)).
  { rewrite Ht1. unfold dbs.
    rewrite sweep_team_last. cbn [snd].
    destruct (last_penalty _ _ _ _); [apply fmap_is_Some|]; apply Ht; exact Hin. }
  destruct Htd as [td Htd].
  rewrite run_seq, run_exec_, (run_updateTeam_offline w1 _ _ td Hn1 Htd).
  destruct (run_updateIssue_failed
              (logged (EvUpdateTeam (name team) true)
                 (with_teamsDb (<[name team := apply_team_updates
                     {| u_points := Some (Js.max 0 (Js.sub (points team)
                          (Js.or_num (AppContext.penalties (head (tags issue))) 0)));
                        u_active := None |} td]> (teamsDb w1)) w1))
              (issue_id issue) AppContext.reset_updates)
    as (e & w2 & Hr2 & Hi2 & Ht2).
  { left. cbn. rewrite Hi1. unfold dbs. rewrite sweep_issue_released. cbn [fst].
    rewrite Hmiss. destruct (existsb _ pre); reflexivity. }
  rewrite run_exec_, Hr2. cbn [fst snd].
  cbn [issuesDb teamsDb logged with_teamsDb] in Hi2, Ht2.
  rewrite Hi2, Ht2, Hi1.
  split; [|split; [reflexivity|]].
  - revert Hr2. unfold updateIssue, await. cbn [run handle].
    rewrite arrive_offline by exact Hn1. cbn [fault quiet issuesDb logged with_teamsDb].
    rewrite Hi1. unfold dbs. rewrite sweep_issue_released. cbn [fst]. rewrite Hmiss.
    destruct (existsb _ pre); cbn; congruence.
  - rewrite <- Ht1. symmetry. apply alter_existing. exact Htd.
Qed.

Lemma sweep_aborts_on_missing_document_witness :
  let w := sample_world [sample_issue "I1" "easy" occupied (Some "TeamBravo") (Some 1000);
                         sample_issue "I3" "easy" closed (Some "TeamDelta") (Some 1000)]
             overdue_teams (1000 + 60 * 60 * 1000) in
  let out := run (AppContext.checkExpiredIssues overdue_issues overdue_teams) w in
  out.1 = Raised not_found /\
  teamsDb out.2 !! "TeamBravo" = Some (mkTeam "TeamBravo" 25 true) /\
  status <$> issuesDb out.2 !! "I1" = Some open.
Proof.
  intros w out.
  destruct (sweep_aborts_on_missing_document w overdue_teams
              [sample_issue "I1" "easy" occupied (Some "TeamBravo") (Some 1000)]
              [sample_issue "I3" "easy" closed (Some "TeamDelta") (Some 1000)]
              (sample_issue "I2" "hard" occupied (Some "TeamBravo") (Some 1000))
              (mkTeam "TeamBravo" 40 true) eq_refl) as (H1 & H2 & H3).
  - intros i Hi. apply list_elem_of_In in Hi. destruct Hi as [<-|[]].
    eexists. vm_compute. reflexivity.
  - intros t Ht. apply list_elem_of_In in Ht.
    destruct Ht as [<-|[<-|[]]]; eexists; vm_compute; reflexivity.
  - vm_compute. reflexivity.
  - vm_compute. reflexivity.
  - vm_compute. reflexivity.
  - split; [exact H1|]. split.
    + etransitivity; [exact (f_equal (fun m => m !! "TeamBravo") H3)|].
      vm_compute. reflexivity.
    + etransitivity; [exact (f_equal (fun m => status <$> m !! "I1") H2)|].
      vm_compute. reflexivity.
Defined.

(** X20.  An issue that was open and unheld, is claimed through the cached
    service and is released by the sweep once the time limit of its first
    tag has passed (a tag of the policy table, or one that names nothing),
    is back to the document it was, except for [lastUpdated], which keeps
    the time of the claim. *)
Theorem claim_then_expiry_round_trip
    (w : World) (issueId teamName : string) (maxRetries : Z) (d : Issue)
    (issues : list Issue) (teams : list Team) (limit penalty later : Z) :
  issueId <> "" -> teamName <> "" ->
  0 < maxRetries ->
  net w = [] ->
  issuesDb w !! issueId = Some d -> issue_id d = issueId -> status d = open ->
  assignedTo d = None -> occupiedAt d = None -> closedAt d = None ->
  CachedService.stale (teamIssueCountCache w !! teamName) (clock w) = true ->
  (occupied_count teamName (issuesDb w) < 3)%nat ->
  clock w <> 0 ->
  policy (head (tags d)) limit penalty ->
  limit <= later - clock w ->
  let w1 := (run (CachedService.occupyIssueTransaction issueId teamName maxRetries) w).2 in
  claimed teamName (clock w) d ∈ issues ->
  (forall i, i ∈ issues -> is_Some (issuesDb w1 !! issue_id i)) ->
  (forall t, t ∈ teams -> is_Some (teamsDb w1 !! name t)) ->
  let w2 := (run (AppContext.checkExpiredIssues issues teams) (with_clock later w1)).2 in
  issuesDb w1 !! issueId = Some (claimed teamName (clock w) d) /\
  issuesDb w2 !! issueId = Some (stamped (clock w) d).
Proof.
  intros Hi Ht Hm Hn Hd Hid Hs Ha Ho Hc Hst Hq Hz Hp Hlate w1.
  destruct (run_cached_claim_stale w issueId teamName maxRetries d Hi Ht Hm Hn Hd Hs)
    as (_ & Hdb & _ & _ & _ & _ & Hn1 & _); [congruence|exact Hst|exact Hq|].
  fold w1 in Hdb, Hn1.
  intros Hin Hdocs Hteams w2.
  assert (Hd1 : issuesDb w1 !! issueId = Some (claimed teamName (clock w) d))
    by (rewrite Hdb; apply lookup_insert_eq).
  split; [exact Hd1|]. unfold w2; clear w2.
  destruct (run_checkExpiredIssues issues teams (with_clock later w1) Hn1 Hdocs Hteams)
    as (w2 & Hr & Hdb2 & _).
  rewrite Hr. cbn [snd].
  pose proof (f_equal fst Hdb2) as Hi2. cbn [fst issuesDb with_clock] in Hi2.
  rewrite Hi2, sweep_issue_released. cbn [fst clock with_clock].
  replace (existsb _ issues) with true.
  - rewrite Hd1. cbn. unfold released, stamped, claimed. cbn.
    rewrite Ha, Ho, Hc, Hs. reflexivity.
  - symmetry. apply existsb_exists. exists (claimed teamName (clock w) d).
    split; [apply list_elem_of_In; exact Hin|].
    rewrite (overdue_iff later _ (clock w) teamName limit penalty);
      [|reflexivity|reflexivity|exact Hz|reflexivity|exact Ht|exact Hp].
    apply Z.leb_le in Hlate. rewrite Hlate. cbn. rewrite Hid. apply String.eqb_refl.
Qed.

Lemma claim_then_expiry_round_trip_witness :
  let d := sample_issue "I1" "easy" open None None in
  let w1 := (run (CachedService.occupyIssueTransaction "I1" "TeamBravo" 3)
               open_issue_world).2 in
  let w2 := (run (AppContext.checkExpiredIssues [claimed "TeamBravo" 100000 d]
                    [mkTeam "TeamBravo" 0 true])
               (with_clock (100000 + 20 * 60 * 1000) w1)).2 in
  issuesDb w1 !! "I1" = Some (claimed "TeamBravo" 100000 d) /\
  issuesDb w2 !! "I1" = Some (stamped 100000 d).
Proof.
  intros d w1 w2.
  assert (Hd : issuesDb open_issue_world !! "I1" = Some d) by (vm_compute; reflexivity).
  assert (Hq : (occupied_count "TeamBravo" (issuesDb open_issue_world) < 3)%nat)
    by (vm_compute; lia).
  apply (claim_then_expiry_round_trip open_issue_world "I1" "TeamBravo" 3 d
           [claimed "TeamBravo" 100000 d] [mkTeam "TeamBravo" 0 true]
           (20 * 60 * 1000) 5 (100000 + 20 * 60 * 1000)
           ltac:(discriminate) ltac:(discriminate) ltac:(reflexivity) eq_refl
           Hd eq_refl eq_refl eq_refl eq_refl eq_refl eq_refl Hq
           ltac:(discriminate) policy_easy ltac:(vm_compute; discriminate)).
  - apply list_elem_of_In. left. reflexivity.
  - intros i Hi. apply list_elem_of_In in Hi. destruct Hi as [<-|[]].
    eexists. vm_compute. reflexivity.
  - intros t Ht. apply list_elem_of_In in Ht. destruct Ht as [<-|[]].
    eexists. vm_compute. reflexivity.
Defined.

(* ===================================================================== *)
(** * Sessions *)
(* ===================================================================== *)

Lemma array_includes_spec l s : AppProvider.array_includes l s = true <-> s ∈ l.
Proof.
  unfold AppProvider.array_includes. rewrite existsb_exists. split.
  - intros (x & Hin & Hx). apply String.eqb_eq in Hx. subst x.
    apply list_elem_of_In. exact Hin.
  - intros Hin. exists s. split; [apply list_elem_of_In; exact Hin|apply String.eqb_refl].
Qed.

(** X21.  [loginTeam] (lines 229-251) succeeds exactly when the name is one
    of the allowed teams, the password is the one of the table, the
    client's list shows no active team of that name and has a team of
    that name.  A failure changes neither the session nor the world.  A
    success makes the listed team the current one, leaves the issues and
    the other teams alone and, when the document exists and the store is
    reached, sets its [active] flag. *)
Theorem loginTeam_single_session
    (w : World) (teams : list Team) (teamName password : string) (s : Session) :
  let out := run (AppProvider.loginTeam teams teamName password s) w in
  exists r s',
    out.1 = Done (r, s') /\
    (success r = true <->
       teamName ∈ AppProvider.ALLOWED_TEAMS /\
       AppProvider.TEAM_PASSWORDS teamName = Some password /\
       (forall t, t ∈ teams -> name t = teamName -> active t = false) /\
       (exists t, t ∈ teams /\ name t = teamName)) /\
    (success r = false -> s' = s /\ out.2 = w) /\
    (success r = true ->
       (exists team, List.find (fun t => String.eqb (name t) teamName) teams = Some team /\
                     s' = {| currentTeam := Some team; isAdmin := isAdmin s |}) /\
       issuesDb out.2 = issuesDb w /\
       (forall n, n <> teamName -> teamsDb out.2 !! n = teamsDb w !! n) /\
       (forall td, teamsDb w !! teamName = Some td -> fault (arrive w).1 = None ->
                   teamsDb out.2 !! teamName = Some (with_active true td))).
Proof.
  intros out. unfold out; clear out. unfold AppProvider.loginTeam.
  destruct (AppProvider.array_includes AppProvider.ALLOWED_TEAMS teamName) eqn:Hal; cbn [negb].
  2:{ eexists _, _. split; [reflexivity|]. cbn. split; [|split; [auto|discriminate]].
      split; [discriminate|]. intros (Hin & _). apply array_includes_spec in Hin. congruence. }
  apply array_includes_spec in Hal.
  destruct (Js.seq_ostr (AppProvider.TEAM_PASSWORDS teamName) password) eqn:Hpw; cbn [negb].
  2:{ eexists _, _. split; [reflexivity|]. cbn. split; [|split; [auto|discriminate]].
      split; [discriminate|]. intros (_ & Hp & _). rewrite Hp in Hpw. cbn in Hpw.
      rewrite String.eqb_refl in Hpw. discriminate. }
  assert (Hp : AppProvider.TEAM_PASSWORDS teamName = Some password).
  { destruct (AppProvider.TEAM_PASSWORDS teamName) as [p|]; [|discriminate].
    cbn in Hpw. apply String.eqb_eq in Hpw. congruence. }
  destruct (existsb (fun t => String.eqb (name t) teamName && active t) teams) eqn:Hact.
  { eexists _, _. split; [reflexivity|]. cbn. split; [|split; [auto|discriminate]].
    split; [discriminate|]. intros (_ & _ & Hin & _).
    apply existsb_exists in Hact as (t & Ht & Hta). apply andb_prop in Hta as [Hn Ha].
    apply String.eqb_eq in Hn. apply list_elem_of_In in Ht.
    rewrite (Hin t Ht Hn) in Ha. discriminate. }
  assert (Hinactive : forall t, t ∈ teams -> name t = teamName -> active t = false).
  { intros t Ht Hn. apply list_elem_of_In in Ht.
    destruct (active t) eqn:Ha; [|reflexivity].
    assert (existsb (fun t => String.eqb (name t) teamName && active t) teams = true).
    { apply existsb_exists. exists t. split; [exact Ht|].
      rewrite Ha, Hn, String.eqb_refl. reflexivity. }
    congruence. }
  destruct (List.find (fun t => String.eqb (name t) teamName) teams) as [team|] eqn:Hfind.
  2:{ eexists _, _. split; [reflexivity|]. cbn. split; [|split; [auto|discriminate]].
      split; [discriminate|]. intros (_ & _ & _ & t & Ht & Hn).
      exfalso. exact (find_by_name_None _ _ Hfind t Ht Hn). }
  destruct (find_by_name_Some _ _ _ Hfind) as [Hin Hn].
  rewrite run_bind, run_fire_and_forget. cbn [run fst snd].
  eexists _, _. split; [reflexivity|]. cbn [success ok].
  split; [|split; [discriminate|]].
  - split; [|reflexivity]. intros _. repeat split; auto. exists team. auto.
  - intros _. split; [exists team; auto|].
    unfold updateTeam, await. cbn [run handle].
    destruct (arrive w) as [n w1] eqn:Ha.
    assert (Hi1 : issuesDb w1 = issuesDb w) by (rewrite <- (issuesDb_arrive w), Ha; reflexivity).
    assert (Ht1 : teamsDb w1 = teamsDb w) by (rewrite <- (teamsDb_arrive w), Ha; reflexivity).
    cbn [fst].
    destruct (fault n) as [err|] eqn:Hf; [cbn; rewrite Hi1, Ht1; split; [auto|split; [auto|discriminate]]|].
    destruct (teamsDb w1 !! teamName) as [td|] eqn:Htd; cbn.
    + rewrite Hi1. split; [reflexivity|]. split.
      * intros n' Hn'. rewrite lookup_insert_ne by congruence. rewrite Ht1. reflexivity.
      * intros td' Htd' _. rewrite lookup_insert_eq. rewrite Ht1 in Htd.
        assert (td' = td) by congruence. subst td'. reflexivity.
    + rewrite Hi1, Ht1. split; [reflexivity|]. split; [auto|].
      intros td' Htd'. rewrite Ht1 in Htd. congruence.
Qed.

(** X22.  Login followed by logout: the login sets the [active] flag of the
    team document, the logout clears it and leaves no current team; the
    team collection is then the one before the login, when the document
    was inactive to begin with. *)
Theorem login_then_logout
    (w : World) (teams : list Team) (teamName password : string) (s s1 : Session) (td : Team) :
  net w = [] ->
  teamsDb w !! teamName = Some td ->
  (run (AppProvider.loginTeam teams teamName password s) w).1 = Done (ok, s1) ->
  let w1 := (run (AppProvider.loginTeam teams teamName password s) w).2 in
  let out := run (AppProvider.logoutTeam s1) w1 in
  teamsDb w1 = <[teamName := with_active true td]> (teamsDb w) /\
  out.1 = Done {| currentTeam := None; isAdmin := isAdmin s |} /\
  teamsDb out.2 = <[teamName := with_active false td]> (teamsDb w) /\
  (active td = false -> teamsDb out.2 = teamsDb w) /\
  issuesDb out.2 = issuesDb w.
Proof.
  intros Hn Htd Hlogin w1 out. unfold out, w1; clear out w1. revert Hlogin.
  unfold AppProvider.loginTeam.
  destruct (AppProvider.array_includes _ _); cbn [negb]; [|discriminate].
  destruct (Js.seq_ostr _ _); cbn [negb]; [|discriminate].
  destruct (existsb _ teams); [discriminate|].
  destruct (List.find _ teams) as [team|] eqn:Hfind; [|discriminate].
  destruct (find_by_name_Some _ _ _ Hfind) as [_ Hname].
  rewrite run_bind, run_fire_and_forget.
  rewrite (run_updateTeam_offline w teamName _ td Hn Htd). cbn [run fst snd].
  intros [= <-]. unfold AppProvider.logoutTeam. cbn [currentTeam]. rewrite Hname.
  rewrite run_bind.
  erewrite run_updateTeam_offline; [|exact Hn|cbn; apply lookup_insert_eq].
  cbn. rewrite insert_insert_eq.
  repeat split.
  intros Ha. apply insert_id. rewrite Htd. f_equal.
  destruct td as [n p a]. cbn in Ha. subst a. reflexivity.
Qed.

Lemma login_then_logout_witness :
  let login := run (AppProvider.loginTeam lobby_teams "TeamBravo" "bravo123" nobody)
                   lobby_world in
  let out := run (AppProvider.logoutTeam
                    {| currentTeam := Some (mkTeam "TeamBravo" 30 false);
                       isAdmin := false |}) login.2 in
  login.1 = Done (ok, {| currentTeam := Some (mkTeam "TeamBravo" 30 false);
                         isAdmin := false |}) /\
  teamsDb login.2 !! "TeamBravo" = Some (mkTeam "TeamBravo" 30 true) /\
  out.1 = Done nobody /\
  teamsDb out.2 = teamsDb lobby_world.
Proof.
  intros login out.
  assert (Hlogin : login.1 = Done (ok, {| currentTeam := Some (mkTeam "TeamBravo" 30 false);
                                          isAdmin := false |}))
    by (vm_compute; reflexivity).
  assert (Htd : teamsDb lobby_world !! "TeamBravo" = Some (mkTeam "TeamBravo" 30 false))
    by (vm_compute; reflexivity).
  destruct (login_then_logout lobby_world lobby_teams "TeamBravo" "bravo123" nobody _
              (mkTeam "TeamBravo" 30 false) eq_refl Htd Hlogin)
    as (H1 & H2 & _ & H4 & _).
  split; [exact Hlogin|]. split; [|split; [exact H2|exact (H4 eq_refl)]].
  etransitivity; [exact (f_equal (fun m => m !! "TeamBravo") H1)|].
  apply lookup_insert_eq.
Defined.

(** X23.  One session at a time: after a login, a browser whose team list
    has caught up with the store is refused the same team, with the right
    password too, and nothing is written. *)
Theorem second_login_is_refused
    (w : World) (teams : list Team) (teamName password : string) (s s1 s2 : Session)
    (td : Team) :
  net w = [] ->
  teamsDb w !! teamName = Some td -> name td = teamName ->
  (run (AppProvider.loginTeam teams teamName password s) w).1 = Done (ok, s1) ->
  let w1 := (run (AppProvider.loginTeam teams teamName password s) w).2 in
  run (AppProvider.loginTeam (teams_snapshot w1) teamName password s2) w1
  = (Done (failure "This team is already active. Only one active session allowed.", s2), w1).
Proof.
  intros Hn Htd Hname Hlogin w1. unfold w1; clear w1. revert Hlogin.
  unfold AppProvider.loginTeam.
  destruct (AppProvider.array_includes _ _); cbn [negb]; [|discriminate].
  destruct (Js.seq_ostr _ _); cbn [negb]; [|discriminate].
  destruct (existsb _ teams); [discriminate|].
  destruct (List.find _ teams) as [team|]; [|discriminate].
  rewrite run_bind, run_fire_and_forget.
  rewrite (run_updateTeam_offline w teamName _ td Hn Htd). cbn [run fst snd].
  intros _.
  replace (existsb _ (teams_snapshot _)) with true; [reflexivity|].
  symmetry. apply existsb_exists. exists (with_active true td). split.
  - apply list_elem_of_In. unfold teams_snapshot. apply list_elem_of_fmap.
    exists (teamName, with_active true td). split; [reflexivity|].
    apply elem_of_map_to_list. cbn. apply lookup_insert_eq.
  - cbn. rewrite Hname, String.eqb_refl. reflexivity.
Qed.

Lemma second_login_is_refused_witness :
  let w1 := (run (AppProvider.loginTeam lobby_teams "TeamBravo" "bravo123" nobody)
               lobby_world).2 in
  run (AppProvider.loginTeam (teams_snapshot w1) "TeamBravo" "bravo123" nobody) w1
  = (Done (failure "This team is already active. Only one active session allowed.",
           nobody), w1).
Proof.
  intros w1.
  assert (Htd : teamsDb lobby_world !! "TeamBravo" = Some (mkTeam "TeamBravo" 30 false))
    by (vm_compute; reflexivity).
  apply (second_login_is_refused lobby_world lobby_teams "TeamBravo" "bravo123" nobody
           {| currentTeam := Some (mkTeam "TeamBravo" 30 false); isAdmin := false |}
           nobody (mkTeam "TeamBravo" 30 false) eq_refl Htd eq_refl).
  vm_compute. reflexivity.
Defined.

Lemma loginTeam_accepts (w : World) (teams : list Team) (teamName password : string)
    (s : Session) (team : Team) :
  teamName ∈ AppProvider.ALLOWED_TEAMS ->
  AppProvider.TEAM_PASSWORDS teamName = Some password ->
  (forall t, t ∈ teams -> name t = teamName -> active t = false) ->
  List.find (fun t => String.eqb (name t) teamName) teams = Some team ->
  (run (AppProvider.loginTeam teams teamName password s) w).1
  = Done (ok, {| currentTeam := Some team; isAdmin := isAdmin s |}).
Proof.
  intros Hal Hpw Hin Hfind. unfold AppProvider.loginTeam.
  apply array_includes_spec in Hal. rewrite Hal, Hpw. cbn [negb Js.seq_ostr].
  rewrite String.eqb_refl. cbn [negb].
  replace (existsb _ teams) with false.
  - rewrite Hfind, run_bind, run_fire_and_forget. reflexivity.
  - symmetry. apply not_true_is_false. intros He.
    apply existsb_exists in He as (t & Ht & Hta). apply andb_prop in Hta as [Hn Ha].
    apply String.eqb_eq in Hn. apply list_elem_of_In in Ht.
    rewrite (Hin t Ht Hn) in Ha. discriminate.
Qed.

(* ===================================================================== *)
(** * The first load *)
(* ===================================================================== *)

Lemma with_world_id b : with_world (world b) b = b.
Proof. destruct b; reflexivity. Qed.

Lemma store_call_quiet {A} (f : Backend -> A * Backend) (b : Backend) :
  net (world b) = [] -> store_call f b = (Done (f b).1, (f b).2).
Proof.
  intros Hn. unfold store_call. rewrite (arrive_offline _ Hn). cbn [fault quiet].
  rewrite with_world_id. destruct (f b); reflexivity.
Qed.

Lemma lift_run {A} (p : Prog A) (b : Backend) :
  lift p b = ((run p (world b)).1, with_world (run p (world b)).2 b).
Proof. unfold lift. destruct (run p (world b)); reflexivity. Qed.

(** What the loop of [initializeData] does to the team documents when
    every write succeeds. *)
Lemma run_deactivate_loop (l : list Team) (b : Backend) :
  net (world b) = [] ->
  (forall t, t ∈ l -> is_Some (teamsDb (world b) !! name t)) ->
  exists w',
    afor l (fun team =>
      if active team
      then lift (updateTeam (name team) {| u_points := None; u_active := Some false |})
      else aret tt) b = (Done tt, with_world w' b) /\
    net w' = [] /\ issuesDb w' = issuesDb (world b) /\
    teamsDb w'
    = foldl (fun db t => if active t then alter (with_active false) (name t) db else db)
            (teamsDb (world b)) l.
Proof.
  revert b. induction l as [|t rest IH]; intros b Hn Hdocs.
  - exists (world b). rewrite with_world_id. auto.
  - cbn [afor foldl]. unfold abind at 1.
    assert (Hrest : forall w1, net w1 = [] -> issuesDb w1 = issuesDb (world b) ->
              (forall k, is_Some (teamsDb w1 !! k) <-> is_Some (teamsDb (world b) !! k)) ->
              forall t', t' ∈ rest -> is_Some (teamsDb (world (with_world w1 b)) !! name t')).
    { intros w1 _ _ Hdom t' Hin. cbn. apply Hdom, Hdocs. right. exact Hin. }
    destruct (active t) eqn:Ha.
    + destruct (Hdocs t ltac:(left)) as [td Htd].
      rewrite lift_run, (run_updateTeam_offline _ _ _ td Hn Htd). cbn [fst snd].
      set (w1 := logged _ _).
      destruct (IH (with_world w1 b)) as (w2 & Hr & Hn2 & Hi2 & Ht2).
      * exact Hn.
      * apply (Hrest w1); [exact Hn|reflexivity|]. intros k. cbn.
        destruct (decide (name t = k)) as [<-|Hne].
        -- rewrite lookup_insert_eq, Htd. split; intros _; eauto.
        -- rewrite lookup_insert_ne by exact Hne. reflexivity.
      * exists w2. rewrite Hr. split; [destruct b; reflexivity|].
        split; [exact Hn2|]. split; [rewrite Hi2; reflexivity|].
        rewrite Ht2. cbn. rewrite (alter_existing _ _ _ _ Htd). reflexivity.
    + cbn [aret].
      destruct (IH b Hn) as (w2 & Hr & Hrest2).
      * intros t' Hin. apply Hdocs. right. exact Hin.
      * exists w2. rewrite Hr. auto.
Qed.

Lemma deactivate_lookup (l : list Team) (db : gmap string Team) (k : string) :
  foldl (fun db t => if active t then alter (with_active false) (name t) db else db) db l !! k
  = if existsb (fun t => active t && String.eqb (name t) k) l
    then with_active false <$> db !! k
    else db !! k.
Proof.
  revert db. induction l as [|t rest IH]; intros db; [reflexivity|].
  cbn [foldl existsb]. rewrite IH.
  destruct (active t) eqn:Ha; cbn [andb orb]; [|reflexivity].
  rewrite lookup_alter.
  destruct (String.eqb_spec (name t) k) as [E|E]; cbn [orb].
  - rewrite decide_True by exact E. subst k.
    destruct (existsb _ rest); destruct (db !! name t); reflexivity.
  - rewrite decide_False by exact E. reflexivity.
Qed.

Lemma deactivate_all (db : gmap string Team) :
  filed_by_name db ->
  foldl (fun db t => if active t then alter (with_active false) (name t) db else db)
        db (map_to_list db).*2
  = with_active false <$> db.
Proof.
  intros Hwf. apply map_eq. intros k. rewrite deactivate_lookup, lookup_fmap.
  destruct (existsb _ _) eqn:He; [reflexivity|].
  destruct (db !! k) as [t|] eqn:Hk; [|reflexivity]. cbn. f_equal.
  destruct (active t) eqn:Ha;
    [|destruct t as [n p a]; cbn in Ha; subst a; reflexivity].
  exfalso.
  assert (Hex : existsb (fun t => active t && String.eqb (name t) k) (map_to_list db).*2 = true).
  { apply existsb_exists. exists t. split.
    - apply list_elem_of_In, list_elem_of_fmap. exists (k, t). split; [reflexivity|].
      apply elem_of_map_to_list. exact Hk.
    - rewrite Ha, (Hwf k t Hk), String.eqb_refl. reflexivity. }
  congruence.
Qed.

Lemma batch_repositories_world (repos : list Repository) (b : Backend) :
  exists batch b',
    Service.batch_repositories repos b = (Done batch, b') /\
    world b' = world b /\ repositoriesDb b' = repositoriesDb b.
Proof.
  revert b. induction repos as [|repo rest IH]; intros b.
  - eexists _, _. split; [reflexivity|auto].
  - cbn [Service.batch_repositories]. unfold abind at 1, new_doc_id at 1.
    unfold abind at 1.
    destruct (IH (mkBackend (world b) (repositoriesDb b) (auto_id b) (S (generated b))))
      as (batch & b' & Hr & Hw & Hd).
    rewrite Hr. eexists _, _. split; [reflexivity|auto].
Qed.

(** The second half of [initializeData]: the repositories. *)
Lemma run_repositories_phase (b : Backend) :
  net (world b) = [] ->
  exists b',
    (existingRepos <~ Service.getAllRepositories ;;
     _ <~ (if (length existingRepos =? 0)%nat
           then Service.initializeRepositories AppProvider.INITIAL_REPOSITORIES
           else aret tt) ;;
     aret true) b = (Done true, b') /\
    world b' = world b.
Proof.
  intros Hn. unfold abind at 1. unfold Service.getAllRepositories.
  rewrite (store_call_quiet _ b Hn). cbn [fst snd].
  destruct (length _ =? 0)%nat.
  - unfold abind at 1. unfold Service.initializeRepositories, acatch.
    unfold abind at 1.
    destruct (batch_repositories_world AppProvider.INITIAL_REPOSITORIES b)
      as (batch & b1 & Hr & Hw & Hd).
    rewrite Hr, store_call_quiet by (rewrite Hw; exact Hn).
    cbn [fst snd aret]. eexists. split; [reflexivity|]. exact Hw.
  - cbn. eexists. split; [reflexivity|reflexivity].
Qed.

Lemma run_initializeData (b : Backend) :
  net (world b) = [] ->
  filed_by_name (teamsDb (world b)) ->
  exists b',
  AppProvider.initializeData b = (Done true, b') /\
  teamsDb (world b')
  = (if decide (teamsDb (world b) = ∅)
     then initial_teams AppProvider.ALLOWED_TEAMS ∅
     else with_active false <$> teamsDb (world b)) /\
  issuesDb (world b') = issuesDb (world b).
Proof.
  intros Hn Hwf.
  unfold AppProvider.initializeData, acatch.
  unfold abind at 1. unfold Service.getAllTeams, acatch.
  rewrite (store_call_quiet _ b Hn). cbn [fst snd].
  unfold abind at 1.
  destruct (decide (teamsDb (world b) = ∅)) as [He|He].
  - rewrite He, map_to_list_empty. cbn [fmap list_fmap length Nat.eqb].
    unfold Service.initializeTeams, acatch.
    rewrite (store_call_quiet _ b Hn). cbn [fst snd].
    destruct (run_repositories_phase
                (set_teams (fun db => foldl
                   (fun db name => <[name := {| name := name; points := 0;
                                                active := false |}]> db)
                   db AppProvider.ALLOWED_TEAMS) b)) as (b' & Hr & Hw).
    { exact Hn. }
    rewrite Hr. exists b'. split; [reflexivity|]. rewrite Hw. cbn. rewrite He. auto.
  - replace (length (map_to_list (teamsDb (world b))).*2 =? 0)%nat with false.
    2:{ symmetry. apply Nat.eqb_neq. rewrite length_fmap, length_map_to_list.
        intros Hz. apply He. apply map_size_empty_iff. exact Hz. }
    destruct (run_deactivate_loop (map_to_list (teamsDb (world b))).*2 b Hn)
      as (w1 & Hr & Hn1 & Hi1 & Ht1).
    { intros t Hin. apply list_elem_of_fmap in Hin as ([k t'] & -> & Hin).
      apply elem_of_map_to_list in Hin. cbn. rewrite (Hwf k t' Hin). eauto. }
    rewrite Hr.
    destruct (run_repositories_phase (with_world w1 b)) as (b' & Hr' & Hw).
    { exact Hn1. }
    rewrite Hr'. exists b'. split; [reflexivity|]. rewrite Hw. cbn.
    rewrite Ht1, (deactivate_all _ Hwf). auto.
Qed.

(** X24.  The first load of the application ([initializeData], lines
    72-102), with the store in reach: it completes; with no team document
    it creates the four allowed teams with no points; otherwise it keeps
    the team documents and clears every [active] flag.  Either way no
    team is active afterwards, and the issues are not touched. *)
Theorem initializeData_clears_sessions (b : Backend) :
  net (world b) = [] ->
  filed_by_name (teamsDb (world b)) ->
  let out := AppProvider.initializeData b in
  out.1 = Done true /\
  (teamsDb (world b) = ∅ ->
   teamsDb (world out.2) = initial_teams AppProvider.ALLOWED_TEAMS ∅) /\
  (teamsDb (world b) <> ∅ ->
   teamsDb (world out.2) = with_active false <$> teamsDb (world b)) /\
  (forall k t, teamsDb (world out.2) !! k = Some t -> active t = false) /\
  issuesDb (world out.2) = issuesDb (world b).
Proof.
  intros Hn Hwf out.
  destruct (run_initializeData b Hn Hwf) as (b' & Hrun & H2 & H3).
  unfold out. rewrite Hrun. cbn [fst snd].
  assert (H1 : Done true = Done true :> Outcome bool) by reflexivity.
  split; [exact H1|]. split; [|split; [|split; [|exact H3]]].
  - intros He. rewrite H2, decide_True by exact He. reflexivity.
  - intros He. rewrite H2, decide_False by exact He. reflexivity.
  - intros k t. rewrite H2. destruct (decide _) as [He|He].
    + unfold initial_teams, AppProvider.ALLOWED_TEAMS. cbn [foldl].
      intros Hk.
      repeat (apply lookup_insert_Some in Hk as [[_ <-]|[_ Hk]]; [reflexivity|]).
      rewrite lookup_empty in Hk. discriminate.
    + rewrite lookup_fmap. destruct (teamsDb (world b) !! k); [|discriminate].
      cbn. intros [= <-]. reflexivity.
Qed.

Lemma initializeData_clears_sessions_witness :
  let out := AppProvider.initializeData sample_backend in
  out.1 = Done true /\
  teamsDb (world out.2) !! "TeamBravo" = Some (mkTeam "TeamBravo" 30 false) /\
  teamsDb (world out.2) !! "TeamDelta" = Some (mkTeam "TeamDelta" 10 false).
Proof.
  intros out.
  destruct (initializeData_clears_sessions sample_backend eq_refl
              (sample_teams_filed _ _ _)) as (H1 & _ & H3 & _).
  fold out in H1, H3. split; [exact H1|].
  assert (Hne : teamsDb (world sample_backend) <> ∅).
  { intros He. apply (f_equal (fun m => m !! "TeamBravo")) in He.
    vm_compute in He. discriminate He. }
  rewrite (H3 Hne), !lookup_fmap. split; vm_compute; reflexivity.
Defined.

(** X25.  A page load ends every session: whatever the [active] flag of an
    allowed team was, after [initializeData] a browser that has received
    the team list can log in as that team. *)
Theorem page_load_reopens_login
    (b : Backend) (teamName password : string) (s : Session) (td : Team) :
  net (world b) = [] ->
  filed_by_name (teamsDb (world b)) ->
  teamsDb (world b) !! teamName = Some td ->
  teamName ∈ AppProvider.ALLOWED_TEAMS ->
  AppProvider.TEAM_PASSWORDS teamName = Some password ->
  let w1 := world (AppProvider.initializeData b).2 in
  teamsDb w1 !! teamName = Some (with_active false td) /\
  (run (AppProvider.loginTeam (teams_snapshot w1) teamName password s) w1).1
  = Done (ok, {| currentTeam := Some (with_active false td); isAdmin := isAdmin s |}).
Proof.
  intros Hn Hwf Htd Hal Hpw w1.
  assert (Hne : teamsDb (world b) <> ∅).
  { intros He. rewrite He, lookup_empty in Htd. discriminate. }
  destruct (run_initializeData b Hn Hwf) as (b' & Hrun & Hdb & _).
  rewrite decide_False in Hdb by exact Hne.
  unfold w1 in *; clear w1. rewrite Hrun. cbn [snd].
  assert (Hinact : forall k t, teamsDb (world b') !! k = Some t -> active t = false).
  { intros k t. rewrite Hdb, lookup_fmap.
    destruct (teamsDb (world b) !! k); [|discriminate]. cbn. intros [= <-]. reflexivity. }
  set (w1 := world b') in *.
  assert (Hk : teamsDb w1 !! teamName = Some (with_active false td))
    by (rewrite Hdb, lookup_fmap, Htd; reflexivity).
  split; [exact Hk|].
  assert (Hsnap : forall t, t ∈ teams_snapshot w1 ->
                            exists k, teamsDb w1 !! k = Some t /\ name t = k).
  { intros t Hin. unfold teams_snapshot in Hin.
    apply list_elem_of_fmap in Hin as ([k t'] & -> & Hin).
    apply elem_of_map_to_list in Hin. exists k. split; [exact Hin|].
    cbn. rewrite Hdb, lookup_fmap in Hin.
    destruct (teamsDb (world b) !! k) as [t0|] eqn:Hk0; [|discriminate].
    cbn in Hin. injection Hin as <-. cbn. apply (Hwf k t0 Hk0). }
  destruct (List.find (fun t => String.eqb (name t) teamName) (teams_snapshot w1))
    as [team|] eqn:Hfind.
  - destruct (find_by_name_Some _ _ _ Hfind) as [Hin Hname].
    destruct (Hsnap team Hin) as (k & Hteam & Hkey).
    assert (team = with_active false td) by congruence. subst team.
    apply loginTeam_accepts; auto.
    intros t Ht _. destruct (Hsnap t Ht) as (k' & Hk' & _). exact (Hinact k' t Hk').
  - exfalso. apply (find_by_name_None _ _ Hfind (with_active false td)); [|apply (Hwf _ _ Htd)].
    unfold teams_snapshot. apply list_elem_of_fmap. exists (teamName, with_active false td).
    split; [reflexivity|]. apply elem_of_map_to_list. exact Hk.
Qed.

Lemma page_load_reopens_login_witness :
  let w1 := world (AppProvider.initializeData sample_backend).2 in
  active <$> teamsDb (world sample_backend) !! "TeamBravo" = Some true /\
  (run (AppProvider.loginTeam (teams_snapshot w1) "TeamBravo" "bravo123" nobody) w1).1
  = Done (ok, {| currentTeam := Some (mkTeam "TeamBravo" 30 false); isAdmin := false |}).
Proof.
  intros w1. split; [vm_compute; reflexivity|].
  assert (Htd : teamsDb (world sample_backend) !! "TeamBravo"
                = Some (mkTeam "TeamBravo" 30 true)) by (vm_compute; reflexivity).
  assert (Hal : "TeamBravo" ∈ AppProvider.ALLOWED_TEAMS).
  { apply list_elem_of_In. right. left. reflexivity. }
  exact (proj2 (page_load_reopens_login sample_backend "TeamBravo" "bravo123" nobody
                  (mkTeam "TeamBravo" 30 true) eq_refl (sample_teams_filed _ _ _)
                  Htd Hal eq_refl)).
Defined.

(* ===================================================================== *)
(** * Documents created and deleted *)
(* ===================================================================== *)

Lemma occupied_count_fresh teamName (db : gmap string Issue) j d' :
  db !! j = None ->
  matches (CachedService.team_query teamName) d' = false ->
  occupied_count teamName (<[j := d']> db) = occupied_count teamName db.
Proof.
  intros Hj Hm'. unfold occupied_count.
  rewrite map_filter_insert_False by (cbn; congruence).
  rewrite delete_id by exact Hj. reflexivity.
Qed.

Lemma occupied_count_delete teamName (db : gmap string Issue) j dj :
  db !! j = Some dj ->
  occupied_count teamName (delete j db)
  = if matches (CachedService.team_query teamName) dj
    then Nat.pred (occupied_count teamName db)
    else occupied_count teamName db.
Proof.
  intros Hj. unfold occupied_count. rewrite map_filter_delete.
  destruct (matches (CachedService.team_query teamName) dj) eqn:Hm.
  - apply map_size_delete_Some. exists dj. apply map_lookup_filter_Some. auto.
  - rewrite delete_id; [reflexivity|].
    apply map_lookup_filter_None. right. intros x Hx. cbn. congruence.
Qed.

(** X26.  [deleteIssue] removes the document and nothing else; a claim of
    the issue through the cached service then returns 'Issue not found',
    and when the issue was occupied the team that held it has one
    occupied issue less. *)
Theorem deleted_issue_cannot_be_claimed
    (b : Backend) (issueId teamName : string) (maxRetries : Z) :
  net (world b) = [] ->
  issueId <> "" -> teamName <> "" ->
  let out := AppProvider.deleteIssue issueId b in
  let w1 := world out.2 in
  out.1 = Done tt /\
  issuesDb w1 = delete issueId (issuesDb (world b)) /\
  teamsDb w1 = teamsDb (world b) /\
  (run (CachedService.occupyIssueTransaction issueId teamName maxRetries) w1).1
  = Done (Some (failure "Issue not found")) /\
  (forall d, issuesDb (world b) !! issueId = Some d ->
             assignedTo d = Some teamName -> status d = occupied ->
             occupied_count teamName (issuesDb w1)
             = Nat.pred (occupied_count teamName (issuesDb (world b)))).
Proof.
  intros Hn Hi Ht out w1. unfold w1, out; clear w1 out.
  unfold AppProvider.deleteIssue, Service.deleteIssue.
  rewrite (store_call_quiet _ b Hn). cbn [fst snd].
  cbn [set_issues world with_world issuesDb teamsDb with_issuesDb].
  split; [reflexivity|]. split; [reflexivity|]. split; [reflexivity|]. split.
  - set (w1 := with_issuesDb _ _).
    assert (Hmiss : issuesDb w1 !! issueId = None) by (cbn; apply lookup_delete_eq).
    assert (Hf : fault (arrive w1).1 = None) by (apply quiet_arrive; exact Hn).
    rewrite (run_cached_missing w1 issueId teamName maxRetries Hi Ht Hmiss Hf).
    reflexivity.
  - intros d Hd Ha Hs. rewrite (occupied_count_delete _ _ _ d Hd).
    unfold matches. cbn. rewrite Ha, Hs. cbn. rewrite String.eqb_refl. reflexivity.
Qed.

Lemma deleted_issue_cannot_be_claimed_witness :
  let w1 := world (AppProvider.deleteIssue "I1" sample_backend).2 in
  occupied_count "TeamBravo" (issuesDb (world sample_backend)) = 1%nat /\
  occupied_count "TeamBravo" (issuesDb w1) = 0%nat /\
  (run (CachedService.occupyIssueTransaction "I1" "TeamDelta" 3) w1).1
  = Done (Some (failure "Issue not found")).
Proof.
  intros w1.
  destruct (deleted_issue_cannot_be_claimed sample_backend "I1" "TeamDelta" 3
              eq_refl ltac:(discriminate) ltac:(discriminate)) as (_ & _ & _ & H4 & _).
  destruct (deleted_issue_cannot_be_claimed sample_backend "I1" "TeamBravo" 3
              eq_refl ltac:(discriminate) ltac:(discriminate)) as (_ & _ & _ & _ & H5).
  assert (Hd : issuesDb (world sample_backend) !! "I1"
               = Some (sample_issue "I1" "easy" occupied (Some "TeamBravo") (Some 1000)))
    by (vm_compute; reflexivity).
  assert (H1 : occupied_count "TeamBravo" (issuesDb (world sample_backend)) = 1%nat)
    by (vm_compute; reflexivity).
  split; [exact H1|]. split; [|exact H4].
  fold w1 in H5. rewrite (H5 _ Hd eq_refl eq_refl), H1. reflexivity.
Defined.

(** X27.  [addIssue] files the issue under the generated id as open and
    unheld, whatever status and holder the argument carries, with a time
    of 0 stored as [null]; no team's count of occupied issues changes,
    and a team under its quota can claim the new issue at once. *)
Theorem added_issue_is_open_and_claimable
    (b : Backend) (issue : Issue) (teamName : string) (maxRetries : Z) :
  net (world b) = [] ->
  let newId := auto_id b (generated b) in
  issuesDb (world b) !! newId = None ->
  let out := AppProvider.addIssue issue b in
  let w1 := world out.2 in
  out.1 = Done tt /\
  issuesDb w1 = <[newId := added newId issue]> (issuesDb (world b)) /\
  teamsDb w1 = teamsDb (world b) /\
  (forall t, occupied_count t (issuesDb w1) = occupied_count t (issuesDb (world b))) /\
  (newId <> "" -> teamName <> "" -> 0 < maxRetries ->
   CachedService.stale (teamIssueCountCache (world b) !! teamName) (clock (world b)) = true ->
   (occupied_count teamName (issuesDb (world b)) < 3)%nat ->
   let claim := run (CachedService.occupyIssueTransaction newId teamName maxRetries) w1 in
   claim.1 = Done (Some ok) /\
   issuesDb claim.2 !! newId
   = Some (claimed teamName (clock (world b)) (added newId issue))).
Proof.
  intros Hn newId Hfresh out w1.
  assert (Hrun : AppProvider.addIssue issue b
                 = (Done tt,
                    set_issues (insert newId (added newId issue))
                      (mkBackend (world b) (repositoriesDb b) (auto_id b)
                                 (S (generated b))))).
  { unfold AppProvider.addIssue, Service.createIssue.
    unfold abind at 1. unfold abind at 1. unfold new_doc_id at 1.
    unfold abind at 1.
    rewrite store_call_quiet by exact Hn. reflexivity. }
  unfold w1, out; clear w1 out. rewrite Hrun. cbn [fst snd].
  cbn [set_issues world with_world issuesDb teamsDb with_issuesDb].
  split; [reflexivity|]. split; [reflexivity|]. split; [reflexivity|].
  assert (Hcount : forall t, occupied_count t (<[newId := added newId issue]> (issuesDb (world b)))
                             = occupied_count t (issuesDb (world b))).
  { intros t. apply occupied_count_fresh; [exact Hfresh|]. apply matches_open. reflexivity. }
  split; [exact Hcount|].
  intros Hi Ht Hm Hst Hq.
  set (w1 := with_issuesDb _ _).
  destruct (cached_admits_under_quota w1 newId teamName maxRetries (added newId issue)
              Hi Ht Hm Hn) as [H1 H2].
  - cbn. apply lookup_insert_eq.
  - reflexivity.
  - cbn. discriminate.
  - exact Hst.
  - cbn. rewrite Hcount. exact Hq.
  - cbv zeta. split; [exact H1|]. rewrite H2. apply lookup_insert_eq.
Qed.

Lemma added_issue_is_open_and_claimable_witness :
  let issue := sample_issue "" "hard" closed (Some "TeamDelta") (Some 0) in
  let w1 := world (AppProvider.addIssue issue sample_backend).2 in
  issuesDb w1 !! "R0"
  = Some {| issue_id := "R0"; title := ""; tags := ["hard"]; status := open;
            assignedTo := None; occupiedAt := None; closedAt := None;
            prUrl := None; prStatus := None; lastUpdated := None |} /\
  (run (CachedService.occupyIssueTransaction "R0" "TeamDelta" 3) w1).1 = Done (Some ok).
Proof.
  intros issue w1.
  assert (Hfresh : issuesDb (world sample_backend) !! "R0" = None)
    by (vm_compute; reflexivity).
  destruct (added_issue_is_open_and_claimable sample_backend issue "TeamDelta" 3
              eq_refl Hfresh) as (_ & H2 & _ & _ & H5).
  fold w1 in H2, H5. split.
  - rewrite H2. apply lookup_insert_eq.
  - assert (Hq : (occupied_count "TeamDelta" (issuesDb (world sample_backend)) < 3)%nat)
      by (vm_compute; lia).
    exact (proj1 (H5 ltac:(discriminate) ltac:(discriminate) ltac:(reflexivity)
                    eq_refl Hq)).
Defined.

(** X28.  A repository that is added appears in the list of
    [getAllRepositories] under the generated id, and deleting it by name
    from that list removes exactly its document: the collection is the
    one before, provided no other repository has the name. *)
Theorem repository_add_then_delete (b : Backend) (repo : Repository) :
  net (world b) = [] ->
  let newId := auto_id b (generated b) in
  repo_id repo = None ->
  newId <> "" ->
  repositoriesDb b !! newId = None ->
  (forall k r, repositoriesDb b !! k = Some r -> repo_name r <> repo_name repo) ->
  let b1 := (AppProvider.addRepository repo b).2 in
  let listed := (Service.getAllRepositories b1).1 in
  repositoriesDb b1 = <[newId := repo]> (repositoriesDb b) /\
  exists l,
    listed = Done l /\
    {| repo_id := Some newId; repo_name := repo_name repo; url := url repo |} ∈ l /\
    let b2 := (AppProvider.deleteRepository l (repo_name repo) b1).2 in
    repositoriesDb b2 = repositoriesDb b /\ world b2 = world b.
Proof.
  intros Hn newId Hid Hne Hfresh Hnames b1 listed.
  assert (Hadd : AppProvider.addRepository repo b
                 = (Done tt,
                    with_repositoriesDb (<[newId := repo]> (repositoriesDb b))
                      (mkBackend (world b) (repositoriesDb b) (auto_id b)
                                 (S (generated b))))).
  { unfold AppProvider.addRepository, Service.createRepository.
    unfold abind at 1. unfold new_doc_id at 1.
    rewrite store_call_quiet by exact Hn. reflexivity. }
  unfold listed, b1; clear listed b1. rewrite Hadd. cbn [snd].
  set (b1 := with_repositoriesDb _ _).
  split; [reflexivity|].
  unfold Service.getAllRepositories. rewrite (store_call_quiet _ b1 Hn). cbn [fst snd].
  eexists. split; [reflexivity|].
  set (view := fun kr : string * Repository =>
                 {| repo_id := Some (or_else (repo_id kr.2) kr.1);
                    repo_name := repo_name kr.2; url := url kr.2 |}).
  assert (Hin : view (newId, repo) ∈ List.map view (map_to_list (repositoriesDb b1))).
  { apply list_elem_of_In, in_map, list_elem_of_In, elem_of_map_to_list.
    cbn. apply lookup_insert_eq. }
  split.
  { unfold view in Hin at 1. cbn in Hin. rewrite Hid in Hin. exact Hin. }
  unfold AppProvider.deleteRepository.
  destruct (List.find _ _) as [r|] eqn:Hfind.
  - apply find_some in Hfind as [Hr Hname]. apply String.eqb_eq in Hname.
    apply in_map_iff in Hr as ([k r0] & <- & Hk).
    apply list_elem_of_In, elem_of_map_to_list in Hk. cbn in Hk, Hname.
    apply lookup_insert_Some in Hk as [[<- <-]|[_ Hk]].
    + cbn. rewrite Hid. cbn. rewrite (truthy_str_true _ Hne).
      unfold Service.deleteRepository. rewrite (store_call_quiet _ b1 Hn).
      cbn. split; [|reflexivity].
      rewrite delete_insert_eq. apply delete_id. exact Hfresh.
    + exfalso. exact (Hnames k r0 Hk Hname).
  - exfalso. apply list_elem_of_In in Hin.
    pose proof (find_none _ _ Hfind _ Hin) as Hf. cbn in Hf.
    rewrite String.eqb_refl in Hf. discriminate.
Qed.

Lemma repository_add_then_delete_witness :
  let repo := {| repo_id := None; repo_name := "tools"; url := "https://x/tools" |} in
  let b1 := (AppProvider.addRepository repo sample_backend).2 in
  repositoriesDb b1 !! "R0" = Some repo /\
  exists l, (Service.getAllRepositories b1).1 = Done l /\
            repositoriesDb (AppProvider.deleteRepository l "tools" b1).2 = ∅.
Proof.
  intros repo b1.
  destruct (repository_add_then_delete sample_backend repo eq_refl eq_refl
              ltac:(discriminate) eq_refl) as (H1 & l & Hl & _ & H3 & _).
  - intros k r Hk. cbn in Hk. rewrite lookup_empty in Hk. discriminate.
  - fold b1 in H1, Hl, H3. split.
    + rewrite H1. apply lookup_insert_eq.
    + exists l. split; [exact Hl|exact H3].
Defined.

(** X29.  Times on their way through the store.  What [createIssue] and
    [updateIssue] store and [subscribeToIssues] delivers is the number
    that went in, except that 0 comes back as [null]; this is
    [to_timestamp], which the first part uses for both steps at once.  A
    [Timestamp] of 0 milliseconds is the one value the subscriber hands
    on as a [Timestamp]; delivering twice changes nothing. *)
Theorem timestamps_round_trip (v : option Z) :
  delivered_time (stored_time v) = time_of (to_timestamp v) /\
  (delivered_time (stored_time v) = time_of v <-> v <> Some 0) /\
  (forall ms, delivered_time (TTimestamp ms) = TNumber ms <-> ms <> 0) /\
  (forall f, delivered_time (delivered_time f) = delivered_time f).
Proof.
  split; [|split; [|split]].
  - destruct v as [ms|]; [|reflexivity].
    unfold stored_time, to_timestamp. cbn.
    destruct (Z.eqb_spec ms 0) as [->|Hne]; cbn; [reflexivity|].
    destruct (Z.eqb_spec ms 0); [contradiction|reflexivity].
  - destruct v as [ms|]; [|split; [discriminate|reflexivity]].
    unfold stored_time. cbn.
    destruct (Z.eqb_spec ms 0) as [->|Hne]; cbn.
    + split; [discriminate|congruence].
    + destruct (Z.eqb_spec ms 0); [contradiction|]. split; [congruence|reflexivity].
  - intros ms. cbn. destruct (Z.eqb_spec ms 0) as [->|Hne]; split; congruence.
  - intros [|ms|ms]; cbn; try reflexivity.
    destruct (Z.eqb_spec ms 0) as [->|Hne]; cbn; [reflexivity|reflexivity].
Qed.
